(** * jiankoubo: timeline reconstruction and export pipeline

    A shallow embedding of [processing.py] (class [VideoProcessor]) and the
    properties of its clip detector, keep-interval computation, filter
    synthesis, encoder selection, ETA estimator and export state machine;
    then of the model manager of the same file and of the part of
    [main_window.py] that pages the clips, builds the export from the
    ticked rows, reads the filler words and computes the statistics.

    Times are Python floats in the source.  They are modelled as exact
    rationals [Q]: the code only compares, subtracts, takes [max] and
    divides them, and nothing below depends on rounding. *)

From Stdlib Require Import QArith Qround Lqa ZArith Lia List String Ascii Bool.
From Stdlib Require Import Sorting.Sorted Sorting.Permutation DecimalString.
Import ListNotations.

Local Open Scope Q_scope.

(** ** Data model *)

(** [class ClipType(Enum)] *)
Inductive ClipType : Type := FILLER | SILENCE.

(** [@dataclass class Clip]; [end] is a keyword, hence [end_]. *)
Record Clip : Type := mkClip {
  type : ClipType;
  start : Q;
  end_ : Q;
  content : string
}.

(** A keep interval is the Python tuple [(start, end)]. *)
Definition Interval : Type := (Q * Q)%type.

(** Python's [a > b] and [a < b] on floats, as decisions that compute. *)
Definition fgt_dec (a b : Q) : {b < a} + {a <= b} := Qlt_le_dec b a.
Definition flt_dec (a b : Q) : {a < b} + {b <= a} := Qlt_le_dec a b.

(** Python's [max(a, b)]: the first argument unless the second is greater. *)
Definition py_max (a b : Q) : Q := if fgt_dec b a then b else a.

(** ** [list.sort(key=lambda c: c.start)]: a stable sort by start *)

Fixpoint insert_by_start (c : Clip) (l : list Clip) : list Clip :=
  match l with
  | [] => [c]
  | d :: l' =>
      if flt_dec (start d) (start c) then d :: insert_by_start c l'
      else c :: d :: l'
  end.

Definition sort_by_start (l : list Clip) : list Clip :=
  fold_right insert_by_start [] l.

(** ** Keep intervals *)

(** One iteration of the loop of [_build_ffmpeg_select_expression]
    (lines 321-324); the loop state is [(keep_times, last_end)]. *)
Definition keep_step (st : list Interval * Q) (clip : Clip) : list Interval * Q :=
  let '(keep_times, last_end) := st in
  let keep_times :=
    if fgt_dec (start clip) last_end
    then keep_times ++ [(last_end, start clip)] else keep_times in
  (keep_times, py_max last_end (end_ clip)).

(** The trailing interval, lines 326-327 (and 399-400). *)
Definition close_keep (st : list Interval * Q) (duration : Q) : list Interval :=
  let '(keep_times, last_end) := st in
  if flt_dec last_end duration
  then keep_times ++ [(last_end, duration)] else keep_times.

(** Lines 314-327 of [_build_ffmpeg_select_expression]. *)
Definition keep_times_of (clips_to_remove : list Clip) (duration : Q) : list Interval :=
  let clips := sort_by_start clips_to_remove in
  close_keep (fold_left keep_step clips ([], 0)) duration.

(** One iteration of the loop of [_moviepy_export] (lines 394-397):
    the cursor is assigned, not maximised. *)
Definition keep_step_moviepy (st : list Interval * Q) (clip : Clip)
  : list Interval * Q :=
  let '(clips_to_keep_times, last_end) := st in
  let clips_to_keep_times :=
    if fgt_dec (start clip) last_end
    then clips_to_keep_times ++ [(last_end, start clip)]
    else clips_to_keep_times in
  (clips_to_keep_times, end_ clip).

(** Lines 388-400 of [_moviepy_export]. *)
Definition clips_to_keep_times_of (clips_to_remove : list Clip) (duration : Q)
  : list Interval :=
  let clips := sort_by_start clips_to_remove in
  close_keep (fold_left keep_step_moviepy clips ([], 0)) duration.

(** ** Measures used to state the properties *)

Definition duration_of (i : Interval) : Q := snd i - fst i.

Definition total_duration (l : list Interval) : Q :=
  fold_right (fun i acc => duration_of i + acc) 0 l.

Definition span (c : Clip) : Interval := (start c, end_ c).

(** Length of the (possibly empty) interval [[fst i, snd i]]. *)
Definition measure1 (i : Interval) : Q :=
  if flt_dec (fst i) (snd i) then snd i - fst i else 0.

Definition inter (a b : Interval) : Interval :=
  (py_max (fst a) (fst b), if flt_dec (snd a) (snd b) then snd a else snd b).

(** Measure of a union of intervals, overlaps counted once, by
    inclusion and exclusion:
    [m (c ∪ U) = m c + m U - m (c ∩ U)], and [c ∩ (∪ cs) = ∪ (c ∩ cs_i)].
    The recursion is on the length of the list. *)
Fixpoint union_measure_aux (n : nat) (l : list Interval) : Q :=
  match n, l with
  | S n', c :: cs =>
      measure1 c + union_measure_aux n' cs
      - union_measure_aux n' (map (inter c) cs)
  | _, _ => 0
  end.

Definition union_measure (l : list Interval) : Q :=
  union_measure_aux (List.length l) l.

(** Half-open membership, used for the point-wise reading. *)
Definition covers (i : Interval) (t : Q) : Prop := fst i <= t /\ t < snd i.

(** Pairwise non-overlapping and sorted by start: every interval is
    non-empty and ends no later than every later interval starts. *)
Definition before (a b : Interval) : Prop := snd a <= fst b.
Definition well_formed (i : Interval) : Prop := fst i < snd i.

Definition ordered_disjoint (l : list Interval) : Prop :=
  Forall well_formed l /\ StronglySorted before l.

(** Proof devices: the loop of [keep_step] read as a recursion. *)
Fixpoint gaps (clips : list Clip) (last_end : Q) : list Interval :=
  match clips with
  | [] => []
  | c :: cs =>
      (if fgt_dec (start c) last_end then [(last_end, start c)] else [])
      ++ gaps cs (py_max last_end (end_ c))
  end.

Fixpoint final_end (clips : list Clip) (last_end : Q) : Q :=
  match clips with
  | [] => last_end
  | c :: cs => final_end cs (py_max last_end (end_ c))
  end.

Definition ieq (a b : Interval) : Prop := fst a == fst b /\ snd a == snd b.
Definition empty_interval (i : Interval) : Prop := snd i <= fst i.
Definition cut_right (e : Q) (i : Interval) : Interval := inter (fst i, e) i.
Definition cut_left (e : Q) (i : Interval) : Interval := inter (e, snd i) i.
Definition start_le (a b : Clip) : Prop := start a <= start b.
Definition starts_increase (a b : Interval) : Prop := fst a < fst b.
Definition within (D : Q) (c : Clip) : Prop := start c <= end_ c /\ end_ c <= D.
Definition in_media (D : Q) (c : Clip) : Prop :=
  0 <= start c /\ start c <= end_ c /\ end_ c <= D.

(** ** Strings and numbers as Python formats them *)

(** [str(n)] of an int. *)
Definition str_int (n : Z) : string := NilZero.string_of_int (Z.to_int n).

(** [int(x)] of a float: truncation towards zero. *)
Definition py_int (x : Q) : Z := if flt_dec x 0 then Qceiling x else Qfloor x.

(** [x % y] on floats, for a positive [y]: the result has the sign of [y]. *)
Definition py_mod (x y : Q) : Q := x - y * inject_Z (Qfloor (x / y)).

(** The whitespace that [str.strip()] removes, for text whose blanks are
    ASCII (tab, line feed, vertical tab, form feed, carriage return,
    the separators 28-31 and the space). *)
Definition is_space (c : ascii) : bool :=
  let n := nat_of_ascii c in
  ((9 <=? n) && (n <=? 13) || (28 <=? n) && (n <=? 32))%nat.

Fixpoint lstrip (s : string) : string :=
  match s with
  | String c s' => if is_space c then lstrip s' else s
  | EmptyString => EmptyString
  end.

Fixpoint rstrip (s : string) : string :=
  match s with
  | String c s' =>
      match rstrip s' with
      | EmptyString => if is_space c then EmptyString else String c EmptyString
      | r => String c r
      end
  | EmptyString => EmptyString
  end.

Definition strip (s : string) : string := rstrip (lstrip s).

(** [needle in haystack] on strings. *)
Fixpoint contains (needle haystack : string) : bool :=
  String.prefix needle haystack
  || match haystack with
     | String _ h => contains needle h
     | EmptyString => false
     end.

(** [x in xs] on a list of strings. *)
Definition mem (x : string) (xs : list string) : bool :=
  existsb (String.eqb x) xs.

(** ** Transcript *)

(** A word of [segment.words]: [word.word], [word.start], [word.end]. *)
Record Word : Type := mkWord {
  word : string;
  w_start : Q;
  w_end : Q
}.

Record Segment : Type := mkSegment { words : list Word }.

(** ** Effects

    Signals, prints and calls to collaborators are recorded in the order
    in which they happen.  A Python exception is kept as its text, the
    only part of it the code looks at ([f"...{e}"]). *)

Definition exn : Type := string.

Inductive outcome (A : Type) : Type :=
| Returned (a : A)
| Raised (e : exn).
Arguments Returned {A} a.
Arguments Raised {A} e.

Inductive ExternalCall : Type :=
| call_ffprobe (path : string)
| call_ffmpeg_encoders
| call_ffmpeg (cmd : list string)
| call_torch
| call_VideoFileClip (path : string)
| call_write_audiofile (path : string)
| call_get_model
| call_transcribe (path : string)
| call_subclip (t_start t_end : Q)
| call_write_videofile (kept : list Interval) (path : string).

Inductive Event : Type :=
| progress (step : Z) (label eta : string)
| status (text : string)
| finished (clips : list Clip)
| finished_export (path : string)
| error (text : string)
| print (text : string)
| external (c : ExternalCall).

(** What the collaborators answer.  Every call either returns or raises.
    The transcription of one audio file is the same each time it is
    asked for, and the clock is read by the number of the reading. *)
Record World : Type := mkWorld {
  time_time : nat -> Q;
  float_str : Q -> string;
  float_of_str : string -> outcome Q;
  ffprobe : string -> outcome (Z * string);
  ffmpeg_encoders : outcome string;
  ffmpeg : list string -> outcome (Z * string);
  torch_cuda_is_available : outcome bool;
  VideoFileClip : string -> outcome Q;
  write_audiofile : string -> outcome unit;
  get_model : outcome unit;
  transcribe : string -> outcome (list Segment);
  subclip : Q -> Q -> outcome unit;
  write_videofile : list Interval -> string -> outcome unit
}.

Inductive Mode : Type := mode_analyze | mode_export.

(** The attributes of [VideoProcessor] set in [__init__]. *)
Record VideoProcessor : Type := mkVideoProcessor {
  video_path : string;
  filler_words : list string;
  silence_threshold : Q;
  mode : Mode;
  clips_to_remove : list Clip;
  output_path : string;
  start_time : option Q;
  total_steps : Z;
  current_step : Z
}.

(** The object and the number of clock readings made so far. *)
Record State : Type := mkState {
  self : VideoProcessor;
  clock : nat
}.

Definition M (A : Type) : Type := State -> outcome A * State * list Event.

Definition ret {A} (a : A) : M A := fun s => (Returned a, s, []).

Definition raise {A} (e : exn) : M A := fun s => (Raised e, s, []).

Definition bind {A B} (m : M A) (k : A -> M B) : M B := fun s =>
  match m s with
  | (Returned a, s1, out1) =>
      let '(r, s2, out2) := k a s1 in (r, s2, out1 ++ out2)
  | (Raised e, s1, out1) => (Raised e, s1, out1)
  end.

(** [try: m except Exception as e: handler e] *)
Definition try_except {A} (m : M A) (handler : exn -> M A) : M A := fun s =>
  match m s with
  | (Returned a, s1, out1) => (Returned a, s1, out1)
  | (Raised e, s1, out1) =>
      let '(r, s2, out2) := handler e s1 in (r, s2, out1 ++ out2)
  end.

Declare Scope py_scope.
Delimit Scope py_scope with py.
Notation "x <- m ;; k" := (bind m (fun x => k))
  (at level 61, m at next level, right associativity) : py_scope.
Notation "m ;; k" := (bind m (fun _ => k))
  (at level 61, right associativity) : py_scope.
Local Open Scope py_scope.

Definition emit (e : Event) : M unit := fun s => (Returned tt, s, [e]).

Definition get_self : M VideoProcessor := fun s => (Returned (self s), s, []).

Definition set_self (f : VideoProcessor -> VideoProcessor) : M unit :=
  fun s => (Returned tt, mkState (f (self s)) (clock s), []).

(** A computation without effect that returns or raises, as [float(s)]. *)
Definition lift {A} (o : outcome A) : M A := fun s => (o, s, []).

(** A call to a collaborator: recorded, then answered by the world. *)
Definition call {A} (c : ExternalCall) (answer : outcome A) : M A :=
  fun s => (answer, s, [external c]).

(** [time.time()] *)
Definition now (w : World) : M Q := fun s =>
  (Returned (time_time w (clock s)), mkState (self s) (S (clock s)), []).

Definition set_start_time (t : option Q) (p : VideoProcessor) : VideoProcessor :=
  mkVideoProcessor (video_path p) (filler_words p) (silence_threshold p) (mode p)
    (clips_to_remove p) (output_path p) t (total_steps p) (current_step p).

Definition set_total_steps (n : Z) (p : VideoProcessor) : VideoProcessor :=
  mkVideoProcessor (video_path p) (filler_words p) (silence_threshold p) (mode p)
    (clips_to_remove p) (output_path p) (start_time p) n (current_step p).

Definition set_current_step (n : Z) (p : VideoProcessor) : VideoProcessor :=
  mkVideoProcessor (video_path p) (filler_words p) (silence_threshold p) (mode p)
    (clips_to_remove p) (output_path p) (start_time p) (total_steps p) n.

Definition set_clips_to_remove (l : list Clip) (p : VideoProcessor) : VideoProcessor :=
  mkVideoProcessor (video_path p) (filler_words p) (silence_threshold p) (mode p)
    l (output_path p) (start_time p) (total_steps p) (current_step p).

(** [for x in xs: body x], the loop variables threaded as [acc]. *)
Fixpoint for_each {A B} (xs : list A) (body : B -> A -> M B) (acc : B) : M B :=
  match xs with
  | [] => ret acc
  | x :: xs' => acc' <- body acc x ;; for_each xs' body acc'
  end.

(** ** [calculate_eta] *)

(** The three formats of lines 169-178, for a remaining time in seconds. *)
Definition format_remaining (remaining_time : Q) : string :=
  if flt_dec remaining_time 60 then
    ("预计剩余 " ++ str_int (py_int remaining_time) ++ " 秒")%string
  else if flt_dec remaining_time 3600 then
    let minutes := py_int (remaining_time / 60) in
    let seconds := py_int (py_mod remaining_time 60) in
    ("预计剩余 " ++ str_int minutes ++ " 分 " ++ str_int seconds ++ " 秒")%string
  else
    let hours := py_int (remaining_time / 3600) in
    let minutes := py_int (py_mod remaining_time 3600 / 60) in
    ("预计剩余 " ++ str_int hours ++ " 小时 " ++ str_int minutes ++ " 分钟")%string.

Definition calculate_eta (w : World) (current_progress : Z) : M string :=
  p <- get_self ;;
  match start_time p with
  | None => ret "计算中..."%string
  | Some started =>
      if (current_progress <=? 0)%Z then ret "计算中..."%string
      else
        t <- now w ;;
        let elapsed_time := t - started in
        if (current_progress >=? 100)%Z then ret "即将完成"%string
        else
          let progress_ratio := inject_Z current_progress / 100 in
          if fgt_dec progress_ratio 0 then
            let estimated_total_time := elapsed_time / progress_ratio in
            let remaining_time := estimated_total_time - elapsed_time in
            ret (format_remaining remaining_time)
          else ret "计算中..."%string
  end.

(** The recurring three lines
    [self.current_step = n; eta = self.calculate_eta(n); self.progress.emit(n, label, eta)]. *)
Definition report (w : World) (n : Z) (label : string) : M unit :=
  set_self (set_current_step n) ;;
  p <- get_self ;;
  eta <- calculate_eta w (current_step p) ;;
  p <- get_self ;;
  emit (progress (current_step p) label eta).

(** ** [analyze] *)

(** The body of the inner loop, lines 119-129; the loop variables are
    [(clips_found, last_word_end)]. *)
Definition scan_word (filler_words : list string) (silence_threshold : Q)
    (st : list Clip * Q) (wd : Word) : list Clip * Q :=
  let '(clips_found, last_word_end) := st in
  let silence_duration := w_start wd - last_word_end in
  let clips_found :=
    if fgt_dec silence_duration silence_threshold
    then clips_found ++ [mkClip SILENCE last_word_end (w_start wd) EmptyString]
    else clips_found in
  let clips_found :=
    if mem (strip (word wd)) filler_words
    then clips_found ++ [mkClip FILLER (w_start wd) (w_end wd) (strip (word wd))]
    else clips_found in
  (clips_found, w_end wd).

(** The clips found in a flat sequence of tokens, from an empty list and
    a cursor at zero. *)
Definition detect (filler_words : list string) (silence_threshold : Q)
    (tokens : list Word) : list Clip :=
  fst (fold_left (scan_word filler_words silence_threshold) tokens ([], 0)).

(** The body of the outer loop, lines 112-129; the loop variables are
    [(clips_found, last_word_end, segments_processed)]. *)
Definition scan_segment (w : World) (total_segments : nat)
    (st : list Clip * Q * nat) (segment : Segment) : M (list Clip * Q * nat) :=
  let '(clips_found, last_word_end, segments_processed) := st in
  let segments_processed := S segments_processed in
  let progress_in_step :=
    if (0 <? total_segments)%nat
    then py_int (40 * (inject_Z (Z.of_nat segments_processed)
                       / inject_Z (Z.of_nat total_segments)))
    else 0%Z in
  report w (30 + progress_in_step)
    ("正在识别无用词和静音片段... (" ++ str_int (Z.of_nat segments_processed)
       ++ "/" ++ str_int (Z.of_nat total_segments) ++ ")")%string ;;
  p <- get_self ;;
  let '(clips_found, last_word_end) :=
    fold_left (scan_word (filler_words p) (silence_threshold p))
      (words segment) (clips_found, last_word_end) in
  ret (clips_found, last_word_end, segments_processed).

(** Lines 78-137.  The [finally] block, which only removes the temporary
    audio file and closes the clip and emits nothing, is left out. *)
Definition analyze (w : World) : M unit :=
  try_except
    (t <- now w ;;
     set_self (set_start_time (Some t)) ;;
     set_self (set_total_steps 100) ;;
     set_self (set_current_step 0) ;;
     report w 10 "正在提取音频..." ;;
     p <- get_self ;;
     call (call_VideoFileClip (video_path p)) (VideoFileClip w (video_path p)) ;;
     let audio_path := "temp_audio.wav"%string in
     call (call_write_audiofile audio_path) (write_audiofile w audio_path) ;;
     report w 30 "正在进行语音转录 (这可能需要一些时间)..." ;;
     call call_get_model (get_model w) ;;
     segments <- call (call_transcribe audio_path) (transcribe w audio_path) ;;
     let total_segments := List.length segments in
     segments <- call (call_transcribe audio_path) (transcribe w audio_path) ;;
     st <- for_each segments (scan_segment w total_segments) ([], 0, 0%nat) ;;
     let '(clips_found, _, _) := st in
     report w 100 "分析完成！" ;;
     emit (finished clips_found))
    (fun e => emit (error ("分析失败: " ++ e)%string)).

(** ** Export: the FFmpeg path *)

(** [self.clips_to_remove.sort(key=lambda c: c.start)], in place. *)
Definition sort_clips_to_remove : M unit :=
  set_self (fun p => set_clips_to_remove (sort_by_start (clips_to_remove p)) p).

(** Lines 333-337: one [between] term per kept interval, joined by [+]. *)
Definition condition_of (w : World) (i : Interval) : string :=
  ("between(t," ++ float_str w (fst i) ++ "," ++ float_str w (snd i) ++ ")")%string.

Definition select_condition_of (w : World) (keep_times : list Interval) : string :=
  String.concat "+" (map (condition_of w) keep_times).

(** Lines 340-343. *)
Definition filter_complex_of (select_condition : string) : string :=
  ("[0:v]select='" ++ select_condition ++ "',setpts=N/FRAME_RATE/TB[v];"
   ++ "[0:a]aselect='" ++ select_condition ++ "',asetpts=N/SR/TB[a]")%string.

(** Lines 299-349. *)
Definition _build_ffmpeg_select_expression (w : World) : M (option string) :=
  try_except
    (p <- get_self ;;
     result <- call (call_ffprobe (video_path p)) (ffprobe w (video_path p)) ;;
     let '(returncode, stdout) := result in
     if negb (returncode =? 0)%Z then ret None
     else
       duration <- lift (float_of_str w (strip stdout)) ;;
       sort_clips_to_remove ;;
       p <- get_self ;;
       let keep_times :=
         close_keep (fold_left keep_step (clips_to_remove p) ([], 0)) duration in
       match keep_times with
       | [] => ret None
       | _ :: _ =>
           ret (Some (filter_complex_of (select_condition_of w keep_times)))
       end)
    (fun e => emit (print ("构建FFmpeg表达式失败: " ++ e)%string) ;; ret None).

(** Lines 351-373. *)
Definition _check_hardware_acceleration (w : World) : M (option string) :=
  try_except
    (encoders <- call call_ffmpeg_encoders (ffmpeg_encoders w) ;;
     if contains "h264_nvenc" encoders then
       emit (print "检测到NVIDIA NVENC硬件加速") ;; ret (Some "h264_nvenc"%string)
     else if contains "h264_amf" encoders then
       emit (print "检测到AMD AMF硬件加速") ;; ret (Some "h264_amf"%string)
     else if contains "h264_qsv" encoders then
       emit (print "检测到Intel QSV硬件加速") ;; ret (Some "h264_qsv"%string)
     else
       emit (print "未检测到硬件加速编码器") ;; ret None)
    (fun e => emit (print ("检查硬件加速时出错: " ++ e)%string) ;; ret None).

(** The software command of lines 224-239. *)
Definition software_cmd (video_path select_expr output_path : string) : list string :=
  ["ffmpeg"; "-i"; video_path; "-filter_complex"; select_expr;
   "-map"; "[v]"; "-map"; "[a]"; "-c:v"; "libx264"; "-c:a"; "aac";
   "-preset"; "slower"; "-crf"; "16"; "-pix_fmt"; "yuv420p";
   "-b:v"; "20000k"; "-x264opts"; "aq-mode=2:aq-strength=1.0";
   "-y"; output_path]%string.

(** The hardware commands of lines 246-279. *)
Definition hardware_cmd (video_path select_expr output_path hardware_encoder : string)
  : list string :=
  if String.eqb hardware_encoder "h264_nvenc" then
    ["ffmpeg"; "-i"; video_path; "-filter_complex"; select_expr;
     "-map"; "[v]"; "-map"; "[a]"; "-c:v"; hardware_encoder; "-c:a"; "aac";
     "-preset"; "medium"; "-crf"; "16"; "-pix_fmt"; "yuv420p";
     "-b:v"; "20000k"; "-y"; output_path]%string
  else
    ["ffmpeg"; "-i"; video_path; "-filter_complex"; select_expr;
     "-map"; "[v]"; "-map"; "[a]"; "-c:v"; hardware_encoder; "-c:a"; "aac";
     "-preset"; "slow"; "-crf"; "16"; "-pix_fmt"; "yuv420p";
     "-b:v"; "20000k"; "-y"; output_path]%string.

(** Truth value of a string: empty is false. *)
Definition truthy (s : string) : bool :=
  match s with EmptyString => false | String _ _ => true end.

(** Lines 241-280: the command that is run, and the status emitted. *)
Definition choose_cmd (w : World) (select_expr : string) : M (list string) :=
  p <- get_self ;;
  let cmd := software_cmd (video_path p) select_expr (output_path p) in
  hardware_encoder <- _check_hardware_acceleration w ;;
  match hardware_encoder with
  | Some enc =>
      if truthy enc then
        emit (status ("使用硬件加速编码: " ++ enc ++ "...")%string) ;;
        ret (hardware_cmd (video_path p) select_expr (output_path p) enc)
      else ret cmd
  | None => ret cmd
  end.

(** Lines 205-297. *)
Definition _try_ffmpeg_export (w : World) : M bool :=
  try_except
    (sort_clips_to_remove ;;
     select_expr <- _build_ffmpeg_select_expression w ;;
     match select_expr with
     | None => ret false
     | Some select_expr =>
         if negb (truthy select_expr) then ret false
         else
           report w 20 "正在使用FFmpeg处理视频..." ;;
           cmd <- choose_cmd w select_expr ;;
           result <- call (call_ffmpeg cmd) (ffmpeg w cmd) ;;
           let '(returncode, stderr) := result in
           if (returncode =? 0)%Z then
             report w 90 "FFmpeg处理完成！" ;; ret true
           else
             emit (print ("FFmpeg错误: " ++ stderr)%string) ;; ret false
     end)
    (fun e => emit (print ("FFmpeg处理异常: " ++ e)%string) ;; ret false).

(** ** Export: the MoviePy path *)

(** The body of the loop of lines 415-428; the loop variables are
    [(i, final_clips)]. *)
Definition extract_clip (w : World) (total_clips : nat)
    (st : nat * list Interval) (keep : Interval) : M (nat * list Interval) :=
  let '(i, final_clips) := st in
  let '(t_start, t_end) := keep in
  let progress_val :=
    py_int (30 + (inject_Z (Z.of_nat i) / inject_Z (Z.of_nat total_clips)) * 60) in
  report w progress_val
    ("正在处理片段 " ++ str_int (Z.of_nat i + 1) ++ "/"
       ++ str_int (Z.of_nat total_clips) ++ "...")%string ;;
  call (call_subclip t_start t_end) (subclip w t_start t_end) ;;
  ret (S i, final_clips ++ [keep]).

(** Lines 375-455. *)
Definition _moviepy_export (w : World) : M unit :=
  try_except
    (cuda <- call call_torch (torch_cuda_is_available w) ;;
     (if cuda : bool then emit (status "检测到CUDA，使用GPU加速视频处理...")
      else ret tt) ;;
     p <- get_self ;;
     duration <- call (call_VideoFileClip (video_path p))
                   (VideoFileClip w (video_path p)) ;;
     sort_clips_to_remove ;;
     p <- get_self ;;
     let clips_to_keep_times :=
       close_keep (fold_left keep_step_moviepy (clips_to_remove p) ([], 0))
         duration in
     match clips_to_keep_times with
     | [] => emit (error "没有可保留的视频片段，请检查您的选择。")
     | _ :: _ =>
         report w 30 "正在优化视频处理流程..." ;;
         let total_clips := List.length clips_to_keep_times in
         st <- for_each clips_to_keep_times (extract_clip w total_clips)
                 (0%nat, []) ;;
         let '(_, final_clips) := st in
         report w 95 "正在拼接视频..." ;;
         call (call_write_videofile final_clips (output_path p))
           (write_videofile w final_clips (output_path p)) ;;
         report w 100 "导出完成！"
     end)
    (fun e => raise e).

(** ** [export] and [run] *)

(** Lines 182-188. *)
Definition export_prologue (w : World) : M unit :=
  t <- now w ;;
  set_self (set_start_time (Some t)) ;;
  set_self (set_total_steps 100) ;;
  set_self (set_current_step 0) ;;
  report w 5 "正在准备剪辑...".

(** Lines 198-200. *)
Definition fallback (w : World) : M unit :=
  emit (status "FFmpeg处理失败，使用备用方法...") ;;
  _moviepy_export w.

(** Line 203. *)
Definition export_failed (e : exn) : M unit :=
  emit (error ("导出视频失败: " ++ e)%string).

(** Lines 180-203. *)
Definition export (w : World) : M unit :=
  try_except
    (export_prologue w ;;
     ok <- _try_ffmpeg_export w ;;
     if ok : bool then
       report w 100 "导出完成！" ;;
       p <- get_self ;;
       emit (finished_export (output_path p))
     else
       fallback w)
    export_failed.

(** Lines 69-76. *)
Definition run (w : World) : M unit :=
  try_except
    (p <- get_self ;;
     match mode p with
     | mode_analyze => analyze w
     | mode_export => export w
     end)
    (fun e => emit (error ("发生未预料的错误: " ++ e)%string)).

(** A processor as [__init__] leaves it, with the attributes that the
    window sets before an export. *)
Definition new_processor (video_path : string) (filler_words : list string)
    (silence_threshold : Q) : VideoProcessor :=
  mkVideoProcessor video_path filler_words silence_threshold mode_analyze
    [] EmptyString None 0 0.

Definition initial (p : VideoProcessor) : State := mkState p 0.

(** The events of a whole run, in order. *)
Definition events_of {A} (m : M A) (s : State) : list Event := snd (m s).

Definition result_of {A} (m : M A) (s : State) : outcome A := fst (fst (m s)).

Definition state_after {A} (m : M A) (s : State) : State := snd (fst (m s)).

(** Proof devices for the clip detector: the cursor after a sequence of
    tokens, and the condition under which a token triggers nothing. *)
Definition cursor_after (filler_words : list string) (silence_threshold : Q)
    (tokens : list Word) (last_word_end : Q) : Q :=
  snd (fold_left (scan_word filler_words silence_threshold) tokens
         ([], last_word_end)).

Fixpoint quiet (filler_words : list string) (silence_threshold : Q)
    (tokens : list Word) (last_word_end : Q) : Prop :=
  match tokens with
  | [] => True
  | t :: ts =>
      w_start t - last_word_end <= silence_threshold /\
      mem (strip (word t)) filler_words = false /\
      quiet filler_words silence_threshold ts (w_end t)
  end.

(** The end of the last token, or the initial cursor when there is none. *)
Definition last_token_end (tokens : list Word) (last_word_end : Q) : Q :=
  match rev tokens with
  | [] => last_word_end
  | t :: _ => w_end t
  end.

Definition is_silence (c : Clip) : Prop := type c = SILENCE.

(** Sample clips. *)
Definition removal (t_start t_end : Q) : Clip := mkClip SILENCE t_start t_end EmptyString.

(** Instants removed by a clip, and instants kept by an interval, both
    read as half-open. *)
Definition removed (clips : list Clip) (t : Q) : Prop :=
  exists c, In c clips /\ start c <= t /\ t < end_ c.

Definition kept (keep_times : list Interval) (t : Q) : Prop :=
  exists i, In i keep_times /\ covers i t.

Definition closing (last_end duration : Q) : list Interval :=
  if flt_dec last_end duration then [(last_end, duration)] else [].


(** The loop of [keep_step_moviepy] read as a recursion. *)
Fixpoint gaps_moviepy (clips : list Clip) (last_end : Q) : list Interval :=
  match clips with
  | [] => []
  | c :: cs =>
      (if fgt_dec (start c) last_end then [(last_end, start c)] else [])
      ++ gaps_moviepy cs (end_ c)
  end.

Fixpoint final_end_moviepy (clips : list Clip) (last_end : Q) : Q :=
  match clips with
  | [] => last_end
  | c :: cs => final_end_moviepy cs (end_ c)
  end.

Definition end_le (a b : Clip) : Prop := end_ a <= end_ b.


(** ** Sample collaborators, for concrete runs *)

(** A stand-in for the text of a float: numerator, slash, denominator. *)
Definition sample_float_str (q : Q) : string :=
  (str_int (Qnum q) ++ "/" ++ str_int (Zpos (Qden q)))%string.

(** A world whose clock advances by ninety seconds at each reading, whose
    video lasts [duration] seconds, and whose encoder probe and encoder
    run answer as given. *)
Definition sample_world (duration : Q) (encoders : outcome string)
    (encoder_run : outcome (Z * string)) : World :=
  mkWorld
    (fun n => 90 * inject_Z (Z.of_nat n))
    sample_float_str
    (fun _ => Returned duration)
    (fun _ => Returned (0%Z, "6.000000"%string))
    encoders
    (fun _ => encoder_run)
    (Returned false)
    (fun _ => Returned duration)
    (fun _ => Returned tt)
    (Returned tt)
    (fun _ => Returned [])
    (fun _ _ => Returned tt)
    (fun _ _ => Returned tt).

(** A processor prepared for an export, as [generate_video] does. *)
Definition export_processor (clips : list Clip) : VideoProcessor :=
  mkVideoProcessor "in.mp4" [] (1 # 2) mode_export clips "in_final.mp4" None 0 0.

(** A state in the middle of a run that started at time zero. *)
Definition running_state (clips : list Clip) : State :=
  mkState (set_start_time (Some 0) (export_processor clips)) 1.

(** The remaining time that [calculate_eta] estimates at progress [n]. *)
Definition remaining_at (w : World) (s : State) (started : Q) (n : Z) : Q :=
  let elapsed_time := time_time w (clock s) - started in
  elapsed_time / (inject_Z n / 100) - elapsed_time.

(** ** Reading the export plan *)

(** The encoder of a command is the argument after ["-c:v"], which every
    command built above has at index 9. *)
Definition video_encoder_of (cmd : list string) : option string :=
  match nth_error cmd 9 with
  | Some flag => if String.eqb flag "-c:v" then nth_error cmd 10 else None
  | None => None
  end.

(** An encoder is available when the probe returns and lists it. *)
Definition available (w : World) (name : string) : Prop :=
  exists encoders,
    ffmpeg_encoders w = Returned encoders /\ contains name encoders = true.

(** The two chains of the filter graph. *)
Definition video_chain (predicate : string) : string :=
  ("[0:v]select='" ++ predicate ++ "',setpts=N/FRAME_RATE/TB[v]")%string.

Definition audio_chain (predicate : string) : string :=
  ("[0:a]aselect='" ++ predicate ++ "',asetpts=N/SR/TB[a]")%string.

(** The fragment of FFmpeg's expression language that the code writes.
    The evaluator is FFmpeg's, not this repository's: [between(x,min,max)]
    is 1 when [min <= x <= max] and 0 otherwise, [+] adds, and [select]
    keeps a frame when the value is not zero. *)
Inductive Expr : Type :=
| between_t (lo hi : Q)
| plus (a b : Expr).

Fixpoint render (w : World) (e : Expr) : string :=
  match e with
  | between_t lo hi => condition_of w (lo, hi)
  | plus a b => (render w a ++ "+" ++ render w b)%string
  end.

Fixpoint eval (e : Expr) (t : Q) : Q :=
  match e with
  | between_t lo hi =>
      if flt_dec t lo then 0 else if flt_dec hi t then 0 else 1
  | plus a b => eval a t + eval b t
  end.

Definition selects (e : Expr) (t : Q) : Prop := ~ eval e t == 0.

(** [c1+c2+...+cn], read from the left as FFmpeg does. *)
Definition disjunction (first : Interval) (rest : list Interval) : Expr :=
  fold_left (fun e i => plus e (between_t (fst i) (snd i))) rest
    (between_t (fst first) (snd first)).

(** Membership in an interval closed on both sides. *)
Definition in_closed (i : Interval) (t : Q) : Prop := fst i <= t /\ t <= snd i.

(** ** Reading a run *)

(** The percent values of the progress events, in order. *)
Definition percent_of (e : Event) : list Z :=
  match e with
  | progress step _ _ => [step]
  | _ => []
  end.

Definition percents (out : list Event) : list Z := flat_map percent_of out.

(** Every event that [m] emits satisfies [P], from every state. *)
Definition emits_only {A} (P : Event -> Prop) (m : M A) : Prop :=
  forall s, Forall P (snd (m s)).

Definition no_progress (e : Event) : Prop := percent_of e = [].

Definition no_error (e : Event) : Prop :=
  match e with error _ => False | _ => True end.

(** [m] always returns, whatever the state. *)
Definition returns {A} (m : M A) : Prop :=
  forall s, exists a, fst (fst (m s)) = Returned a.

(** The percents that [m] emits are in order, start at [lo] or above,
    and end at or below a bound [hi] that depends on how [m] ends. *)
Definition paced {A} (lo : Z) (hi : outcome A -> Z) (m : M A) : Prop :=
  forall s,
    let '(r, _, out) := m s in
    StronglySorted Z.le (percents out) /\
    Forall (fun n => (lo <= n <= hi r)%Z) (percents out) /\
    (lo <= hi r)%Z.

(** Progress of the [i]-th kept interval out of [total], line 416. *)
Definition clip_progress (total i : nat) : Z :=
  py_int (30 + (inject_Z (Z.of_nat i) / inject_Z (Z.of_nat total)) * 60).

(** Progress after [k] segments out of [total], lines 114-115. *)
Definition segment_progress (total k : nat) : Z :=
  (30 + if (0 <? total)%nat
        then py_int (40 * (inject_Z (Z.of_nat k) / inject_Z (Z.of_nat total)))
        else 0)%Z.

(** The last percent that [_try_ffmpeg_export] can have emitted, by the
    way it ended. *)
Definition primary_bound (r : outcome bool) : Z :=
  match r with Returned true => 90%Z | _ => 20%Z end.

(** ** Reading the export run *)

(** The state after [sort_clips_to_remove]. *)
Definition sorted_state (s : State) : State :=
  mkState (set_clips_to_remove (sort_by_start (clips_to_remove (self s))) (self s))
    (clock s).

(** The object after the prologue of [export]. *)
Definition prepared (w : World) (s : State) : VideoProcessor :=
  set_current_step 5
    (set_current_step 0
       (set_total_steps 100
          (set_start_time (Some (time_time w (clock s))) (self s)))).

(** The texts of the fallback, of the empty keep list and of CUDA. *)
Definition fallback_notice : string := "FFmpeg处理失败，使用备用方法...".

Definition no_keep_notice : string := "没有可保留的视频片段，请检查您的选择。".

Definition cuda_notice : string := "检测到CUDA，使用GPU加速视频处理...".

(** [x] is the last event of [l]. *)
Definition ends_with (x : Event) (l : list Event) : Prop :=
  exists before_it, l = before_it ++ [x].


(** ** Terminal signals *)

(** The signals that end a run for the window: [finished],
    [finished_export] and [error]. *)
Definition no_terminal (e : Event) : Prop :=
  match e with
  | finished _ | finished_export _ | error _ => False
  | _ => True
  end.

(** At most the last event is a terminal signal. *)
Definition tidy (out : list Event) : Prop :=
  exists pre last,
    out = pre ++ last /\ Forall no_terminal pre /\ (List.length last <= 1)%nat.

(** [m] emits at most one terminal signal, as its last event, and none
    when it raises. *)
Definition closes {A} (m : M A) : Prop :=
  forall s,
    let '(r, _, out) := m s in
    tidy out /\ (forall e, r = Raised e -> Forall no_terminal out).

(** When [m] returns, its last event is a terminal signal that satisfies
    [P], the only one; when it raises it has emitted none. *)
Definition concludes {A} (P : Event -> Prop) (m : M A) : Prop :=
  forall s,
    let '(r, _, out) := m s in
    match r with
    | Returned _ =>
        exists pre t, out = pre ++ [t] /\ Forall no_terminal pre /\ P t
    | Raised _ => Forall no_terminal out
    end.

Definition is_finished (e : Event) : Prop := exists clips, e = finished clips.

Definition is_analysis_error (e : Event) : Prop :=
  exists text, e = error ("分析失败: " ++ text)%string.

(** From an object with [P], [m] ends with an object with [Q], whether
    it returns or raises. *)
Definition leads {A} (P Q : VideoProcessor -> Prop) (m : M A) : Prop :=
  forall s, P (self s) -> Q (self (snd (fst (m s)))).

(** [m] keeps the property [I] of the object. *)
Definition keeps {A} (I : VideoProcessor -> Prop) (m : M A) : Prop :=
  leads I I m.

(** The object [p] is [p0] with its clips to remove replaced by [clips]
    and with any progress fields. *)
Definition same_but_clips (p0 : VideoProcessor) (clips : list Clip)
    (p : VideoProcessor) : Prop :=
  video_path p = video_path p0 /\
  filler_words p = filler_words p0 /\
  silence_threshold p = silence_threshold p0 /\
  mode p = mode p0 /\
  output_path p = output_path p0 /\
  clips_to_remove p = clips.

(** [I] does not look at the progress fields of the object. *)
Definition blind_to_progress (I : VideoProcessor -> Prop) : Prop :=
  forall p,
    I p ->
    (forall n, I (set_current_step n p)) /\
    (forall n, I (set_total_steps n p)) /\
    (forall t, I (set_start_time t p)).

(** No call to MoviePy or to [torch]: the calls of the fallback. *)
Definition no_fallback_call (e : Event) : Prop :=
  match e with
  | external call_torch
  | external (call_VideoFileClip _)
  | external (call_subclip _ _)
  | external (call_write_videofile _ _) => False
  | _ => True
  end.

Definition no_finished_export (e : Event) : Prop :=
  match e with finished_export _ => False | _ => True end.

(** The calls to collaborators among the events, in order. *)
Definition call_of (e : Event) : list ExternalCall :=
  match e with
  | external c => [c]
  | _ => []
  end.

Definition externals (out : list Event) : list ExternalCall :=
  flat_map call_of out.

Definition subclip_call (i : Interval) : ExternalCall :=
  call_subclip (fst i) (snd i).

(** The world [w] with another answer of [subclip]. *)
Definition with_subclip (f : Q -> Q -> outcome unit) (w : World) : World :=
  mkWorld (time_time w) (float_str w) (float_of_str w) (ffprobe w)
    (ffmpeg_encoders w) (ffmpeg w) (torch_cuda_is_available w)
    (VideoFileClip w) (write_audiofile w) (get_model w) (transcribe w)
    f (write_videofile w).

(** A world without FFmpeg, for runs of the fallback. *)
Definition moviepy_world : World :=
  sample_world 6 (Raised "no ffmpeg"%string) (Raised "no ffmpeg"%string).

(** The same world, where the extraction that starts at 3 fails. *)
Definition broken_world : World :=
  with_subclip
    (fun t_start _ =>
       if Qeq_bool t_start 3 then Raised "read error"%string else Returned tt)
    moviepy_world.

(** * The window: [src/main_window.py]

    The part of [MainWindow] that holds the clips found by a detection
    run, shows them page by page with one checkbox per row, and builds
    the processor of an export run from the rows that are ticked. *)

Module Window.

(** [l[i]]: a negative index counts from the end; out of range it raises
    [IndexError]. *)
Definition getitem {A} (l : list A) (i : Z) : outcome A :=
  let n := Z.of_nat (List.length l) in
  let j := if (i <? 0)%Z then (n + i)%Z else i in
  if ((0 <=? j) && (j <? n))%Z then
    match nth_error l (Z.to_nat j) with
    | Some a => Returned a
    | None => Raised "list index out of range"%string
    end
  else Raised "list index out of range"%string.

(** A bound of a slice: negative bounds count from the end, and both are
    clipped to the list. *)
Definition slice_bound (n i : Z) : Z :=
  if (i <? 0)%Z then Z.max 0 (n + i) else Z.min i n.

(** [l[a:b]] *)
Definition slice {A} (l : list A) (a b : Z) : list A :=
  let n := Z.of_nat (List.length l) in
  let a := slice_bound n a in
  let b := slice_bound n b in
  firstn (Z.to_nat (b - a)) (skipn (Z.to_nat a) l).

(** A row of [clip_table]: its checkbox and the clip whose type, content
    and times fill its cells. *)
Record Row : Type := mkRow {
  checked : bool;
  shown : Clip
}.

(** The attributes of [MainWindow] that the list of clips uses;
    [page_size_spin] is the value of the spin box. *)
Record MainWindow : Type := mkMainWindow {
  video_path : string;
  clips : list Clip;
  current_page : Z;
  page_size : Z;
  total_pages : Z;
  page_size_spin : Z;
  clip_table : list Row
}.

(** [__init__] and [setup_ui], lines 22-23 and 203-221. *)
Definition new_window : MainWindow :=
  mkMainWindow EmptyString [] 1 100 1 100 [].

Definition set_current_page (n : Z) (mw : MainWindow) : MainWindow :=
  mkMainWindow (video_path mw) (clips mw) n (page_size mw) (total_pages mw)
    (page_size_spin mw) (clip_table mw).

Definition set_clips (l : list Clip) (mw : MainWindow) : MainWindow :=
  mkMainWindow (video_path mw) l (current_page mw) (page_size mw)
    (total_pages mw) (page_size_spin mw) (clip_table mw).

Definition set_video_path (path : string) (mw : MainWindow) : MainWindow :=
  mkMainWindow path (clips mw) (current_page mw) (page_size mw)
    (total_pages mw) (page_size_spin mw) (clip_table mw).

(** The user ticks and unticks rows: row [i] gets the state [checks[i]];
    the rows beyond [checks] stay as they are. *)
Fixpoint tick_rows (checks : list bool) (rows : list Row) : list Row :=
  match checks, rows with
  | b :: checks, r :: rows => mkRow b (shown r) :: tick_rows checks rows
  | _, _ => rows
  end.

(** Lines 342-378: the page is computed and the table filled with the
    clips of the page, every row ticked.  [//] raises on a zero page
    size. *)
Definition populate_clip_list (mw : MainWindow) : outcome MainWindow :=
  let page_size := page_size_spin mw in
  if (page_size =? 0)%Z then Raised "integer division or modulo by zero"%string
  else
    let n := Z.of_nat (List.length (clips mw)) in
    let total_pages := Z.max 1 ((n + page_size - 1) / page_size) in
    let current_page := Z.min (current_page mw) total_pages in
    let start_idx := ((current_page - 1) * page_size)%Z in
    let end_idx := Z.min (start_idx + page_size) n in
    let current_page_clips := slice (clips mw) start_idx end_idx in
    Returned (mkMainWindow (video_path mw) (clips mw) current_page page_size
                total_pages (page_size_spin mw)
                (map (mkRow true) current_page_clips)).

(** Lines 386-390. *)
Definition prev_page (mw : MainWindow) : outcome MainWindow :=
  if (current_page mw >? 1)%Z
  then populate_clip_list (set_current_page (current_page mw - 1) mw)
  else Returned mw.

(** Lines 392-396. *)
Definition next_page (mw : MainWindow) : outcome MainWindow :=
  if (current_page mw <? total_pages mw)%Z
  then populate_clip_list (set_current_page (current_page mw + 1) mw)
  else Returned mw.

(** Lines 398-401. *)
Definition update_pagination (mw : MainWindow) : outcome MainWindow :=
  populate_clip_list (set_current_page 1 mw).

(** Lines 325-333, the part that touches the clips. *)
Definition on_analysis_finished (found : list Clip) (mw : MainWindow)
  : outcome MainWindow :=
  populate_clip_list (set_clips found mw).

(** Lines 406-408 of [on_clip_selected]: the clip whose start the player
    jumps to, if any. *)
Definition on_clip_selected (row : Z) (mw : MainWindow) : outcome (option Clip) :=
  let actual_idx := ((current_page mw - 1) * page_size mw + row)%Z in
  if (actual_idx <? Z.of_nat (List.length (clips mw)))%Z then
    match getitem (clips mw) actual_idx with
    | Returned c => Returned (Some c)
    | Raised e => Raised e
    end
  else Returned None.

(** The loop of [generate_video], lines 476-479, from row [i] on: the
    clip appended for a ticked row is [self.clips[i]]. *)
Fixpoint generate_selection (all : list Clip) (rows : list Row) (i : Z)
  : outcome (list Clip) :=
  match rows with
  | [] => Returned []
  | r :: rows =>
      if checked r then
        match getitem all i with
        | Raised e => Raised e
        | Returned c =>
            match generate_selection all rows (i + 1) with
            | Returned l => Returned (c :: l)
            | Raised e => Raised e
            end
        end
      else generate_selection all rows (i + 1)
  end.

(** The loop of [preview_clips], lines 528-534, from row [i] on: the
    index of the clip is shifted by the pages before the current one. *)
Fixpoint preview_selection (all : list Clip) (current_page page_size : Z)
    (rows : list Row) (i : Z) : outcome (list Clip) :=
  match rows with
  | [] => Returned []
  | r :: rows =>
      let rest := preview_selection all current_page page_size rows (i + 1) in
      if checked r then
        let actual_idx := ((current_page - 1) * page_size + i)%Z in
        if (actual_idx <? Z.of_nat (List.length all))%Z then
          match getitem all actual_idx with
          | Raised e => Raised e
          | Returned c =>
              match rest with
              | Returned l => Returned (c :: l)
              | Raised e => Raised e
              end
          end
        else rest
      else rest
  end.

(** The separators of a path: [os.sep] and [os.altsep]. *)
Inductive Platform : Type := posix | nt.

Definition is_sep (pf : Platform) (c : ascii) : bool :=
  match pf with
  | posix => Ascii.eqb c "/"
  | nt => Ascii.eqb c (ascii_of_nat 92) || Ascii.eqb c "/"
  end.

Definition is_dot (c : ascii) : bool := Ascii.eqb c ".".

(** [p.rfind(c)] for the characters accepted by [f], the first character
    of [p] having the index [i]; [-1] when there is none. *)
Fixpoint rfind (f : ascii -> bool) (p : string) (i : Z) : Z :=
  match p with
  | EmptyString => (-1)%Z
  | String c p' =>
      let r := rfind f p' (i + 1) in
      if (0 <=? r)%Z then r else if f c then i else (-1)%Z
  end.

(** The loop of [genericpath._splitext] that skips the leading dots of
    the file name: is there a character other than a dot among the
    first [n] characters of [name]? *)
Fixpoint has_stem (name : string) (n : nat) : bool :=
  match n, name with
  | S n, String c name => if is_dot c then has_stem name n else true
  | _, _ => false
  end.

(** [os.path.splitext].  A path is read as its UTF-8 bytes; dots and
    separators are ASCII, so the split falls where it does in the text. *)
Definition splitext (pf : Platform) (p : string) : string * string :=
  let sepIndex := rfind (is_sep pf) p 0 in
  let dotIndex := rfind is_dot p 0 in
  if (dotIndex >? sepIndex)%Z then
    let filenameIndex := (sepIndex + 1)%Z in
    let name :=
      String.substring (Z.to_nat filenameIndex)
        (String.length p - Z.to_nat filenameIndex) p in
    if has_stem name (Z.to_nat (dotIndex - filenameIndex)) then
      (String.substring 0 (Z.to_nat dotIndex) p,
       String.substring (Z.to_nat dotIndex)
         (String.length p - Z.to_nat dotIndex) p)
    else (p, EmptyString)
  else (p, EmptyString).

(** [generate_video], lines 471-502: the processor that is started, or
    nothing when the function returns before. *)
Definition generate_video (pf : Platform) (mw : MainWindow)
  : outcome (option VideoProcessor) :=
  if String.eqb (video_path mw) EmptyString then Returned None
  else
    match clips mw with
    | [] => Returned None
    | _ :: _ =>
        match generate_selection (clips mw) (clip_table mw) 0 with
        | Raised e => Raised e
        | Returned [] => Returned None
        | Returned clips_to_remove =>
            let '(path, ext) := splitext pf (video_path mw) in
            let output_path := (path ++ "_final" ++ ext)%string in
            Returned
              (Some (mkVideoProcessor (video_path mw) [] (1 # 2) mode_export
                       clips_to_remove output_path None 0 0))
        end
    end.

(** [calculate_keep_clips], lines 556-579, for a media of [duration]
    seconds: the statements are those of lines 314-327 of
    [processing.py]. *)
Definition calculate_keep_clips (clips_to_remove : list Clip) (duration : Q)
  : list Interval :=
  keep_times_of clips_to_remove duration.

(** [preview_clips], lines 521-545: the intervals to play, or nothing
    when the function returns before. *)
Definition preview_clips (duration : Q) (mw : MainWindow)
  : outcome (option (list Interval)) :=
  if String.eqb (video_path mw) EmptyString then Returned None
  else
    match clips mw with
    | [] => Returned None
    | _ :: _ =>
        match preview_selection (clips mw) (current_page mw) (page_size mw)
                (clip_table mw) 0 with
        | Raised e => Raised e
        | Returned [] => Returned None
        | Returned clips_to_remove =>
            match calculate_keep_clips clips_to_remove duration with
            | [] => Returned None
            | keep => Returned (Some keep)
            end
        end
    end.

(** [str.split(',')] *)
Fixpoint split_commas (s : string) : list string :=
  match s with
  | EmptyString => [EmptyString]
  | String c s' =>
      if Ascii.eqb c ","
      then EmptyString :: split_commas s'
      else
        match split_commas s' with
        | first :: rest => String c first :: rest
        | [] => [String c EmptyString]
        end
  end.

Definition nonempty (s : string) : bool :=
  match s with EmptyString => false | String _ _ => true end.

(** Lines 302 and 663:
    [[word.strip() for word in text.split(',') if word.strip()]] *)
Definition parse_filler_words (text : string) : list string :=
  map strip (filter (fun word => nonempty (strip word)) (split_commas text)).

(** [", ".join(words)], line 139. *)
Fixpoint join_words (words : list string) : string :=
  match words with
  | [] => EmptyString
  | [w] => w
  | w :: ws => (w ++ ", " ++ join_words ws)%string
  end.

(** The clips of the rows that are ticked. *)
Definition ticked (rows : list Row) : list Clip :=
  map shown (filter checked rows).

(** The clips at the numbers of the rows that are ticked, counted in
    the whole list. *)
Definition by_row_number (rows : list Row) (all : list Clip) : list Clip :=
  map snd (filter fst (combine (map checked rows) all)).

(** The window shows a page: the state in which [populate_clip_list]
    leaves the page fields and the clips of the rows. *)
Definition shows_page (mw : MainWindow) : Prop :=
  (0 < page_size mw)%Z /\
  (1 <= current_page mw <= total_pages mw)%Z /\
  total_pages mw
  = Z.max 1 ((Z.of_nat (List.length (clips mw)) + page_size mw - 1) / page_size mw) /\
  map shown (clip_table mw)
  = slice (clips mw) ((current_page mw - 1) * page_size mw)
      (Z.min ((current_page mw - 1) * page_size mw + page_size mw)
         (Z.of_nat (List.length (clips mw)))).

End Window.

(** Tokens in time order after [last_word_end]: each starts no earlier
    than the one before it ends, and ends no earlier than it starts. *)
Fixpoint in_time_order (tokens : list Word) (last_word_end : Q) : Prop :=
  match tokens with
  | [] => True
  | t :: ts =>
      last_word_end <= w_start t /\ w_start t <= w_end t /\
      in_time_order ts (w_end t)
  end.

Definition clip_before (a b : Clip) : Prop := end_ a <= start b.

Definition forward (c : Clip) : Prop := 0 <= start c /\ start c <= end_ c.

(** The clips found so far lie before the cursor. *)
Definition found_before (found : list Clip) (last_word_end : Q) : Prop :=
  StronglySorted clip_before found /\
  Forall forward found /\
  Forall (fun c => end_ c <= last_word_end) found.

(** The characters of [s] that [f] accepts: none. *)
Fixpoint free_of (f : ascii -> bool) (s : string) : Prop :=
  match s with
  | EmptyString => True
  | String c s' => f c = false /\ free_of f s'
  end.

Definition is_comma (c : ascii) : bool := Ascii.eqb c ",".

(** A word that the text field gives back as it is: not empty, without
    blanks around it and without a comma. *)
Definition clean (word : string) : Prop :=
  word <> EmptyString /\ strip word = word /\ free_of is_comma word.

(** Twelve clips, one every second, and the second page of them when a
    page has ten rows: the last row is not ticked. *)
Definition twelve_clips : list Clip :=
  map (fun k => removal (inject_Z (Z.of_nat k)) (inject_Z (Z.of_nat k) + (1 # 2)))
    (seq 0 12).

Definition second_page : Window.MainWindow :=
  Window.mkMainWindow "talk.mp4" twelve_clips 2 10 2 10
    (Window.tick_rows [true; false]
       (map (Window.mkRow true) (skipn 10 twelve_clips))).

(** A string that does not begin with a blank. *)
Definition trimmed_left (s : string) : Prop :=
  match s with
  | EmptyString => True
  | String c _ => is_space c = false
  end.

(** The command reads [input], applies the filter graph [filter] to it,
    maps its two outputs, and writes [output] over any file of that
    name. *)
Definition runs_on (cmd : list string) (input filter output : string) : Prop :=
  exists options : list string,
    cmd = ["ffmpeg"%string; "-i"%string; input; "-filter_complex"%string; filter;
           "-map"%string; "[v]"%string; "-map"%string; "[a]"%string]
            ++ options ++ ["-y"%string; output].

Definition no_call (e : Event) : Prop := call_of e = [].

(** The primary attempt gets no filter expression: [ffprobe] raises or
    exits with another code than 0, its output is not a number, or no
    interval is kept. *)
Definition no_expression (w : World) (s : State) : Prop :=
  match ffprobe w (video_path (self s)) with
  | Raised _ => True
  | Returned (returncode, stdout) =>
      returncode <> 0%Z \/
      match float_of_str w (strip stdout) with
      | Raised _ => True
      | Returned duration => keep_times_of (clips_to_remove (self s)) duration = []
      end
  end.

(** The world [w] where the transcription answers [segments]. *)
Definition with_transcript (segments : list Segment) (w : World) : World :=
  mkWorld (time_time w) (float_str w) (float_of_str w) (ffprobe w)
    (ffmpeg_encoders w) (ffmpeg w) (torch_cuda_is_available w)
    (VideoFileClip w) (write_audiofile w) (get_model w)
    (fun _ => Returned segments) (subclip w) (write_videofile w).

(** A talk of two segments with one pause and one filler word. *)
Definition talk_world : World :=
  with_transcript
    [mkSegment [mkWord " a" 0 1; mkWord " 嗯" 2 3]; mkSegment [mkWord " b" 3 4]]
    moviepy_world.

(** ** The statistics of the window: [update_statistics] *)

Module Statistics.

(** [clip.type == t] *)
Definition has_type (t : ClipType) (c : Clip) : bool :=
  match type c, t with
  | FILLER, FILLER | SILENCE, SILENCE => true
  | _, _ => false
  end.

(** [sum(clip.end - clip.start for clip in clips)]: from 0, from left
    to right. *)
Definition sum_lengths (clips : list Clip) : Q :=
  fold_left (fun acc clip => acc + (end_ clip - start clip)) clips 0.

(** The numbers that the label shows. *)
Record Numbers : Type := mkNumbers {
  total_remove_duration : Q;
  filler_duration : Q;
  silence_duration : Q;
  keep_duration : Q;
  remove_percentage : Q;
  keep_percentage : Q;
  filler_count : nat;
  silence_count : nat;
  clip_count : nat
}.

(** Lines 676-726 for a media of [total_duration] seconds: the numbers
    computed, or nothing when there is no clip or no video. *)
Definition update_statistics (mw : Window.MainWindow) (total_duration : Q)
  : option Numbers :=
  match Window.clips mw with
  | [] => None
  | _ :: _ =>
      if String.eqb (Window.video_path mw) EmptyString then None
      else
        let filler_clips := filter (has_type FILLER) (Window.clips mw) in
        let silence_clips := filter (has_type SILENCE) (Window.clips mw) in
        let total_remove_duration := sum_lengths (Window.clips mw) in
        let filler_duration := sum_lengths filler_clips in
        let silence_duration := sum_lengths silence_clips in
        let keep_duration := total_duration - total_remove_duration in
        let remove_percentage :=
          if fgt_dec total_duration 0
          then total_remove_duration / total_duration * 100
          else 0 in
        let keep_percentage := 100 - remove_percentage in
        Some (mkNumbers total_remove_duration filler_duration silence_duration
                keep_duration remove_percentage keep_percentage
                (List.length filler_clips) (List.length silence_clips)
                (List.length (Window.clips mw)))
  end.

End Statistics.

(** ** [class WhisperModelManager], lines 9-37 *)

Module WhisperModelManager.

(** The arguments that a [WhisperModel] was built with. *)
Record Model : Type := mkModel {
  model_size : string;
  device : string;
  compute_type : string
}.

(** What [torch.cuda.is_available()] and the constructor of
    [WhisperModel] answer. *)
Record Loader : Type := mkLoader {
  cuda_is_available : outcome bool;
  WhisperModel : string -> string -> string -> outcome unit
}.

(** The attribute [_model] of the only instance. *)
Definition Manager : Type := option Model.

Inductive Effect : Type :=
| asked_torch
| built (model : Model)
| printed (text : string).

(** Lines 19-28. *)
Definition get_model (ld : Loader) (model_size : string) (m : Manager)
  : outcome Model * Manager * list Effect :=
  match m with
  | Some model => (Returned model, m, [])
  | None =>
      match cuda_is_available ld with
      | Raised e => (Raised e, None, [asked_torch])
      | Returned cuda =>
          let device := if cuda : bool then "cuda"%string else "cpu"%string in
          let compute_type :=
            if String.eqb device "cuda" then "float16"%string else "int8"%string in
          let notice :=
            printed ("正在加载Whisper模型 (设备: " ++ device ++ ", 计算类型: "
                       ++ compute_type ++ ")...")%string in
          let model := mkModel model_size device compute_type in
          match WhisperModel ld model_size device compute_type with
          | Raised e => (Raised e, None, [asked_torch; notice])
          | Returned _ =>
              (Returned model, Some model,
               [asked_torch; notice; built model; printed "Whisper模型加载完成"])
          end
      end
  end.

(** Lines 30-37. *)
Definition clear_model (m : Manager) : Manager * list Effect :=
  match m with
  | Some _ => (None, [printed "Whisper模型已清理"])
  | None => (m, [])
  end.

(** The calls that the rest of the program makes on the manager, one
    after the other; a call that raises leaves the manager to the next. *)
Inductive Call : Type :=
| call_get (model_size : string)
| call_clear.

Fixpoint run (ld : Loader) (calls : list Call) (m : Manager)
  : Manager * list Effect :=
  match calls with
  | [] => (m, [])
  | call_get model_size :: calls =>
      let '(_, m1, out1) := get_model ld model_size m in
      let '(m2, out2) := run ld calls m1 in
      (m2, out1 ++ out2)
  | call_clear :: calls =>
      let '(m1, out1) := clear_model m in
      let '(m2, out2) := run ld calls m1 in
      (m2, out1 ++ out2)
  end.

Definition is_built (e : Effect) : bool :=
  match e with built _ => true | _ => false end.

Definition is_clear (c : Call) : bool :=
  match c with call_clear => true | call_get _ => false end.

(** The device and the compute type go together. *)
Definition paired (model : Model) : Prop :=
  (device model = "cuda"%string /\ compute_type model = "float16"%string) \/
  (device model = "cpu"%string /\ compute_type model = "int8"%string).

(** The sizes asked for in [calls]. *)
Definition sizes_asked (calls : list Call) : list string :=
  flat_map (fun c => match c with call_get size => [size] | call_clear => [] end)
    calls.

(** A machine without CUDA on which every model can be built. *)
Definition cpu_loader : Loader :=
  mkLoader (Returned false) (fun _ _ _ => Returned tt).

End WhisperModelManager.

(** * Properties *)

(** ** The scenarios of the specification, run on the model *)

Example scenario_A :
  detect ["嗯"%string] (8 # 10) [mkWord "嗯" 0 (5 # 10)]
  = [mkClip FILLER 0 (5 # 10) "嗯"] /\
  keep_times_of [mkClip FILLER 0 (5 # 10) "嗯"] 10 = [(5 # 10, 10)].
Proof. split; reflexivity. Qed.

Example scenario_C :
  keep_times_of [removal 1 3; removal 2 4] 6 = [(0, 1); (4, 6)].
Proof. reflexivity. Qed.

Example scenario_D : keep_times_of [removal 0 6] 6 = [].
Proof. reflexivity. Qed.

(** ** The keep intervals as a recursion *)

Ltac qcases :=
  unfold py_max, fgt_dec, flt_dec in *;
  repeat match goal with
  | |- context [Qlt_le_dec ?a ?b] => destruct (Qlt_le_dec a b)
  | H : context [Qlt_le_dec ?a ?b] |- _ => destruct (Qlt_le_dec a b)
  end.

Lemma fold_keep_step cs : forall k L,
  fold_left keep_step cs (k, L) = (k ++ gaps cs L, final_end cs L).
Proof.
  induction cs as [|c cs IH]; intros k L; simpl.
  - now rewrite app_nil_r.
  - destruct (fgt_dec (start c) L); rewrite IH; simpl; auto.
    now rewrite <- app_assoc.
Qed.

Lemma keep_times_of_eq clips D :
  keep_times_of clips D =
  gaps (sort_by_start clips) 0 ++
  (if flt_dec (final_end (sort_by_start clips) 0) D
   then [(final_end (sort_by_start clips) 0, D)] else []).
Proof.
  unfold keep_times_of. rewrite fold_keep_step. simpl.
  destruct flt_dec; auto. now rewrite app_nil_r.
Qed.

(** ** Sorting by start *)

Lemma insert_by_start_perm c l : Permutation (c :: l) (insert_by_start c l).
Proof.
  induction l as [|d l IH]; simpl; auto.
  destruct flt_dec; auto.
  rewrite perm_swap. now constructor.
Qed.

Lemma sort_by_start_perm l : Permutation l (sort_by_start l).
Proof.
  induction l as [|c l IH]; simpl; auto.
  rewrite <- insert_by_start_perm. now constructor.
Qed.

Lemma insert_by_start_sorted c l :
  StronglySorted start_le l -> StronglySorted start_le (insert_by_start c l).
Proof.
  induction 1 as [|d l Hs IH Hd]; simpl.
  - repeat constructor.
  - destruct flt_dec as [Hlt|Hle].
    + constructor; auto.
      rewrite <- insert_by_start_perm. constructor; auto.
      unfold start_le. lra.
    + constructor. { now constructor. }
      constructor; auto.
      eapply Forall_impl; [|exact Hd]. unfold start_le. intros; lra.
Qed.

Lemma sort_by_start_sorted l : StronglySorted start_le (sort_by_start l).
Proof.
  induction l; simpl; [constructor | now apply insert_by_start_sorted].
Qed.

(** ** The measure of a union *)

Lemma measure1_compat a b : ieq a b -> measure1 a == measure1 b.
Proof.
  destruct a, b; unfold ieq, measure1; simpl; intros [? ?]; qcases; lra.
Qed.

Lemma inter_compat a a' b b' : ieq a a' -> ieq b b' -> ieq (inter a b) (inter a' b').
Proof.
  destruct a, a', b, b'; unfold ieq, inter; simpl; intros [? ?] [? ?].
  split; qcases; lra.
Qed.

Lemma ieq_refl a : ieq a a.
Proof. split; reflexivity. Qed.

Lemma ieq_list_refl l : Forall2 ieq l l.
Proof. induction l; constructor; auto using ieq_refl. Qed.

Lemma map_inter_compat a a' l l' :
  ieq a a' -> Forall2 ieq l l' -> Forall2 ieq (map (inter a) l) (map (inter a') l').
Proof.
  intros Ha; induction 1; simpl; constructor; auto using inter_compat.
Qed.

Lemma union_measure_aux_compat n : forall l l',
  Forall2 ieq l l' -> union_measure_aux n l == union_measure_aux n l'.
Proof.
  induction n as [|n IH]; intros l l' H; simpl.
  - destruct l, l'; reflexivity.
  - destruct H as [|a a' l l' Ha Hl]; [reflexivity|].
    rewrite (measure1_compat _ _ Ha), (IH _ _ Hl),
      (IH _ _ (map_inter_compat _ _ _ _ Ha Hl)).
    reflexivity.
Qed.

Lemma union_measure_compat l l' :
  Forall2 ieq l l' -> union_measure l == union_measure l'.
Proof.
  intros H. unfold union_measure. rewrite (Forall2_length H).
  now apply union_measure_aux_compat.
Qed.

Lemma union_measure_cons c cs :
  union_measure (c :: cs) =
  measure1 c + union_measure cs - union_measure (map (inter c) cs).
Proof. unfold union_measure. simpl. now rewrite length_map. Qed.

Lemma Forall2_ieq_map {A} (f g : A -> Interval) (l : list A) :
  (forall x, In x l -> ieq (f x) (g x)) -> Forall2 ieq (map f l) (map g l).
Proof.
  induction l; simpl; intros H; constructor; auto.
Qed.

(** empty intervals contribute nothing *)
Lemma union_measure_aux_empty n : forall l,
  Forall empty_interval l -> union_measure_aux n l == 0.
Proof.
  induction n as [|n IH]; intros l H; simpl; [reflexivity|].
  destruct H as [|a l Ha Hl]; [reflexivity|].
  rewrite (IH _ Hl), IH.
  - unfold measure1, empty_interval in *. qcases; lra.
  - clear -Hl. induction Hl as [|b l Hb _ IHl]; simpl; constructor; auto.
    destruct a, b; unfold empty_interval, inter in *; simpl in *. qcases; lra.
Qed.

(** cutting every interval at a point splits the measure *)
Lemma union_measure_aux_split e n : forall l,
  union_measure_aux n l ==
  union_measure_aux n (map (cut_right e) l) + union_measure_aux n (map (cut_left e) l).
Proof.
  induction n as [|n IH]; intros l; simpl; [destruct l; simpl; lra|].
  destruct l as [|a l]; simpl; [lra|].
  rewrite (IH l), (IH (map (inter a) l)).
  rewrite !map_map.
  rewrite (union_measure_aux_compat n
    (map (fun x => inter (cut_right e a) (cut_right e x)) l)
    (map (fun x => cut_right e (inter a x)) l)).
  2:{ apply Forall2_ieq_map. intros [xs xe] _. destruct a as [s t].
      unfold ieq, cut_right, inter; simpl. split; qcases; lra. }
  rewrite (union_measure_aux_compat n
    (map (fun x => inter (cut_left e a) (cut_left e x)) l)
    (map (fun x => cut_left e (inter a x)) l)).
  2:{ apply Forall2_ieq_map. intros [xs xe] _. destruct a as [s t].
      unfold ieq, cut_left, inter; simpl. split; qcases; lra. }
  assert (measure1 a == measure1 (cut_right e a) + measure1 (cut_left e a)) as ->.
  { destruct a as [s t]. unfold measure1, cut_right, cut_left, inter; simpl.
    qcases; lra. }
  lra.
Qed.

(** the measure does not depend on the order of the intervals *)
Lemma union_measure_aux_perm n : forall l l',
  Permutation l l' -> (List.length l <= n)%nat ->
  union_measure_aux n l == union_measure_aux n l'.
Proof.
  induction n as [|n IHn]; intros l l' HP Hlen.
  - destruct l; [|simpl in Hlen; lia].
    apply Permutation_nil in HP. subst. reflexivity.
  - induction HP as [|x l l' HP _|x y l|l l' l'' HP1 IH1 HP2 IH2].
    + reflexivity.
    + simpl in *.
      rewrite (IHn l l' HP), (IHn (map (inter x) l) (map (inter x) l'));
        [reflexivity | now apply Permutation_map | rewrite length_map; lia | lia].
    + destruct n as [|n]; [simpl in Hlen; lia|].
      cbn [union_measure_aux map].
      rewrite !map_map.
      rewrite (union_measure_aux_compat n
        (map (fun z => inter (inter y x) (inter y z)) l)
        (map (fun z => inter (inter x y) (inter x z)) l)).
      2:{ apply Forall2_ieq_map. intros [zs ze] _. destruct x, y.
          unfold ieq, inter; simpl. split; qcases; lra. }
      assert (measure1 (inter y x) == measure1 (inter x y)) as ->.
      { apply measure1_compat. destruct x, y.
        unfold ieq, inter; simpl. split; qcases; lra. }
      lra.
    + rewrite IH1 by assumption. apply IH2.
      now rewrite <- (Permutation_length HP1).
Qed.

Lemma union_measure_perm l l' :
  Permutation l l' -> union_measure l == union_measure l'.
Proof.
  intros H. unfold union_measure. rewrite <- (Permutation_length H).
  now apply union_measure_aux_perm.
Qed.

(** ** The walk over the sorted clips *)


Lemma union_measure_split e l :
  union_measure l ==
  union_measure (map (cut_right e) l) + union_measure (map (cut_left e) l).
Proof.
  unfold union_measure. rewrite !length_map. apply union_measure_aux_split.
Qed.

Lemma union_measure_empty l : Forall empty_interval l -> union_measure l == 0.
Proof. apply union_measure_aux_empty. Qed.

Section WalkMeasure.

(** The duration of the video. *)
Variable D : Q.

(** a clip that ends after the cursor: it adds the part of it after the
    cursor, and the rest is measured from its end *)
Lemma step_measure_advance L c X :
  L <= D -> within D c -> L < end_ c ->
  (start c <= L \/ Forall (fun x => start c <= fst x) X) ->
  union_measure (map (inter (L, D)) (span c :: X)) ==
  (end_ c - py_max L (start c)) + union_measure (map (inter (end_ c, D)) X).
Proof.
  intros HLD [Hse HeD] HLe Hord. cbn [map]. rewrite union_measure_cons.
  rewrite (union_measure_split (end_ c) (map (inter (L, D)) X)).
  rewrite !map_map.
  rewrite (union_measure_compat
    (map (fun x => inter (inter (L, D) (span c)) (inter (L, D) x)) X)
    (map (fun x => cut_right (end_ c) (inter (L, D) x)) X)).
  2:{ apply Forall2_ieq_map. intros [xs xe] Hin.
      assert (start c <= L \/ start c <= xs) as Hx.
      { destruct Hord as [?|HF]; auto. right.
        rewrite Forall_forall in HF. apply (HF _ Hin). }
      unfold ieq, cut_right, inter, span; simpl. split; qcases; lra. }
  rewrite (union_measure_compat
    (map (fun x => cut_left (end_ c) (inter (L, D) x)) X)
    (map (inter (end_ c, D)) X)).
  2:{ apply Forall2_ieq_map. intros [xs xe] _.
      unfold ieq, cut_left, inter, span; simpl. split; qcases; lra. }
  assert (measure1 (inter (L, D) (span c)) == end_ c - py_max L (start c)) as ->.
  { unfold measure1, inter, span; simpl. qcases; lra. }
  lra.
Qed.

(** a clip that ends at or before the cursor adds nothing *)
Lemma step_measure_stay L c X :
  L <= D -> within D c -> end_ c <= L ->
  union_measure (map (inter (L, D)) (span c :: X)) ==
  union_measure (map (inter (L, D)) X).
Proof.
  intros HLD [Hse HeD] HeL. cbn [map]. rewrite union_measure_cons.
  rewrite (union_measure_empty (map (inter (inter (L, D) (span c))) _)).
  - unfold measure1, inter, span; simpl. qcases; lra.
  - rewrite map_map. apply Forall_forall. intros i Hi.
    apply in_map_iff in Hi as [[xs xe] [<- _]].
    unfold empty_interval, inter, span; simpl. qcases; lra.
Qed.

Lemma total_duration_cons i l :
  total_duration (i :: l) = duration_of i + total_duration l.
Proof. reflexivity. Qed.

Lemma total_duration_app l l' :
  total_duration (l ++ l') == total_duration l + total_duration l'.
Proof.
  induction l as [|i l IH]; cbn [app].
  - unfold total_duration at 2; simpl. lra.
  - rewrite !total_duration_cons, IH. lra.
Qed.

Lemma walk_measure : forall cs L,
  StronglySorted start_le cs -> Forall (within D) cs -> L <= D ->
  final_end cs L <= D /\
  total_duration (gaps cs L) + (D - final_end cs L)
    + union_measure (map (inter (L, D)) (map span cs)) == D - L.
Proof.
  induction cs as [|c cs IH]; intros L Hs Hw HLD.
  - simpl. split; [assumption|]. unfold union_measure; simpl. lra.
  - apply StronglySorted_inv in Hs as [Hs Hc].
    apply Forall_cons_iff in Hw as [Hwc Hw].
    assert (py_max L (end_ c) <= D) as HL'.
    { destruct Hwc. qcases; lra. }
    destruct (IH _ Hs Hw HL') as [Hfin Hsum].
    split; [exact Hfin|]. cbn [gaps final_end].
    destruct (Qlt_le_dec L (end_ c)) as [HLe|HeL].
    + change (map span (c :: cs)) with (span c :: map span cs).
      rewrite step_measure_advance; auto.
      2:{ right. apply Forall_forall. intros x Hx.
          apply in_map_iff in Hx as [d [<- Hd]].
          rewrite Forall_forall in Hc. apply (Hc _ Hd). }
      assert (py_max L (end_ c) = end_ c) as E by (qcases; auto; lra).
      rewrite E in *. destruct Hwc.
      destruct (fgt_dec (start c) L); cbn [app];
        rewrite ?total_duration_cons; unfold duration_of; cbn [fst snd];
        qcases; lra.
    + change (map span (c :: cs)) with (span c :: map span cs).
      rewrite step_measure_stay; auto.
      assert (py_max L (end_ c) = L) as E by (qcases; auto; lra).
      rewrite E in *. destruct Hwc.
      destruct (fgt_dec (start c) L); cbn [app]; lra.
Qed.

End WalkMeasure.

(** ** Order of the emitted intervals *)


Lemma gaps_ordered : forall cs L,
  Forall (fun c => start c <= end_ c) cs ->
  L <= final_end cs L /\
  Forall well_formed (gaps cs L) /\
  StronglySorted before (gaps cs L) /\
  Forall (fun i => L <= fst i /\ snd i <= final_end cs L) (gaps cs L).
Proof.
  induction cs as [|c cs IH]; intros L Hw; cbn [gaps final_end].
  - repeat split; try constructor. lra.
  - apply Forall_cons_iff in Hw as [Hc Hw].
    destruct (IH (py_max L (end_ c)) Hw) as (Hle & Hwf & Hss & Hin).
    assert (L <= py_max L (end_ c)) as HL by (qcases; lra).
    assert (Forall (fun i => L <= fst i /\ snd i <= final_end cs (py_max L (end_ c)))
              (gaps cs (py_max L (end_ c)))) as Hin'.
    { eapply Forall_impl; [|exact Hin]. cbv beta. intros i [? ?]. split; lra. }
    split; [lra|].
    destruct (fgt_dec (start c) L) as [Hgt|Hngt]; cbn [app]; [|auto].
    assert (start c <= py_max L (end_ c)) as Hs by (qcases; lra).
    repeat split.
    + constructor; auto.
    + constructor; auto.
      eapply Forall_impl; [|exact Hin]. unfold before; cbn [fst snd].
      intros i [? ?]. lra.
    + constructor; auto. cbn [fst snd]. split; lra.
Qed.

Lemma StronglySorted_snoc (R : Interval -> Interval -> Prop) l x :
  StronglySorted R l -> Forall (fun i => R i x) l -> StronglySorted R (l ++ [x]).
Proof.
  induction 1 as [|a l Hs IH Ha]; intros Hx; cbn [app].
  - repeat constructor.
  - apply Forall_cons_iff in Hx as [Hax Hx]. constructor; auto.
    apply Forall_app. split; auto.
Qed.

Lemma ordered_disjoint_starts l :
  ordered_disjoint l -> StronglySorted starts_increase l.
Proof.
  intros [Hwf Hss]. induction Hss as [|a l Hs IH Ha]; constructor.
  - apply IH. now apply Forall_cons_iff in Hwf as [_ ?].
  - apply Forall_cons_iff in Hwf as [Hwa _].
    eapply Forall_impl; [|exact Ha].
    unfold starts_increase, before, well_formed in *. intros; lra.
Qed.



Lemma keep_times_of_ordered clips D :
  Forall (fun c => start c <= end_ c) clips ->
  ordered_disjoint (keep_times_of clips D).
Proof.
  intros Hw. rewrite keep_times_of_eq.
  assert (Forall (fun c => start c <= end_ c) (sort_by_start clips)) as Hw'.
  { apply Forall_forall. intros c Hc. rewrite Forall_forall in Hw. apply Hw.
    eapply Permutation_in; [symmetry; apply sort_by_start_perm | exact Hc]. }
  destruct (gaps_ordered (sort_by_start clips) 0 Hw') as (Hle & Hwf & Hss & Hin).
  destruct flt_dec as [Hlt|Hge].
  - split.
    + apply Forall_app. split; [exact Hwf|]. constructor; [exact Hlt | constructor].
    + apply StronglySorted_snoc; auto.
      eapply Forall_impl; [|exact Hin]. unfold before; cbn [fst snd]. tauto.
  - rewrite app_nil_r. split; auto.
Qed.

Lemma keep_times_of_measure clips D :
  0 <= D -> Forall (in_media D) clips ->
  total_duration (keep_times_of clips D) + union_measure (map span clips) == D.
Proof.
  intros HD Hw. rewrite keep_times_of_eq.
  pose proof (sort_by_start_perm clips) as HP.
  assert (Forall (in_media D) (sort_by_start clips)) as Hw'.
  { apply Forall_forall. intros c Hc. rewrite Forall_forall in Hw. apply Hw.
    eapply Permutation_in; [symmetry; exact HP | exact Hc]. }
  destruct (walk_measure D (sort_by_start clips) 0) as [Hfin Hsum].
  { apply sort_by_start_sorted. }
  { eapply Forall_impl; [|exact Hw']. unfold in_media, within. tauto. }
  { exact HD. }
  rewrite (union_measure_perm _ _ (Permutation_map span HP)).
  rewrite (union_measure_compat (map span (sort_by_start clips))
             (map (inter (0, D)) (map span (sort_by_start clips)))).
  2:{ rewrite map_map. apply Forall2_ieq_map. intros c Hc. rewrite Forall_forall in Hw'.
      destruct (Hw' _ Hc) as (? & ? & ?).
      unfold ieq, inter, span; cbn [fst snd]. split; qcases; lra. }
  rewrite total_duration_app.
  destruct flt_dec as [Hlt|Hge].
  - rewrite total_duration_cons. unfold duration_of; cbn [fst snd].
    change (total_duration []) with 0. lra.
  - change (total_duration []) with 0. lra.
Qed.

(** ** Point by point *)

Lemma kept_app l1 l2 t : kept (l1 ++ l2) t <-> kept l1 t \/ kept l2 t.
Proof.
  unfold kept. split.
  - intros (i & Hi & Hc). apply in_app_or in Hi as [Hi|Hi]; eauto.
  - intros [(i & Hi & Hc)|(i & Hi & Hc)]; exists i; split; auto;
      apply in_or_app; auto.
Qed.

Lemma removed_cons c cs t :
  removed (c :: cs) t <-> (start c <= t /\ t < end_ c) \/ removed cs t.
Proof.
  unfold removed. split.
  - intros (d & [<-|Hd] & H); eauto.
  - intros [H|(d & Hd & H)]; [exists c | exists d]; cbn [In]; auto.
Qed.

Section WalkPoints.

Variable D : Q.

Lemma rest_after_cursor cs L :
  Forall (fun c => start c <= end_ c) cs ->
  forall i, In i (gaps cs L ++ closing (final_end cs L) D) -> L <= fst i.
Proof.
  intros Hw i Hi.
  destruct (gaps_ordered cs L Hw) as (Hle & _ & _ & Hin).
  apply in_app_or in Hi as [Hi|Hi].
  - rewrite Forall_forall in Hin. apply (Hin i Hi).
  - unfold closing in Hi. destruct flt_dec; [|destruct Hi].
    destruct Hi as [<-|[]]. exact Hle.
Qed.

Lemma not_kept_before cs L t :
  Forall (fun c => start c <= end_ c) cs -> t < L ->
  ~ kept (gaps cs L ++ closing (final_end cs L) D) t.
Proof.
  intros Hw Ht (i & Hi & Hc1 & Hc2).
  pose proof (rest_after_cursor cs L Hw i Hi). lra.
Qed.

Lemma walk_points : forall cs,
  StronglySorted start_le cs -> Forall (within D) cs ->
  forall L t, L <= t -> t < D ->
  (kept (gaps cs L ++ closing (final_end cs L) D) t <-> ~ removed cs t).
Proof.
  induction cs as [|c cs IH]; intros Hs Hw L t HLt HtD.
  - cbn [gaps final_end app]. unfold closing.
    destruct flt_dec as [_|H]; [|lra]. split.
    + intros _ (c & [] & _).
    + intros _. exists (L, D). split; [now left | split; cbn; lra].
  - apply StronglySorted_inv in Hs as [Hs Hc].
    apply Forall_cons_iff in Hw as [[Hse HeD] Hw].
    assert (Forall (fun c => start c <= end_ c) cs) as Hw'.
    { eapply Forall_impl; [|exact Hw]. unfold within. tauto. }
    specialize (IH Hs Hw (py_max L (end_ c)) t).
    pose proof (not_kept_before cs (py_max L (end_ c)) t Hw') as Hnot.
    assert (forall d, In d cs -> start c <= start d) as Hord.
    { rewrite Forall_forall in Hc. exact Hc. }
    cbn [gaps final_end]. rewrite <- app_assoc, kept_app, removed_cons.
    destruct (fgt_dec (start c) L) as [Hgt|Hngt].
    + assert (py_max L (end_ c) = end_ c) as E
        by (unfold py_max; destruct fgt_dec; auto; lra).
      rewrite E in *.
      destruct (Qlt_le_dec t (start c)) as [Hts|Hts].
      * split; [|intros _; left; exists (L, start c); split;
                  [now left | split; cbn; lra]].
        intros _ [[? ?]|(d & Hd & ? & ?)]; [lra|].
        specialize (Hord d Hd). lra.
      * destruct (Qlt_le_dec t (end_ c)) as [Hte|Hte].
        -- split; [|intros H; exfalso; apply H; left; split; lra].
           intros [(i & [<-|[]] & ? & Hc2)|H]; [cbn in Hc2; lra|].
           exfalso. now apply Hnot.
        -- split.
           ++ intros [(i & [<-|[]] & ? & Hc2)|H]; [cbn in Hc2; lra|].
              pose proof (proj1 (IH Hte HtD) H) as Hn.
              intros [[? ?]|Hr]; [lra | exact (Hn Hr)].
           ++ intros H. right. apply (IH Hte HtD). tauto.
    + cbn [app].
      destruct (Qlt_le_dec t (py_max L (end_ c))) as [HtL|HtL].
      * assert (t < end_ c) as Hte
          by (unfold py_max in HtL; destruct fgt_dec; lra).
        split; [intros [(i & [] & _)|H]; exfalso; now apply Hnot|].
        intros H. exfalso. apply H. left. split; lra.
      * assert (end_ c <= t) as Hte
          by (unfold py_max in HtL; destruct fgt_dec; lra).
        split.
        -- intros [(i & [] & _)|H]. pose proof (proj1 (IH HtL HtD) H) as Hn.
           intros [[? ?]|Hr]; [lra | exact (Hn Hr)].
        -- intros H. right. apply (IH HtL HtD). tauto.
Qed.

End WalkPoints.

Lemma keep_times_of_points clips D :
  Forall (in_media D) clips ->
  forall t, 0 <= t -> t < D ->
  (kept (keep_times_of clips D) t <-> ~ removed clips t).
Proof.
  intros Hw t Ht0 HtD. rewrite keep_times_of_eq.
  pose proof (sort_by_start_perm clips) as HP.
  assert (Forall (within D) (sort_by_start clips)) as Hw'.
  { apply Forall_forall. intros c Hc. rewrite Forall_forall in Hw.
    destruct (Hw c) as (_ & ? & ?); [|split; assumption].
    eapply Permutation_in; [symmetry; exact HP | exact Hc]. }
  pose proof (walk_points D (sort_by_start clips)
                (sort_by_start_sorted clips) Hw' 0 t Ht0 HtD) as H.
  unfold closing in H. rewrite H. unfold removed.
  split; intros Hn (c & Hc & Hr); apply Hn; exists c; split; auto.
  - eapply Permutation_in; [exact HP | exact Hc].
  - eapply Permutation_in; [symmetry; exact HP | exact Hc].
Qed.

(** On intervals that do not overlap the measure of the union is the
    sum of the lengths. *)
Lemma union_measure_disjoint l :
  ordered_disjoint l -> union_measure l == total_duration l.
Proof.
  intros [Hwf Hss]. induction Hss as [|a l Hs IH Ha].
  - reflexivity.
  - apply Forall_cons_iff in Hwf as [Hwa Hwf].
    rewrite union_measure_cons, total_duration_cons, (IH Hwf).
    rewrite union_measure_empty.
    + unfold measure1, duration_of, well_formed in *.
      destruct flt_dec; lra.
    + apply Forall_forall. intros i Hi.
      apply in_map_iff in Hi as (x & <- & Hx).
      rewrite Forall_forall in Ha. specialize (Ha x Hx).
      destruct a, x. unfold empty_interval, inter, before, py_max in *.
      cbn [fst snd] in *. destruct fgt_dec; destruct flt_dec; lra.
Qed.

(** C1: for removal clips that all satisfy [0 <= start <= end <= D], the
    keep intervals of the interval reducer are non-empty, each ends no
    later than every later one starts (pairwise non-overlapping), their
    starts increase strictly, the sum of their durations plus the measure
    of the union of the removal clips (overlaps counted once) is [D], and
    an instant of the video is kept exactly when no clip removes it. *)
Theorem keep_times_partition clips D :
  0 <= D ->
  (forall c, In c clips -> 0 <= start c /\ start c <= end_ c /\ end_ c <= D) ->
  Forall well_formed (keep_times_of clips D) /\
  StronglySorted before (keep_times_of clips D) /\
  StronglySorted starts_increase (keep_times_of clips D) /\
  total_duration (keep_times_of clips D) + union_measure (map span clips) == D /\
  (forall t, 0 <= t -> t < D ->
     (kept (keep_times_of clips D) t <-> ~ removed clips t)).
Proof.
  intros HD Hin.
  assert (Forall (in_media D) clips) as Hw by (apply Forall_forall; exact Hin).
  assert (ordered_disjoint (keep_times_of clips D)) as Hod.
  { apply keep_times_of_ordered. eapply Forall_impl; [|exact Hw].
    unfold in_media. tauto. }
  split; [apply Hod|]. split; [apply Hod|].
  split; [now apply ordered_disjoint_starts|].
  split; [now apply keep_times_of_measure|].
  now apply keep_times_of_points.
Qed.

Lemma keep_times_partition_witness :
  Forall well_formed (keep_times_of [removal 1 3; removal 2 4] 6) /\
  StronglySorted before (keep_times_of [removal 1 3; removal 2 4] 6) /\
  StronglySorted starts_increase (keep_times_of [removal 1 3; removal 2 4] 6) /\
  total_duration (keep_times_of [removal 1 3; removal 2 4] 6)
    + union_measure (map span [removal 1 3; removal 2 4]) == 6 /\
  (forall t, 0 <= t -> t < 6 ->
     (kept (keep_times_of [removal 1 3; removal 2 4] 6) t
      <-> ~ removed [removal 1 3; removal 2 4] t)).
Proof.
  apply (keep_times_partition [removal 1 3; removal 2 4] 6).
  - lra.
  - intros c [<-|[<-|[]]]; cbn [removal start end_]; repeat split; lra.
Defined.

(** ** The two keep-interval computations *)

Lemma fold_keep_step_moviepy cs : forall k L,
  fold_left keep_step_moviepy cs (k, L)
  = (k ++ gaps_moviepy cs L, final_end_moviepy cs L).
Proof.
  induction cs as [|c cs IH]; intros k L; simpl.
  - now rewrite app_nil_r.
  - destruct (fgt_dec (start c) L); rewrite IH; simpl; auto.
    now rewrite <- app_assoc.
Qed.

Lemma clips_to_keep_times_of_eq clips D :
  clips_to_keep_times_of clips D =
  gaps_moviepy (sort_by_start clips) 0
    ++ closing (final_end_moviepy (sort_by_start clips) 0) D.
Proof.
  unfold clips_to_keep_times_of, closing. rewrite fold_keep_step_moviepy. simpl.
  destruct flt_dec; auto. now rewrite app_nil_r.
Qed.

(** When no clip ends before the cursor the two walks emit the same
    gaps and stop at the same place. *)
Lemma walks_agree : forall cs L L',
  L == L' -> StronglySorted end_le cs -> Forall (fun c => L <= end_ c) cs ->
  Forall2 ieq (gaps cs L) (gaps_moviepy cs L') /\
  final_end cs L == final_end_moviepy cs L'.
Proof.
  induction cs as [|c cs IH]; intros L L' HL Hs Hc; cbn [gaps gaps_moviepy
    final_end final_end_moviepy].
  - split; [constructor | exact HL].
  - apply StronglySorted_inv in Hs as [Hs Hce].
    apply Forall_cons_iff in Hc as [HLc Hc].
    assert (py_max L (end_ c) == end_ c) as E
      by (unfold py_max; destruct fgt_dec; lra).
    destruct (IH (py_max L (end_ c)) (end_ c) E Hs) as [Hg Hf].
    { eapply Forall_impl; [|exact Hce]. unfold end_le. intros; lra. }
    split; [|exact Hf].
    destruct (fgt_dec (start c) L); destruct (fgt_dec (start c) L'); try lra;
      cbn [app]; auto.
    constructor; [split; cbn; lra | exact Hg].
Qed.

(** The two paths keep the same intervals when, in the order of their
    starts, the removal clips end one after the other: no clip is nested
    in an earlier one. *)
Lemma keep_paths_agree clips D :
  StronglySorted end_le (sort_by_start clips) ->
  Forall (fun c => 0 <= end_ c) clips ->
  Forall2 ieq (keep_times_of clips D) (clips_to_keep_times_of clips D).
Proof.
  intros Hs Hc. rewrite keep_times_of_eq, clips_to_keep_times_of_eq.
  destruct (walks_agree (sort_by_start clips) 0 0 (Qeq_refl 0) Hs) as [Hg Hf].
  { apply Forall_forall. intros c Hin. rewrite Forall_forall in Hc. apply Hc.
    eapply Permutation_in; [symmetry; apply sort_by_start_perm | exact Hin]. }
  apply Forall2_app; [exact Hg|]. unfold closing.
  repeat destruct flt_dec; try lra; repeat constructor; cbn; lra.
Qed.

(** C2 fails on the code.  The tokens [a] from 0 to 1, [c] from 5 to 6
    and the filler from 2 to 3, in this order, give the detector a
    silence from 1 to 5 and a filler from 2 to 3 nested in it.  With
    both removed from a six-second video the FFmpeg path keeps the
    intervals from 0 to 1 and from 5 to 6; the MoviePy path keeps the
    intervals from 0 to 1 and from 3 to 6, and when the encoder fails it
    writes them: the output contains the range from 3 to 5 that was
    marked for removal. *)
Theorem fallback_keeps_removed_range :
  detect ["嗯"%string] (1 # 2)
    [mkWord "a" 0 1; mkWord "c" 5 6; mkWord "嗯" 2 3]
  = [mkClip SILENCE 1 5 EmptyString; mkClip FILLER 2 3 "嗯"] /\
  keep_times_of [mkClip SILENCE 1 5 EmptyString; mkClip FILLER 2 3 "嗯"] 6
  = [(0, 1); (5, 6)] /\
  clips_to_keep_times_of [mkClip SILENCE 1 5 EmptyString; mkClip FILLER 2 3 "嗯"] 6
  = [(0, 1); (3, 6)] /\
  In (external (call_write_videofile [(0, 1); (3, 6)] "in_final.mp4"))
    (events_of
       (export (sample_world 6 (Raised "no ffmpeg"%string)
                  (Returned (1%Z, "Conversion failed!"%string))))
       (initial (export_processor
                   [mkClip SILENCE 1 5 EmptyString; mkClip FILLER 2 3 "嗯"]))).
Proof.
  split; [reflexivity|]. split; [reflexivity|]. split; [reflexivity|].
  vm_compute. tauto.
Qed.

(** ** The clip detector *)

Lemma scan_word_cursor fw tau st t : snd (scan_word fw tau st t) = w_end t.
Proof.
  destruct st as [found last]. unfold scan_word.
  destruct fgt_dec; destruct mem; reflexivity.
Qed.

Lemma cursor_after_snoc fw tau tokens t last :
  cursor_after fw tau (tokens ++ [t]) last = w_end t.
Proof.
  unfold cursor_after. rewrite fold_left_app. cbn [fold_left].
  apply scan_word_cursor.
Qed.

Lemma cursor_after_last fw tau tokens last :
  cursor_after fw tau tokens last = last_token_end tokens last.
Proof.
  destruct tokens as [|t ts] using rev_ind.
  - reflexivity.
  - rewrite cursor_after_snoc. unfold last_token_end.
    rewrite rev_app_distr. reflexivity.
Qed.

(** Every clip that [scan_word] adds is a silence longer than the
    threshold or a filler. *)
Lemma scan_word_silences fw tau (P : Clip -> Prop) found last t :
  (forall c, In c found -> is_silence c -> P c) ->
  (tau < w_start t - last -> P (mkClip SILENCE last (w_start t) EmptyString)) ->
  forall c, In c (fst (scan_word fw tau (found, last) t)) -> is_silence c -> P c.
Proof.
  intros Hfound Hnew c. unfold scan_word.
  destruct fgt_dec as [Hgt|Hle]; destruct mem; cbn [fst];
    rewrite ?in_app_iff; cbn [In]; intros Hin Hs;
    repeat match goal with
    | H : _ \/ _ |- _ => destruct H
    | H : False |- _ => destruct H
    end; subst; auto; discriminate Hs.
Qed.

Lemma fold_scan_word_silences fw tau (P : Clip -> Prop) tokens : forall found last,
  (forall c, In c found -> is_silence c -> P c) ->
  (forall a b, tau < b - a -> P (mkClip SILENCE a b EmptyString)) ->
  forall c, In c (fst (fold_left (scan_word fw tau) tokens (found, last))) ->
            is_silence c -> P c.
Proof.
  induction tokens as [|t ts IH]; intros found last Hfound Hnew; cbn [fold_left].
  - exact Hfound.
  - destruct (scan_word fw tau (found, last) t) as [found' last'] eqn:E.
    apply IH; auto.
    intros c Hin. apply (scan_word_silences fw tau P found last t); auto.
    now rewrite E.
Qed.

(** C4, amended to what the code does: for every token sequence the
    cursor [last_word_end] is assigned the end of each token, so after
    the sequence it is the end of the token processed last (the initial
    0 when there is none); and every SILENCE clip that is emitted is
    longer than the threshold, so that with a threshold that is not
    negative its end is strictly after its start. *)
Theorem cursor_is_last_end_and_silences_positive fw tau tokens :
  0 <= tau ->
  cursor_after fw tau tokens 0 = last_token_end tokens 0 /\
  forall c, In c (detect fw tau tokens) -> is_silence c ->
            tau < end_ c - start c /\ start c < end_ c.
Proof.
  intros Htau. split; [apply cursor_after_last|].
  unfold detect. apply fold_scan_word_silences.
  - intros c [].
  - intros a b H. cbn [start end_]. split; lra.
Qed.

Lemma cursor_is_last_end_and_silences_positive_witness :
  0 <= 8 # 10 /\
  cursor_after ["嗯"%string] (8 # 10) [mkWord "a" 2 (21 # 10)] 0
    = last_token_end [mkWord "a" 2 (21 # 10)] 0 /\
  forall c, In c (detect ["嗯"%string] (8 # 10) [mkWord "a" 2 (21 # 10)]) ->
            is_silence c -> 8 # 10 < end_ c - start c /\ start c < end_ c.
Proof.
  split; [lra|].
  apply (cursor_is_last_end_and_silences_positive
           ["嗯"%string] (8 # 10) [mkWord "a" 2 (21 # 10)]).
  lra.
Defined.

(** C4 as stated fails: after a token that ends at 6 and a later token
    that ends at 2 the cursor is 2, below its earlier value 6 and below
    the maximum of the ends. *)
Lemma cursor_decreases :
  cursor_after [] (1 # 2) [mkWord "a" 5 6] 0 == 6 /\
  cursor_after [] (1 # 2) [mkWord "a" 5 6; mkWord "b" 1 2] 0 == 2 /\
  ~ cursor_after [] (1 # 2) [mkWord "a" 5 6] 0
    <= cursor_after [] (1 # 2) [mkWord "a" 5 6; mkWord "b" 1 2] 0.
Proof.
  repeat split; try reflexivity.
  vm_compute. intros H. apply H. reflexivity.
Qed.

Lemma quiet_fold fw tau tokens : forall last,
  quiet fw tau tokens last ->
  fst (fold_left (scan_word fw tau) tokens ([], last)) = [].
Proof.
  induction tokens as [|t ts IH]; intros last Hq; cbn [fold_left].
  - reflexivity.
  - destruct Hq as (Hgap & Hfill & Hq). unfold scan_word at 2.
    rewrite Hfill. destruct fgt_dec as [Hgt|_]; [lra|].
    now apply IH.
Qed.



(** ** The ETA estimator *)

Lemma Qfloor_unique (x : Q) (z : Z) :
  inject_Z z <= x -> x < inject_Z (z + 1) -> Qfloor x = z.
Proof.
  intros Hle Hlt.
  pose proof (Qfloor_le x) as H1. pose proof (Qlt_floor x) as H2.
  assert (inject_Z (Qfloor x) < inject_Z (z + 1)) as A by lra.
  assert (inject_Z z < inject_Z (Qfloor x + 1)) as B by lra.
  rewrite <- Zlt_Qlt in A, B. lia.
Qed.

Lemma py_int_nonneg x : 0 <= x -> py_int x = Qfloor x.
Proof. intros H. unfold py_int. destruct flt_dec; [lra | reflexivity]. Qed.

Lemma Qfloor_nonneg x : 0 <= x -> (0 <= Qfloor x)%Z.
Proof.
  intros H. change 0%Z with (Qfloor 0). now apply Qfloor_resp_le.
Qed.

(** [floor (x / n) = floor x / n] for a positive integer [n]. *)
Lemma Qfloor_div_pos x (n : positive) :
  Qfloor (x / inject_Z (Zpos n)) = (Qfloor x / Zpos n)%Z.
Proof.
  apply Qfloor_unique.
  - pose proof (Qfloor_le x) as H1.
    assert (inject_Z (Zpos n) * inject_Z (Qfloor x / Zpos n) <= inject_Z (Qfloor x)).
    { rewrite <- inject_Z_mult, <- Zle_Qle. apply Z.mul_div_le. lia. }
    assert (0 < inject_Z (Zpos n)) by (rewrite <- (Zlt_Qlt 0); lia).
    apply Qle_shift_div_l; [assumption|]. lra.
  - pose proof (Qlt_floor x) as H2.
    assert (0 < inject_Z (Zpos n)) by (rewrite <- (Zlt_Qlt 0); lia).
    apply Qlt_shift_div_r; [assumption|].
    assert (inject_Z (Qfloor x + 1) <= inject_Z (Qfloor x / Zpos n + 1) * inject_Z (Zpos n)).
    { rewrite <- inject_Z_mult, <- Zle_Qle.
      pose proof (Z.mul_succ_div_gt (Qfloor x) (Zpos n) ltac:(lia)). lia. }
    lra.
Qed.

(** [floor (x mod n) = floor x mod n] for a positive integer [n]. *)
Lemma Qfloor_py_mod x (n : positive) :
  Qfloor (py_mod x (inject_Z (Zpos n))) = (Qfloor x mod Zpos n)%Z.
Proof.
  unfold py_mod. rewrite Qfloor_div_pos.
  apply Qfloor_unique.
  - pose proof (Qfloor_le x) as H1.
    rewrite Z.mod_eq by lia. unfold Z.sub.
    rewrite inject_Z_plus, inject_Z_opp, inject_Z_mult. lra.
  - pose proof (Qlt_floor x) as H2.
    rewrite Z.mod_eq by lia. unfold Z.sub.
    rewrite !inject_Z_plus, inject_Z_opp, inject_Z_mult in *. lra.
Qed.

Lemma py_mod_nonneg x (n : positive) : 0 <= py_mod x (inject_Z (Zpos n)).
Proof.
  unfold py_mod.
  pose proof (Qfloor_le (x / inject_Z (Zpos n))) as H.
  assert (0 < inject_Z (Zpos n)) as Hn by (rewrite <- (Zlt_Qlt 0); lia).
  assert (inject_Z (Zpos n) * inject_Z (Qfloor (x / inject_Z (Zpos n)))
          <= inject_Z (Zpos n) * (x / inject_Z (Zpos n))) as A.
  { apply Qmult_le_l; assumption. }
  rewrite Qmult_div_r in A by lra. lra.
Qed.

Lemma format_remaining_seconds r :
  r < 60 ->
  format_remaining r = ("预计剩余 " ++ str_int (py_int r) ++ " 秒")%string.
Proof. intros H. unfold format_remaining. destruct flt_dec; [reflexivity | lra]. Qed.

Lemma format_remaining_minutes r :
  60 <= r -> r < 3600 ->
  format_remaining r =
  ("预计剩余 " ++ str_int (Qfloor r / 60) ++ " 分 "
     ++ str_int (Qfloor r mod 60) ++ " 秒")%string.
Proof.
  intros H1 H2. unfold format_remaining.
  destruct (flt_dec r 60); [lra|]. destruct (flt_dec r 3600); [|lra].
  rewrite (py_int_nonneg (r / 60)), (py_int_nonneg (py_mod r 60)).
  - change 60 with (inject_Z (Zpos 60)).
    now rewrite Qfloor_div_pos, Qfloor_py_mod.
  - apply (py_mod_nonneg r 60).
  - apply Qle_shift_div_l; lra.
Qed.

Lemma format_remaining_hours r :
  3600 <= r ->
  format_remaining r =
  ("预计剩余 " ++ str_int (Qfloor r / 3600) ++ " 小时 "
     ++ str_int ((Qfloor r mod 3600) / 60) ++ " 分钟")%string.
Proof.
  intros H1. unfold format_remaining.
  destruct (flt_dec r 60); [lra|]. destruct (flt_dec r 3600); [lra|].
  rewrite (py_int_nonneg (r / 3600)), (py_int_nonneg (py_mod r 3600 / 60)).
  - change 3600 with (inject_Z (Zpos 3600)).
    change 60 with (inject_Z (Zpos 60)).
    now rewrite !Qfloor_div_pos, Qfloor_py_mod.
  - apply Qle_shift_div_l; [lra|].
    pose proof (py_mod_nonneg r 3600) as H. 
    change (inject_Z (Zpos 3600)) with 3600 in H. lra.
  - apply Qle_shift_div_l; lra.
Qed.


Lemma calculate_eta_running w n s started :
  start_time (self s) = Some started -> (0 < n < 100)%Z ->
  result_of (calculate_eta w n) s
  = Returned (format_remaining (remaining_at w s started n)).
Proof.
  intros Hst Hn. unfold result_of, calculate_eta, bind, get_self, now, ret.
  cbn [fst snd self clock]. rewrite Hst.
  destruct (Z.leb_spec n 0); [lia|]. cbn [fst snd self clock].
  destruct (Z.geb_spec n 100); [lia|].
  destruct fgt_dec as [_|Hle]; [reflexivity|].
  exfalso. assert (0 < inject_Z n) by (rewrite <- (Zlt_Qlt 0); lia).
  assert (0 < inject_Z n / 100) by (apply Qlt_shift_div_l; lra). lra.
Qed.



(** ** Encoder selection *)

Lemma hardware_cmd_encoder v e o enc :
  video_encoder_of (hardware_cmd v e o enc) = Some enc.
Proof. unfold hardware_cmd. destruct String.eqb; reflexivity. Qed.

Lemma software_cmd_encoder v e o :
  video_encoder_of (software_cmd v e o) = Some "libx264"%string.
Proof. reflexivity. Qed.

Lemma check_hardware_acceleration_result w s :
  result_of (_check_hardware_acceleration w) s =
  Returned
    match ffmpeg_encoders w with
    | Returned encoders =>
        if contains "h264_nvenc" encoders then Some "h264_nvenc"%string
        else if contains "h264_amf" encoders then Some "h264_amf"%string
        else if contains "h264_qsv" encoders then Some "h264_qsv"%string
        else None
    | Raised _ => None
    end.
Proof.
  unfold result_of, _check_hardware_acceleration, try_except, bind, call.
  destruct (ffmpeg_encoders w) as [encoders|e]; [|reflexivity].
  destruct (contains "h264_nvenc" encoders); [reflexivity|].
  destruct (contains "h264_amf" encoders); [reflexivity|].
  destruct (contains "h264_qsv" encoders); reflexivity.
Qed.

Lemma check_hardware_acceleration_probes w s :
  In (external call_ffmpeg_encoders) (events_of (_check_hardware_acceleration w) s).
Proof.
  unfold events_of, _check_hardware_acceleration, try_except, bind, call.
  destruct (ffmpeg_encoders w) as [encoders|e]; [|left; reflexivity].
  destruct (contains "h264_nvenc" encoders); [left; reflexivity|].
  destruct (contains "h264_amf" encoders); [left; reflexivity|].
  destruct (contains "h264_qsv" encoders); left; reflexivity.
Qed.

Lemma choose_cmd_encoder w select_expr s :
  exists cmd,
    result_of (choose_cmd w select_expr) s = Returned cmd /\
    video_encoder_of cmd =
    Some match ffmpeg_encoders w with
         | Returned encoders =>
             if contains "h264_nvenc" encoders then "h264_nvenc"%string
             else if contains "h264_amf" encoders then "h264_amf"%string
             else if contains "h264_qsv" encoders then "h264_qsv"%string
             else "libx264"%string
         | Raised _ => "libx264"%string
         end.
Proof.
  pose proof (check_hardware_acceleration_result w s) as H.
  unfold result_of, choose_cmd, bind, get_self in *. cbn [fst snd] in *.
  destruct (_check_hardware_acceleration w s) as [[r s1] out].
  cbn [fst] in H. subst r.
  destruct (ffmpeg_encoders w) as [encoders|e]; [|eexists; split; reflexivity].
  destruct (contains "h264_nvenc" encoders);
    [eexists; split; [reflexivity | apply hardware_cmd_encoder]|].
  destruct (contains "h264_amf" encoders);
    [eexists; split; [reflexivity | apply hardware_cmd_encoder]|].
  destruct (contains "h264_qsv" encoders);
    [eexists; split; [reflexivity | apply hardware_cmd_encoder]|].
  eexists; split; reflexivity.
Qed.

(** C8: encoder selection probes the encoders of FFmpeg and chooses by
    strict priority: [h264_nvenc] when it is available, otherwise
    [h264_amf], otherwise [h264_qsv], and the software encoder [libx264]
    when no hardware encoder is available. *)
Theorem encoder_priority w select_expr s :
  In (external call_ffmpeg_encoders) (events_of (choose_cmd w select_expr) s) /\
  exists cmd,
    result_of (choose_cmd w select_expr) s = Returned cmd /\
    (available w "h264_nvenc" ->
     video_encoder_of cmd = Some "h264_nvenc"%string) /\
    (~ available w "h264_nvenc" -> available w "h264_amf" ->
     video_encoder_of cmd = Some "h264_amf"%string) /\
    (~ available w "h264_nvenc" -> ~ available w "h264_amf" ->
     available w "h264_qsv" ->
     video_encoder_of cmd = Some "h264_qsv"%string) /\
    (~ available w "h264_nvenc" -> ~ available w "h264_amf" ->
     ~ available w "h264_qsv" ->
     video_encoder_of cmd = Some "libx264"%string).
Proof.
  split.
  - pose proof (check_hardware_acceleration_probes w s) as H.
    unfold events_of, choose_cmd, bind, get_self in *. cbn [fst snd app] in *.
    destruct (_check_hardware_acceleration w s) as [[[[enc|]|e] s1] out];
      cbn [snd] in H |- *; auto.
    + destruct (truthy enc); unfold emit, ret; cbn [snd];
        apply in_or_app; auto.
    + unfold ret; cbn [snd]. apply in_or_app; auto.
  - destruct (choose_cmd_encoder w select_expr s) as (cmd & Hr & He).
    exists cmd. split; [exact Hr|]. rewrite He. unfold available.
    destruct (ffmpeg_encoders w) as [encoders|e].
    + destruct (contains "h264_nvenc" encoders) eqn:E1;
        [repeat split; auto; intros H; exfalso; apply H; eauto|].
      destruct (contains "h264_amf" encoders) eqn:E2;
        [repeat split; auto;
         try (intros (? & [= <-] & ?); congruence);
         intros ? H; exfalso; apply H; eauto|].
      destruct (contains "h264_qsv" encoders) eqn:E3;
        repeat split; auto;
        try (intros (? & [= <-] & ?); congruence);
        try (intros ? (? & [= <-] & ?); congruence);
        try (intros ? ? (? & [= <-] & ?); congruence).
      intros ? ? H; exfalso; apply H; eauto.
    + repeat split; auto;
        try (intros (? & [=] & ?));
        try (intros ? (? & [=] & ?));
        try (intros ? ? (? & [=] & ?)).
Qed.

Lemma encoder_priority_witness :
  exists cmd,
    result_of (choose_cmd (sample_world 6 (Returned "V..... h264_amf V..... h264_qsv"%string)
                             (Returned (0%Z, "ok"%string))) "x")
      (running_state []) = Returned cmd /\
    video_encoder_of cmd = Some "h264_amf"%string.
Proof.
  destruct (proj2 (encoder_priority
                     (sample_world 6 (Returned "V..... h264_amf V..... h264_qsv"%string)
                        (Returned (0%Z, "ok"%string))) "x" (running_state [])))
    as (cmd & Hr & _ & Hamf & _).
  exists cmd. split; [exact Hr|]. apply Hamf.
  - intros (encoders & E & H). injection E as <-. vm_compute in H. discriminate H.
  - eexists. split; reflexivity.
Defined.

(** ** The filter expression *)

Lemma eval_nonneg e t : 0 <= eval e t.
Proof.
  induction e as [lo hi|a IHa b IHb]; cbn [eval].
  - destruct flt_dec; [lra|]. destruct flt_dec; lra.
  - lra.
Qed.

Lemma selects_between lo hi t : selects (between_t lo hi) t <-> lo <= t /\ t <= hi.
Proof.
  unfold selects. cbn [eval].
  destruct (flt_dec t lo); [|destruct (flt_dec hi t)]; split; intros H;
    try lra; try (exfalso; apply H; reflexivity); try (intros E; lra).
Qed.

Lemma selects_plus a b t : selects (plus a b) t <-> selects a t \/ selects b t.
Proof.
  unfold selects. cbn [eval].
  pose proof (eval_nonneg a t). pose proof (eval_nonneg b t).
  split.
  - intros H1. destruct (Qeq_dec (eval a t) 0) as [E|E]; [right|left; exact E].
    intros Eb. apply H1. lra.
  - intros [Ha|Hb] E; [apply Ha | apply Hb]; lra.
Qed.

Lemma fold_plus_selects t rest : forall e,
  selects (fold_left (fun e i => plus e (between_t (fst i) (snd i))) rest e) t
  <-> selects e t \/ exists i, In i rest /\ in_closed i t.
Proof.
  induction rest as [|i rest IH]; intros e; cbn [fold_left].
  - split; [auto | intros [H|(i & [] & _)]; exact H].
  - rewrite IH, selects_plus, selects_between. unfold in_closed. cbn [In].
    split.
    + intros [[H|H]|(j & Hj & Hc)]; eauto.
    + intros [H|(j & [<-|Hj] & Hc)]; eauto.
Qed.

Lemma fold_plus_render w rest : forall e,
  render w (fold_left (fun e i => plus e (between_t (fst i) (snd i))) rest e)
  = fold_left (fun s i => (s ++ "+" ++ condition_of w i)%string) rest (render w e).
Proof.
  induction rest as [|[lo hi] rest IH]; intros e; cbn [fold_left].
  - reflexivity.
  - rewrite IH. reflexivity.
Qed.

Lemma append_assoc (a b c : string) : ((a ++ b) ++ c = a ++ (b ++ c))%string.
Proof. induction a as [|x a IH]; cbn; [reflexivity | now rewrite IH]. Qed.

Lemma concat_fold w rest : forall (first : Interval) (acc : string),
  fold_left (fun s i => (s ++ "+" ++ condition_of w i)%string) rest
    (acc ++ condition_of w first)%string
  = (acc ++ String.concat "+" (map (condition_of w) (first :: rest)))%string.
Proof.
  induction rest as [|i rest IH]; intros first acc.
  - reflexivity.
  - cbn [fold_left].
    replace ((acc ++ condition_of w first) ++ "+" ++ condition_of w i)%string
      with ((acc ++ condition_of w first ++ "+") ++ condition_of w i)%string
      by (now rewrite !append_assoc).
    rewrite IH. cbn [map String.concat]. 
    destruct (map (condition_of w) rest); now rewrite !append_assoc.
Qed.

Lemma select_condition_is_disjunction w first rest :
  select_condition_of w (first :: rest) = render w (disjunction first rest).
Proof.
  unfold select_condition_of, disjunction. rewrite fold_plus_render.
  cbn [render]. destruct first as [lo hi]. cbn [fst snd].
  apply (eq_sym (concat_fold w rest (lo, hi) EmptyString)).
Qed.

(** C5, amended to what the code does: for every non-empty sequence of
    keep intervals the predicate is the [+]-joined disjunction, over all
    intervals in order, of [between(t,start,end)]; it selects exactly the
    instants with [start <= t <= end] for some interval, both ends
    included; and the same predicate string is given to the video chain
    and to the audio chain of the filter graph. *)
Theorem filter_expression_is_closed_disjunction w first rest :
  let keep_times := first :: rest in
  let predicate := select_condition_of w keep_times in
  predicate = render w (disjunction first rest) /\
  predicate = String.concat "+" (map (condition_of w) keep_times) /\
  filter_complex_of predicate
    = (video_chain predicate ++ ";" ++ audio_chain predicate)%string /\
  forall t,
    selects (disjunction first rest) t
    <-> exists i, In i keep_times /\ fst i <= t /\ t <= snd i.
Proof.
  cbv zeta. split; [apply select_condition_is_disjunction|].
  split; [reflexivity|]. split.
  - unfold filter_complex_of, video_chain, audio_chain.
    now rewrite !append_assoc.
  - intros t. unfold disjunction. rewrite fold_plus_selects, selects_between.
    unfold in_closed. cbn [In]. split.
    + intros [H|(i & Hi & Hc)]; eauto.
    + intros (i & [<-|Hi] & Hc); eauto.
Qed.

(** C5 as stated fails at the end of an interval: the instant 1 is
    selected by the predicate of the interval from 0 to 1, and no kept
    interval contains it when the end is excluded. *)
Lemma interval_end_is_selected :
  selects (disjunction (0, 1) []) 1 /\
  ~ exists i, In i [(0, 1)] /\ fst i <= 1 /\ 1 < snd i.
Proof.
  split.
  - vm_compute. intros H. discriminate H.
  - intros (i & [<-|[]] & _ & H). cbn [snd] in H. lra.
Qed.

(** ** Running the effects *)

Lemma bind_returned {A B} (m : M A) (k : A -> M B) s a s1 out1 :
  m s = (Returned a, s1, out1) ->
  bind m k s = (let '(r, s2, out2) := k a s1 in (r, s2, out1 ++ out2)).
Proof. intros E. unfold bind. now rewrite E. Qed.

Lemma bind_raised {A B} (m : M A) (k : A -> M B) s e s1 out1 :
  m s = (Raised e, s1, out1) -> bind m k s = (Raised e, s1, out1).
Proof. intros E. unfold bind. now rewrite E. Qed.

Lemma try_except_returned {A} (m : M A) h s a s1 out1 :
  m s = (Returned a, s1, out1) -> try_except m h s = (Returned a, s1, out1).
Proof. intros E. unfold try_except. now rewrite E. Qed.

Lemma try_except_raised {A} (m : M A) h s e s1 out1 :
  m s = (Raised e, s1, out1) ->
  try_except m h s = (let '(r, s2, out2) := h e s1 in (r, s2, out1 ++ out2)).
Proof. intros E. unfold try_except. now rewrite E. Qed.

Lemma calculate_eta_run w n s :
  exists eta c, calculate_eta w n s = (Returned eta, mkState (self s) c, []).
Proof.
  unfold calculate_eta, bind, get_self, now, ret. destruct s as [p c].
  cbn [self clock]. destruct (start_time p); [|eauto].
  destruct (n <=? 0)%Z; [eauto|]. cbn [self clock].
  destruct (n >=? 100)%Z; [eauto|]. destruct fgt_dec; eauto.
Qed.

Lemma report_run w n label s :
  exists eta c,
    report w n label s
    = (Returned tt, mkState (set_current_step n (self s)) c, [progress n label eta]).
Proof.
  unfold report.
  destruct (calculate_eta_run w n (mkState (set_current_step n (self s)) (clock s)))
    as (eta & c & E).
  exists eta, c. unfold bind at 1. unfold set_self at 1.
  unfold bind at 1. unfold get_self at 1. cbn [self clock current_step set_current_step].
  unfold bind at 1. rewrite E. unfold bind, get_self, emit. reflexivity.
Qed.

(** ** What a computation emits *)

Lemma emits_ret {A} P (a : A) : emits_only P (ret a).
Proof. intros s. constructor. Qed.

Lemma emits_raise {A} P e : emits_only P (@raise A e).
Proof. intros s. constructor. Qed.

Lemma emits_lift {A} P (o : outcome A) : emits_only P (lift o).
Proof. intros s. constructor. Qed.

Lemma emits_get_self P : emits_only P get_self.
Proof. intros s. constructor. Qed.

Lemma emits_set_self P f : emits_only P (set_self f).
Proof. intros s. constructor. Qed.

Lemma emits_now P w : emits_only P (now w).
Proof. intros s. constructor. Qed.

Lemma emits_emit (P : Event -> Prop) e : P e -> emits_only P (emit e).
Proof. intros H s. repeat constructor. exact H. Qed.

Lemma emits_call {A} (P : Event -> Prop) c (o : outcome A) :
  P (external c) -> emits_only P (call c o).
Proof. intros H s. repeat constructor. exact H. Qed.

Lemma emits_bind {A B} P (m : M A) (k : A -> M B) :
  emits_only P m -> (forall a, emits_only P (k a)) -> emits_only P (bind m k).
Proof.
  intros Hm Hk s. specialize (Hm s). unfold bind.
  destruct (m s) as [[[a|e] s1] out1]; cbn [snd] in *; [|exact Hm].
  specialize (Hk a s1). destruct (k a s1) as [[r s2] out2]. cbn [snd] in *.
  apply Forall_app. now split.
Qed.

Lemma emits_try_except {A} P (m : M A) h :
  emits_only P m -> (forall e, emits_only P (h e)) -> emits_only P (try_except m h).
Proof.
  intros Hm Hh s. specialize (Hm s). unfold try_except.
  destruct (m s) as [[[a|e] s1] out1]; cbn [snd] in *; [exact Hm|].
  specialize (Hh e s1). destruct (h e s1) as [[r s2] out2]. cbn [snd] in *.
  apply Forall_app. now split.
Qed.

Lemma emits_for_each {A B} P (xs : list A) (body : B -> A -> M B) :
  (forall acc x, emits_only P (body acc x)) ->
  forall acc, emits_only P (for_each xs body acc).
Proof.
  intros Hb. induction xs as [|x xs IH]; intros acc; cbn [for_each].
  - apply emits_ret.
  - apply emits_bind; auto.
Qed.

Lemma emits_calculate_eta P w n : emits_only P (calculate_eta w n).
Proof.
  intros s. destruct (calculate_eta_run w n s) as (eta & c & E).
  rewrite E. constructor.
Qed.

Lemma emits_report (P : Event -> Prop) w n label :
  (forall eta, P (progress n label eta)) -> emits_only P (report w n label).
Proof.
  intros H s. destruct (report_run w n label s) as (eta & c & E).
  rewrite E. repeat constructor. apply H.
Qed.

(** Rules are applied from the outside in; a [match] or [if] on a value
    is split first. *)
Ltac emits_split :=
  match goal with
  | |- emits_only _ (match ?x with _ => _ end) => destruct x
  | |- emits_only _ (let '(_, _) := ?x in _) => destruct x
  end.

Create HintDb emits discriminated.

#[local] Hint Resolve emits_ret emits_raise emits_lift emits_get_self
  emits_set_self emits_now emits_calculate_eta : emits.

Ltac emits_step :=
  first
    [ solve [auto with emits]
    | apply emits_emit; try solve [reflexivity | exact I]
    | apply emits_call; try solve [reflexivity | exact I]
    | apply emits_report; intros; try solve [reflexivity | exact I]
    | apply emits_bind; [|intros]
    | apply emits_try_except; [|intros]
    | apply emits_for_each; intros
    | emits_split ].

Ltac emits := repeat emits_step.


(** ** Progress in order *)

Lemma percents_app a b : percents (a ++ b) = percents a ++ percents b.
Proof. apply flat_map_app. Qed.

Lemma StronglySorted_app_le (l1 l2 : list Z) (mid : Z) :
  StronglySorted Z.le l1 -> StronglySorted Z.le l2 ->
  Forall (fun n => (n <= mid)%Z) l1 -> Forall (fun n => (mid <= n)%Z) l2 ->
  StronglySorted Z.le (l1 ++ l2).
Proof.
  intros H1 H2 Hl1 Hl2. induction H1 as [|a l1 Hs IH Ha]; cbn [app]; [exact H2|].
  apply Forall_cons_iff in Hl1 as [Hamid Hl1]. constructor; [now apply IH|].
  apply Forall_app. split; [exact Ha|].
  eapply Forall_impl; [|exact Hl2]. cbv beta. lia.
Qed.

Lemma paced_weaken {A} lo lo' (hi hi' : outcome A -> Z) m :
  paced lo hi m -> (lo' <= lo)%Z -> (forall r, (hi r <= hi' r)%Z) ->
  paced lo' hi' m.
Proof.
  intros H Hlo Hhi s. specialize (H s). destruct (m s) as [[r s1] out].
  destruct H as (Hs & Hf & Hb). specialize (Hhi r).
  repeat split; [exact Hs | | lia].
  eapply Forall_impl; [|exact Hf]. cbv beta. lia.
Qed.

Lemma paced_silent {A} lo (hi : outcome A -> Z) m :
  emits_only no_progress m -> (forall r, (lo <= hi r)%Z) -> paced lo hi m.
Proof.
  intros H Hb s. specialize (H s). destruct (m s) as [[r s1] out].
  cbn [snd] in H.
  assert (percents out = []) as ->.
  { induction H as [|e out He _ IH]; [reflexivity|].
    unfold percents in *. cbn [flat_map]. now rewrite He, IH. }
  repeat split; [constructor | constructor | apply Hb].
Qed.

Lemma paced_report lo (hi : outcome unit -> Z) w n label :
  (lo <= n <= hi (Returned tt))%Z -> paced lo hi (report w n label).
Proof.
  intros H s. destruct (report_run w n label s) as (eta & c & E). rewrite E.
  cbn. repeat split; repeat constructor; lia.
Qed.

Lemma paced_bind {A B} lo (mid : outcome A -> Z) (hi : outcome B -> Z)
    (m : M A) (k : A -> M B) :
  paced lo mid m ->
  (forall a s s1 out, m s = (Returned a, s1, out) ->
                      paced (mid (Returned a)) hi (k a)) ->
  (forall e s s1 out, m s = (Raised e, s1, out) ->
                      (mid (Raised e) <= hi (Raised e))%Z) ->
  paced lo hi (bind m k).
Proof.
  intros Hm Hk He s. specialize (Hm s). unfold bind.
  destruct (m s) as [[[a|e] s1] out1] eqn:E.
  - destruct Hm as (Hs1 & Hf1 & Hb1).
    specialize (Hk a s s1 out1 E s1). destruct (k a s1) as [[r s2] out2].
    destruct Hk as (Hs2 & Hf2 & Hb2). rewrite percents_app.
    repeat split; [| |lia].
    + apply (StronglySorted_app_le _ _ (mid (Returned a))); auto.
      * eapply Forall_impl; [|exact Hf1]. cbv beta. lia.
      * eapply Forall_impl; [|exact Hf2]. cbv beta. lia.
    + apply Forall_app. split.
      * eapply Forall_impl; [|exact Hf1]. cbv beta. lia.
      * eapply Forall_impl; [|exact Hf2]. cbv beta. lia.
  - destruct Hm as (Hs1 & Hf1 & Hb1). specialize (He e s s1 out1 E).
    repeat split; [exact Hs1| |lia].
    eapply Forall_impl; [|exact Hf1]. cbv beta. lia.
Qed.

Lemma paced_try_except {A} lo (mid hi : outcome A -> Z) (m : M A) h :
  paced lo mid m ->
  (forall e, paced (mid (Raised e)) hi (h e)) ->
  (forall a, (mid (Returned a) <= hi (Returned a))%Z) ->
  paced lo hi (try_except m h).
Proof.
  intros Hm Hh Ha s. specialize (Hm s). unfold try_except.
  destruct (m s) as [[[a|e] s1] out1].
  - destruct Hm as (Hs1 & Hf1 & Hb1). specialize (Ha a).
    repeat split; [exact Hs1| |lia].
    eapply Forall_impl; [|exact Hf1]. cbv beta. lia.
  - destruct Hm as (Hs1 & Hf1 & Hb1).
    specialize (Hh e s1). destruct (h e s1) as [[r s2] out2].
    destruct Hh as (Hs2 & Hf2 & Hb2). rewrite percents_app.
    repeat split; [| |lia].
    + apply (StronglySorted_app_le _ _ (mid (Raised e))); auto.
      * eapply Forall_impl; [|exact Hf1]. cbv beta. lia.
      * eapply Forall_impl; [|exact Hf2]. cbv beta. lia.
    + apply Forall_app. split.
      * eapply Forall_impl; [|exact Hf1]. cbv beta. lia.
      * eapply Forall_impl; [|exact Hf2]. cbv beta. lia.
Qed.

(** A step that emits no progress, followed by the rest. *)
Lemma paced_after_silent {A B} lo (hi : outcome B -> Z) (m : M A) (k : A -> M B) :
  emits_only no_progress m ->
  (forall a s s1 out, m s = (Returned a, s1, out) -> paced lo hi (k a)) ->
  (forall e, (lo <= hi (Raised e))%Z) ->
  paced lo hi (bind m k).
Proof.
  intros Hm Hk He. apply (paced_bind lo (fun _ => lo)); auto.
  apply paced_silent; [exact Hm | intros; lia].
Qed.

(** A progress report, followed by the rest. *)
Lemma paced_after_report {B} lo (hi : outcome B -> Z) w n label (k : M B) :
  (lo <= n)%Z -> paced n hi k -> paced lo hi (report w n label ;; k).
Proof.
  intros Hn Hk. apply (paced_bind lo (fun _ => n)).
  - apply paced_report. lia.
  - intros. exact Hk.
  - intros e s s1 out E. destruct (report_run w n label s) as (eta & c & E').
    rewrite E' in E. discriminate E.
Qed.

(** *** The percent formulas *)

Lemma py_int_mono x y : 0 <= x -> x <= y -> (py_int x <= py_int y)%Z.
Proof.
  intros Hx Hxy. rewrite !py_int_nonneg by lra. now apply Qfloor_resp_le.
Qed.

Lemma py_int_Z (z : Z) : (0 <= z)%Z -> py_int (inject_Z z) = z.
Proof.
  intros H. rewrite py_int_nonneg; [apply Qfloor_Z|].
  now rewrite <- (Zle_Qle 0).
Qed.

Lemma ratio_mono (total i j : nat) :
  (0 < total)%nat -> (i <= j)%nat ->
  inject_Z (Z.of_nat i) / inject_Z (Z.of_nat total)
  <= inject_Z (Z.of_nat j) / inject_Z (Z.of_nat total).
Proof.
  intros Ht Hij.
  assert (0 < inject_Z (Z.of_nat total)) as Hd by (rewrite <- (Zlt_Qlt 0); lia).
  apply Qle_shift_div_r; [exact Hd|].
  unfold Qdiv. rewrite <- Qmult_assoc, (Qmult_comm (/ _)), Qmult_inv_r by lra.
  rewrite Qmult_1_r, <- Zle_Qle. lia.
Qed.

Lemma ratio_zero (total : nat) :
  inject_Z (Z.of_nat 0) / inject_Z (Z.of_nat total) == 0.
Proof. cbn [Z.of_nat]. unfold Qdiv. change (inject_Z 0) with 0. lra. Qed.

Lemma ratio_one (total : nat) :
  (0 < total)%nat ->
  inject_Z (Z.of_nat total) / inject_Z (Z.of_nat total) == 1.
Proof.
  intros Ht.
  assert (0 < inject_Z (Z.of_nat total)) as Hd by (rewrite <- (Zlt_Qlt 0); lia).
  unfold Qdiv. rewrite Qmult_inv_r; lra.
Qed.

Lemma ratio_bounds (total i : nat) :
  (0 < total)%nat -> (i <= total)%nat ->
  0 <= inject_Z (Z.of_nat i) / inject_Z (Z.of_nat total) <= 1.
Proof.
  intros Ht Hi. rewrite <- (ratio_zero total), <- (ratio_one total Ht).
  split; apply ratio_mono; auto; lia.
Qed.

Lemma clip_progress_mono total i j :
  (0 < total)%nat -> (i <= j)%nat -> (j <= total)%nat ->
  (clip_progress total i <= clip_progress total j)%Z.
Proof.
  intros Ht Hij Hj. unfold clip_progress.
  pose proof (ratio_mono total i j Ht Hij).
  pose proof (ratio_bounds total i Ht ltac:(lia)).
  apply py_int_mono; lra.
Qed.

Lemma clip_progress_bounds total i :
  (0 < total)%nat -> (i <= total)%nat ->
  (30 <= clip_progress total i <= 90)%Z.
Proof.
  intros Ht Hi. unfold clip_progress.
  pose proof (ratio_bounds total i Ht Hi).
  assert (py_int 30
          <= py_int (30 + inject_Z (Z.of_nat i) / inject_Z (Z.of_nat total) * 60)
          <= py_int 90)%Z as B by (split; apply py_int_mono; lra).
  exact B.
Qed.

Lemma segment_progress_mono total i j :
  (i <= j)%nat -> (segment_progress total i <= segment_progress total j)%Z.
Proof.
  intros Hij. unfold segment_progress.
  destruct (Nat.ltb_spec 0 total) as [Ht|_]; [|lia].
  pose proof (ratio_mono total i j Ht Hij).
  pose proof (ratio_mono total 0 i Ht ltac:(lia)) as H0.
  rewrite ratio_zero in H0.
  apply Z.add_le_mono_l. apply py_int_mono; lra.
Qed.

Lemma segment_progress_bounds total i :
  (i <= total)%nat -> (30 <= segment_progress total i <= 70)%Z.
Proof.
  intros Hi. unfold segment_progress.
  destruct (Nat.ltb_spec 0 total) as [Ht|_]; [|lia].
  pose proof (ratio_bounds total i Ht Hi).
  assert (py_int 0
          <= py_int (40 * (inject_Z (Z.of_nat i) / inject_Z (Z.of_nat total)))
          <= py_int 40)%Z as B by (split; apply py_int_mono; lra).
  change (py_int 0) with 0%Z in B. change (py_int 40) with 40%Z in B. lia.
Qed.

(** *** The loops *)

Section Pacing.

Variable w : World.

Lemma extract_clip_result total i fc keep s a s1 out :
  extract_clip w total (i, fc) keep s = (Returned a, s1, out) ->
  a = (S i, fc ++ [keep]).
Proof.
  unfold extract_clip. destruct keep as [t_start t_end].
  match goal with |- context [report w ?n ?l] =>
    destruct (report_run w n l s) as (eta & c & E) end.
  rewrite (bind_returned _ _ _ _ _ _ E).
  unfold bind, call, ret. destruct (subclip w t_start t_end); intros [=].
  now subst.
Qed.

Lemma extract_clip_paced total i fc keep :
  paced (clip_progress total i) (fun _ => clip_progress total i)
    (extract_clip w total (i, fc) keep).
Proof.
  unfold extract_clip. destruct keep as [t_start t_end].
  apply paced_after_report; [apply Z.le_refl|].
  apply paced_silent; [|intros; apply Z.le_refl].
  apply emits_bind; [apply emits_call; reflexivity | intros; apply emits_ret].
Qed.

Lemma extract_loop_paced total :
  (0 < total)%nat ->
  forall xs i fc, (i + List.length xs = total)%nat ->
  paced (clip_progress total i) (fun _ => 90%Z)
    (for_each xs (extract_clip w total) (i, fc)).
Proof.
  intros Ht. induction xs as [|x xs IH]; intros i fc Hlen; cbn [for_each].
  - apply paced_silent; [apply emits_ret|]. intros _.
    apply clip_progress_bounds; [exact Ht|]. cbn in Hlen. lia.
  - cbn [List.length] in Hlen.
    apply (paced_bind _ (fun _ => clip_progress total i)).
    + apply extract_clip_paced.
    + intros a s s1 out E. apply extract_clip_result in E. subst a.
      apply (paced_weaken (clip_progress total (S i)) _ (fun _ => 90%Z));
        [apply IH; lia | apply clip_progress_mono; lia | intros; lia].
    + intros. apply clip_progress_bounds; [exact Ht | lia].
Qed.

Lemma scan_segment_result total found last k segment s a s1 out :
  scan_segment w total (found, last, k) segment s = (Returned a, s1, out) ->
  exists found' last', a = (found', last', S k).
Proof.
  unfold scan_segment.
  match goal with |- context [report w ?n ?l] =>
    destruct (report_run w n l s) as (eta & c & E) end.
  rewrite (bind_returned _ _ _ _ _ _ E).
  unfold bind, get_self, ret. cbn [self].
  destruct (fold_left _ _ _) as [found' last']. intros [=]. subst. eauto.
Qed.

Lemma scan_segment_paced total found last k segment :
  paced (segment_progress total (S k)) (fun _ => segment_progress total (S k))
    (scan_segment w total (found, last, k) segment).
Proof.
  unfold scan_segment.
  apply paced_after_report; [apply Z.le_refl|].
  apply paced_silent; [|intros; apply Z.le_refl].
  apply emits_bind; [apply emits_get_self|]. intros p.
  destruct (fold_left _ _ _). apply emits_ret.
Qed.

Lemma scan_loop_paced total :
  forall xs found last k, (k + List.length xs = total)%nat ->
  paced (segment_progress total k) (fun _ => 70%Z)
    (for_each xs (scan_segment w total) (found, last, k)).
Proof.
  induction xs as [|x xs IH]; intros found last k Hlen; cbn [for_each].
  - apply paced_silent; [apply emits_ret|]. intros _.
    apply segment_progress_bounds. cbn in Hlen. lia.
  - cbn [List.length] in Hlen.
    apply (paced_bind _ (fun _ => segment_progress total (S k))).
    + apply (paced_weaken (segment_progress total (S k)) _
               (fun _ => segment_progress total (S k)));
        [apply scan_segment_paced | apply segment_progress_mono; lia
        | intros; lia].
    + intros a s s1 out E.
      apply scan_segment_result in E as (found' & last' & ->).
      apply IH. lia.
    + intros. apply segment_progress_bounds. lia.
Qed.

(** *** The functions *)

Lemma paced_ret {A} lo (hi : outcome A -> Z) (a : A) :
  (lo <= hi (Returned a))%Z -> paced lo hi (ret a).
Proof. intros H s. cbn. repeat split; try constructor; exact H. Qed.

Lemma build_expression_silent :
  emits_only no_progress (_build_ffmpeg_select_expression w).
Proof. unfold _build_ffmpeg_select_expression, sort_clips_to_remove. emits. Qed.

Lemma check_hardware_silent :
  emits_only no_progress (_check_hardware_acceleration w).
Proof. unfold _check_hardware_acceleration. emits. Qed.

Lemma choose_cmd_silent select_expr :
  emits_only no_progress (choose_cmd w select_expr).
Proof.
  unfold choose_cmd. apply emits_bind; [apply emits_get_self|]. intros p.
  apply emits_bind; [apply check_hardware_silent|]. intros enc. emits.
Qed.

Ltac silent :=
  first [ apply build_expression_silent | apply choose_cmd_silent
        | apply check_hardware_silent
        | unfold sort_clips_to_remove; solve [emits] ].

Ltac paced_step :=
  match goal with
  | |- paced _ _ (bind (report _ _ _) _) =>
      apply paced_after_report; [try lia|]
  | |- paced _ _ (report _ _ _) => apply paced_report; cbn; try lia
  | |- paced _ _ (ret _) => apply paced_ret; cbn; try lia
  | |- paced _ _ (bind _ _) =>
      apply paced_after_silent; [silent | intros | intros; cbn; try lia]
  | |- paced _ _ (match ?x with _ => _ end) => destruct x
  | |- paced _ _ (let '(_, _) := ?x in _) => destruct x
  | |- paced _ _ _ => apply paced_silent; [silent | intros; cbn; try lia]
  end.


Lemma try_ffmpeg_export_paced lo :
  (lo <= 20)%Z -> paced lo primary_bound (_try_ffmpeg_export w).
Proof.
  intros Hlo. unfold _try_ffmpeg_export.
  apply (paced_try_except lo primary_bound); [| |intros; lia].
  - repeat paced_step.
  - intros e. repeat paced_step.
Qed.

Lemma moviepy_export_paced lo :
  (lo <= 30)%Z -> paced lo (fun _ => 100%Z) (_moviepy_export w).
Proof.
  intros Hlo. unfold _moviepy_export.
  apply (paced_try_except lo (fun _ => 100%Z)); [| |intros; lia].
  2:{ intros e. apply paced_silent; [apply emits_raise | intros; lia]. }
  apply paced_after_silent; [emits | intros cuda ? ? ? _ | intros; lia].
  apply paced_after_silent; [destruct cuda; emits | intros _ ? ? ? _ | intros; lia].
  do 4 paced_step.
  destruct (close_keep _ _) as [|keep keeps] eqn:E.
  - apply paced_silent; [emits | intros; lia].
  - paced_step.
    apply (paced_bind _ (fun _ => 90%Z)).
    + apply (paced_weaken (clip_progress (List.length (keep :: keeps)) 0) _
               (fun _ => 90%Z)).
      * apply extract_loop_paced; cbn [List.length]; lia.
      * apply clip_progress_bounds; cbn [List.length]; lia.
      * intros; lia.
    + intros [i final_clips] ? ? ? _. repeat paced_step.
    + intros; lia.
Qed.

Lemma export_prologue_paced :
  paced 5 (fun _ => 5%Z) (export_prologue w).
Proof. unfold export_prologue. repeat paced_step. Qed.

(** The percents of an export run are in order, between 5 and 100. *)
Lemma export_paced : paced 5 (fun _ => 100%Z) (export w).
Proof.
  unfold export, fallback, export_failed.
  apply (paced_try_except 5 (fun _ => 100%Z)); [| |intros; lia].
  2:{ intros e. apply paced_silent; [emits | intros; lia]. }
  apply (paced_bind _ (fun _ => 5%Z)); [apply export_prologue_paced| |intros; lia].
  intros _ ? ? ? _.
  apply (paced_bind _ primary_bound);
    [apply try_ffmpeg_export_paced; lia | | intros; cbn; lia].
  intros [|] ? ? ? _; cbn [primary_bound].
  - repeat paced_step.
  - apply paced_after_silent; [emits | intros | intros; cbn; lia].
    apply moviepy_export_paced. lia.
Qed.

(** The percents of a detection run are in order, between 10 and 100. *)
Lemma analyze_paced : paced 10 (fun _ => 100%Z) (analyze w).
Proof.
  unfold analyze.
  apply (paced_try_except 10 (fun _ => 100%Z)); [| |intros; lia].
  2:{ intros e. apply paced_silent; [emits | intros; lia]. }
  do 10 paced_step.
  apply paced_after_silent; [emits | intros first ? ? ? E1 | intros; lia].
  apply paced_after_silent; [emits | intros again ? ? ? E2 | intros; lia].
  assert (again = first) as ->.
  { unfold call in E1, E2. congruence. }
  apply (paced_bind _ (fun _ => 70%Z)); [| |intros; lia].
  - apply (paced_weaken (segment_progress (List.length first) 0) _ (fun _ => 70%Z)).
    + apply scan_loop_paced. reflexivity.
    + apply segment_progress_bounds. lia.
    + intros; lia.
  - intros [[found last] k] ? ? ? _. repeat paced_step.
Qed.

End Pacing.


(** ** The export state machine *)

(** Sorting a sorted list changes nothing. *)
Lemma insert_by_start_head c l :
  Forall (start_le c) l -> insert_by_start c l = c :: l.
Proof.
  intros H. destruct H as [|d l Hd _]; cbn [insert_by_start]; [reflexivity|].
  destruct flt_dec as [Hlt|_]; [|reflexivity]. unfold start_le in Hd. lra.
Qed.

Lemma sort_by_start_sorted_id l :
  StronglySorted start_le l -> sort_by_start l = l.
Proof.
  induction 1 as [|c l Hs IH Hc]; cbn [sort_by_start fold_right]; [reflexivity|].
  fold (sort_by_start l). rewrite IH. now apply insert_by_start_head.
Qed.

Lemma sort_by_start_idem l : sort_by_start (sort_by_start l) = sort_by_start l.
Proof. apply sort_by_start_sorted_id, sort_by_start_sorted. Qed.

Lemma keep_times_of_sorted l D : keep_times_of (sort_by_start l) D = keep_times_of l D.
Proof. unfold keep_times_of. now rewrite sort_by_start_idem. Qed.

Lemma clips_to_keep_times_of_sorted l D :
  clips_to_keep_times_of (sort_by_start l) D = clips_to_keep_times_of l D.
Proof. unfold clips_to_keep_times_of. now rewrite sort_by_start_idem. Qed.

(** [_build_ffmpeg_select_expression], case by case. *)
Lemma build_expression_run w s :
  _build_ffmpeg_select_expression w s =
  let path := video_path (self s) in
  match ffprobe w path with
  | Raised e =>
      (Returned None, s,
       [external (call_ffprobe path); print ("构建FFmpeg表达式失败: " ++ e)%string])
  | Returned (returncode, stdout) =>
      if (returncode =? 0)%Z then
        match float_of_str w (strip stdout) with
        | Raised e =>
            (Returned None, s,
             [external (call_ffprobe path);
              print ("构建FFmpeg表达式失败: " ++ e)%string])
        | Returned duration =>
            (match keep_times_of (clips_to_remove (self s)) duration with
             | [] => Returned None
             | keep_times =>
                 Returned (Some (filter_complex_of (select_condition_of w keep_times)))
             end,
             sorted_state s, [external (call_ffprobe path)])
        end
      else (Returned None, s, [external (call_ffprobe path)])
  end.
Proof.
  unfold _build_ffmpeg_select_expression, try_except, bind, get_self, call,
    lift, sort_clips_to_remove, set_self, ret, emit, sorted_state, keep_times_of.
  cbn [self clock fst snd].
  destruct (ffprobe w (video_path (self s))) as [[returncode stdout]|e];
    [|reflexivity].
  destruct (returncode =? 0)%Z; cbn [negb]; [|reflexivity].
  destruct (float_of_str w (strip stdout)) as [duration|e]; [|reflexivity].
  cbn [self clock clips_to_remove set_clips_to_remove].
  destruct (close_keep _ _); reflexivity.
Qed.

Lemma try_except_returns {A} (m : M A) h :
  (forall e, returns (h e)) -> returns (try_except m h).
Proof.
  intros Hh s. unfold try_except.
  destruct (m s) as [[[a|e] s1] out1]; [exists a; reflexivity|].
  destruct (Hh e s1) as [a Ha]. destruct (h e s1) as [[r s2] out2].
  cbn [fst] in *. eauto.
Qed.

Lemma try_ffmpeg_export_returns w : returns (_try_ffmpeg_export w).
Proof.
  unfold _try_ffmpeg_export. apply try_except_returns.
  intros e s. exists false. reflexivity.
Qed.

Lemma build_expression_returns w : returns (_build_ffmpeg_select_expression w).
Proof.
  unfold _build_ffmpeg_select_expression. apply try_except_returns.
  intros e s. exists None. reflexivity.
Qed.

(** Without a filter expression the attempt ends at once with [False]. *)
Lemma try_ffmpeg_export_no_expression w s :
  result_of (_build_ffmpeg_select_expression w) (sorted_state s) = Returned None ->
  _try_ffmpeg_export w s =
  (Returned false,
   state_after (_build_ffmpeg_select_expression w) (sorted_state s),
   events_of (_build_ffmpeg_select_expression w) (sorted_state s)).
Proof.
  unfold result_of, state_after, events_of, _try_ffmpeg_export, try_except,
    sort_clips_to_remove. unfold bind at 1. unfold set_self at 1.
  fold (sorted_state s). unfold bind at 1.
  destruct (_build_ffmpeg_select_expression w (sorted_state s)) as [[r s1] out].
  cbn [fst snd]. intros ->. unfold ret. cbn [app]. now rewrite app_nil_r.
Qed.

(** The attempt answers [True] only after the encoder exited with 0. *)
Lemma try_ffmpeg_export_true w s :
  result_of (_try_ffmpeg_export w) s = Returned true ->
  exists select_expr cmd stderr,
    result_of (_build_ffmpeg_select_expression w) (sorted_state s)
      = Returned (Some select_expr) /\
    ffmpeg w cmd = Returned (0%Z, stderr).
Proof.
  unfold result_of, _try_ffmpeg_export, try_except, sort_clips_to_remove.
  unfold bind at 1. unfold set_self at 1. fold (sorted_state s).
  unfold bind at 1.
  destruct (_build_ffmpeg_select_expression w (sorted_state s))
    as [[[[select_expr|]|e] s1] out]; cbn [fst snd];
    [|unfold ret; cbn; discriminate|unfold bind, emit, ret; cbn; discriminate].
  destruct (truthy select_expr); cbn [negb];
    [|unfold ret; cbn; discriminate].
  match goal with |- context [report w ?n ?l] =>
    destruct (report_run w n l s1) as (eta & c & E) end.
  rewrite (bind_returned _ _ _ _ _ _ E).
  unfold bind at 1.
  destruct (choose_cmd w select_expr _) as [[[cmd|e] s3] out3];
    [|unfold bind, emit, ret; cbn; discriminate].
  unfold bind at 1. unfold call at 1.
  destruct (ffmpeg w cmd) as [[returncode stderr]|e] eqn:Ef;
    [|unfold bind, emit, ret; cbn; discriminate].
  destruct (Z.eqb_spec returncode 0) as [->|_].
  - intros _. exists select_expr, cmd, stderr. auto.
  - unfold bind, emit, ret. cbn. discriminate.
Qed.

Lemma export_prologue_run w s :
  exists eta c,
    export_prologue w s
    = (Returned tt, mkState (prepared w s) c, [progress 5 "正在准备剪辑..." eta]).
Proof.
  unfold export_prologue. unfold bind at 1. unfold now at 1.
  unfold bind at 1. unfold set_self at 1. cbn [self clock].
  unfold bind at 1. unfold set_self at 1. cbn [self clock].
  unfold bind at 1. unfold set_self at 1. cbn [self clock].
  match goal with |- context [report w ?n ?l ?s0] =>
    destruct (report_run w n l s0) as (eta & c & E) end.
  rewrite E. exists eta, c. reflexivity.
Qed.

(** After a [False] from the primary attempt the run goes on with the
    fallback, from the state and after the events of the attempt. *)
Lemma export_after_failure w s :
  let s1 := state_after (export_prologue w) s in
  result_of (_try_ffmpeg_export w) s1 = Returned false ->
  events_of (export w) s =
  events_of (export_prologue w) s ++ events_of (_try_ffmpeg_export w) s1
    ++ events_of (try_except (fallback w) export_failed)
         (state_after (_try_ffmpeg_export w) s1).
Proof.
  destruct (export_prologue_run w s) as (eta & c & E).
  unfold state_after, result_of, events_of, export. rewrite E. cbn [fst snd].
  unfold try_except. unfold bind at 1. rewrite E. unfold bind at 1.
  destruct (_try_ffmpeg_export w _) as [[r s2] out2]. cbn [fst snd].
  intros ->.
  destruct (fallback w s2) as [[[a|e] s3] out3]; cbn [snd].
  - reflexivity.
  - destruct (export_failed e s3) as [[r4 s4] out4]. cbn [snd app].
    now rewrite <- !app_assoc.
Qed.

Lemma bind_emit_events {B} e (k : unit -> M B) s :
  snd (bind (emit e) k s) = e :: snd (k tt s).
Proof. unfold bind, emit. destruct (k tt s) as [[r s2] out2]. reflexivity. Qed.

Lemma bind_call_events {A B} c (o : outcome A) (k : A -> M B) s :
  exists rest, snd (bind (call c o) k s) = external c :: rest.
Proof.
  unfold bind, call. destruct o as [a|e]; [|cbn; eauto].
  destruct (k a s) as [[r s2] out2]. cbn. eauto.
Qed.

Lemma try_except_events {A} (m : M A) h s :
  exists rest, snd (try_except m h s) = snd (m s) ++ rest.
Proof.
  unfold try_except. destruct (m s) as [[[a|e] s1] out1].
  - exists []. cbn. now rewrite app_nil_r.
  - destruct (h e s1) as [[r s2] out2]. cbn. eauto.
Qed.

(** The fallback begins with its notice and the probe of [torch], the
    first statement of [_moviepy_export]. *)
Lemma fallback_begins w s :
  exists rest,
    events_of (try_except (fallback w) export_failed) s
    = status fallback_notice :: external call_torch :: rest.
Proof.
  unfold events_of.
  destruct (try_except_events (fallback w) export_failed s) as [r1 ->].
  unfold fallback. rewrite bind_emit_events. unfold _moviepy_export.
  match goal with |- context [try_except ?m ?h s] =>
    destruct (try_except_events m h s) as [r2 ->] end.
  match goal with |- context [bind (call ?c ?o) ?k s] =>
    destruct (bind_call_events c o k s) as [r3 ->] end.
  cbn. eauto.
Qed.

Lemma export_enters_fallback w s :
  result_of (_try_ffmpeg_export w) (state_after (export_prologue w) s)
    = Returned false ->
  exists rest,
    events_of (export w) s =
    events_of (export_prologue w) s
      ++ events_of (_try_ffmpeg_export w) (state_after (export_prologue w) s)
      ++ status fallback_notice :: external call_torch :: rest.
Proof.
  intros H. rewrite (export_after_failure w s H).
  destruct (fallback_begins w
              (state_after (_try_ffmpeg_export w)
                 (state_after (export_prologue w) s))) as [rest ->].
  eauto.
Qed.

Lemma try_ffmpeg_export_no_error w :
  emits_only no_error (_try_ffmpeg_export w).
Proof.
  unfold _try_ffmpeg_export, _build_ffmpeg_select_expression, choose_cmd,
    _check_hardware_acceleration, sort_clips_to_remove.
  emits.
Qed.

(** C10: the primary attempt always returns a boolean and emits no error
    signal; an exception from the duration probe, from reading its
    output, or from the encoder process makes it return [False]; and
    after a [False] the export run announces and enters the fallback. *)
Theorem primary_attempt_never_raises w s :
  (exists ok, result_of (_try_ffmpeg_export w) s = Returned ok) /\
  Forall no_error (events_of (_try_ffmpeg_export w) s) /\
  ((exists e, ffprobe w (video_path (self s)) = Raised e) ->
   result_of (_try_ffmpeg_export w) s = Returned false) /\
  (forall stdout,
     ffprobe w (video_path (self s)) = Returned (0%Z, stdout) ->
     (exists e, float_of_str w (strip stdout) = Raised e) ->
     result_of (_try_ffmpeg_export w) s = Returned false) /\
  ((forall cmd, exists e, ffmpeg w cmd = Raised e) ->
   result_of (_try_ffmpeg_export w) s = Returned false) /\
  (result_of (_try_ffmpeg_export w) (state_after (export_prologue w) s)
     = Returned false ->
   exists rest,
     events_of (export w) s =
     events_of (export_prologue w) s
       ++ events_of (_try_ffmpeg_export w) (state_after (export_prologue w) s)
       ++ status fallback_notice :: external call_torch :: rest).
Proof.
  pose proof (try_ffmpeg_export_returns w s) as [ok Hok].
  fold (result_of (_try_ffmpeg_export w) s) in Hok.
  assert (ok = true ->
          exists select_expr cmd stderr,
            result_of (_build_ffmpeg_select_expression w) (sorted_state s)
              = Returned (Some select_expr) /\
            ffmpeg w cmd = Returned (0%Z, stderr)) as Htrue.
  { intros ->. now apply try_ffmpeg_export_true. }
  pose proof (build_expression_run w (sorted_state s)) as Hb.
  cbn [sorted_state self video_path set_clips_to_remove] in Hb.
  repeat split.
  - eauto.
  - apply try_ffmpeg_export_no_error.
  - intros [e He]. destruct ok; [|exact Hok]. exfalso.
    destruct (Htrue eq_refl) as (x & _ & _ & Hx & _).
    unfold result_of in Hx. rewrite Hb, He in Hx. discriminate Hx.
  - intros stdout Hp [e He]. destruct ok; [|exact Hok]. exfalso.
    destruct (Htrue eq_refl) as (x & _ & _ & Hx & _).
    unfold result_of in Hx. rewrite Hb, Hp in Hx. cbn in Hx.
    rewrite He in Hx. discriminate Hx.
  - intros Hf. destruct ok; [|exact Hok]. exfalso.
    destruct (Htrue eq_refl) as (_ & cmd & stderr & _ & Hx).
    destruct (Hf cmd) as [e He]. congruence.
  - apply export_enters_fallback.
Qed.

Lemma primary_attempt_never_raises_witness :
  result_of
    (_try_ffmpeg_export
       (sample_world 6 (Raised "no ffmpeg"%string) (Raised "no ffmpeg"%string)))
    (running_state [removal 1 3])
  = Returned false.
Proof.
  apply (proj1 (proj2 (proj2 (proj2 (proj2
    (primary_attempt_never_raises
       (sample_world 6 (Raised "no ffmpeg"%string) (Raised "no ffmpeg"%string))
       (running_state [removal 1 3]))))))).
  intros cmd. exists "no ffmpeg"%string. reflexivity.
Defined.

(** A single clip that covers the whole video leaves nothing to keep,
    on either path. *)
Lemma whole_video_removed c D :
  start c <= 0 -> D <= end_ c ->
  keep_times_of [c] D = [] /\ clips_to_keep_times_of [c] D = [].
Proof.
  intros Hs He. unfold keep_times_of, clips_to_keep_times_of.
  cbn [sort_by_start fold_right insert_by_start fold_left keep_step
       keep_step_moviepy close_keep].
  destruct (fgt_dec (start c) 0) as [H|_]; [lra|]. split.
  - unfold py_max. destruct (fgt_dec (end_ c) 0); destruct flt_dec; auto; lra.
  - destruct flt_dec; auto; lra.
Qed.

(** [_moviepy_export] when its own keep list is empty. *)
Lemma moviepy_export_nothing_kept w s cuda D' :
  torch_cuda_is_available w = Returned cuda ->
  VideoFileClip w (video_path (self s)) = Returned D' ->
  clips_to_keep_times_of (clips_to_remove (self s)) D' = [] ->
  _moviepy_export w s =
  (Returned tt, sorted_state s,
   external call_torch
     :: (if cuda then [status cuda_notice] else [])
     ++ [external (call_VideoFileClip (video_path (self s)));
         error no_keep_notice]).
Proof.
  intros Ht Hv Hk. unfold clips_to_keep_times_of in Hk.
  unfold _moviepy_export, try_except, bind, call, get_self, sort_clips_to_remove,
    set_self, emit, ret.
  rewrite Ht. destruct cuda; cbn [self clock fst snd]; rewrite Hv;
    cbn [self clock clips_to_remove set_clips_to_remove]; rewrite Hk;
    reflexivity.
Qed.

(** C3, amended to what the code does: when the keep list of the primary
    path is empty the attempt returns [False] and the run enters the
    fallback, as after every other [False]; when the keep list of the
    fallback is empty too, the run ends with the error signal for an
    empty keep list, emitted inside the fallback after it probed [torch]
    and opened the video, and no sub-clip is extracted. *)
Theorem nothing_kept_fails_inside_fallback w s stdout D cuda D' :
  ffprobe w (video_path (self s)) = Returned (0%Z, stdout) ->
  float_of_str w (strip stdout) = Returned D ->
  keep_times_of (clips_to_remove (self s)) D = [] ->
  torch_cuda_is_available w = Returned cuda ->
  VideoFileClip w (video_path (self s)) = Returned D' ->
  clips_to_keep_times_of (clips_to_remove (self s)) D' = [] ->
  (exists eta,
     events_of (export w) s =
     [progress 5 "正在准备剪辑..." eta;
      external (call_ffprobe (video_path (self s)));
      status fallback_notice;
      external call_torch]
     ++ (if cuda then [status cuda_notice] else [])
     ++ [external (call_VideoFileClip (video_path (self s)));
         error no_keep_notice]) /\
  (forall s0,
     result_of (_try_ffmpeg_export w) (state_after (export_prologue w) s0)
       = Returned false ->
     exists rest,
       events_of (export w) s0 =
       events_of (export_prologue w) s0
         ++ events_of (_try_ffmpeg_export w) (state_after (export_prologue w) s0)
         ++ status fallback_notice :: external call_torch :: rest).
Proof.
  intros Hp Hf Hk Ht Hv Hk'. split; [|intros s0; apply export_enters_fallback].
  destruct (export_prologue_run w s) as (eta & c & E).
  set (s1 := {| self := prepared w s; clock := c |}).
  assert (_build_ffmpeg_select_expression w (sorted_state s1)
          = (Returned None, sorted_state (sorted_state s1),
             [external (call_ffprobe (video_path (self s)))])) as Hb.
  { rewrite build_expression_run.
    cbn [sorted_state s1 prepared self video_path clips_to_remove
         set_clips_to_remove set_current_step set_total_steps set_start_time].
    rewrite Hp. cbn [Z.eqb]. rewrite Hf, keep_times_of_sorted, Hk. reflexivity. }
  assert (_try_ffmpeg_export w s1
          = (Returned false, sorted_state (sorted_state s1),
             [external (call_ffprobe (video_path (self s)))])) as Hprimary.
  { rewrite try_ffmpeg_export_no_expression;
      unfold result_of, state_after, events_of; rewrite Hb; reflexivity. }
  assert (state_after (export_prologue w) s = s1) as Hs1
    by (unfold state_after; now rewrite E).
  pose proof (export_after_failure w s) as Hx. cbv zeta in Hx.
  rewrite Hs1 in Hx. unfold result_of, state_after, events_of in Hx.
  rewrite Hprimary, E in Hx. cbn [fst snd] in Hx.
  specialize (Hx eq_refl).
  exists eta. unfold events_of at 1. rewrite Hx. clear Hx.
  unfold try_except, fallback. rewrite (bind_returned _ _ _ _ _ _ eq_refl).
  rewrite (moviepy_export_nothing_kept w _ cuda D').
  - destruct cuda; reflexivity.
  - exact Ht.
  - exact Hv.
  - cbn [sorted_state s1 prepared self clips_to_remove
         set_clips_to_remove set_current_step set_total_steps set_start_time].
    now rewrite !clips_to_keep_times_of_sorted.
Qed.

Lemma nothing_kept_fails_inside_fallback_witness :
  exists eta,
    events_of
      (export (sample_world 6 (Raised "no ffmpeg"%string) (Raised "no ffmpeg"%string)))
      (initial (export_processor [removal 0 6]))
    = [progress 5 "正在准备剪辑..." eta;
       external (call_ffprobe "in.mp4");
       status fallback_notice;
       external call_torch;
       external (call_VideoFileClip "in.mp4");
       error no_keep_notice].
Proof.
  apply (proj1
    (nothing_kept_fails_inside_fallback
       (sample_world 6 (Raised "no ffmpeg"%string) (Raised "no ffmpeg"%string))
       (initial (export_processor [removal 0 6]))
       "6.000000"%string 6 false 6
       eq_refl eq_refl eq_refl eq_refl eq_refl eq_refl)).
Defined.

(** C3 as stated fails: with the single removal clip from 0 to 6 on a
    six-second video the keep list is empty, and the run still announces
    the fallback, probes [torch] and opens the video with MoviePy. *)
Lemma fallback_attempted_when_nothing_kept :
  keep_times_of [removal 0 6] 6 = [] /\
  In (status fallback_notice)
    (events_of
       (export (sample_world 6 (Raised "no ffmpeg"%string) (Raised "no ffmpeg"%string)))
       (initial (export_processor [removal 0 6]))) /\
  In (external (call_VideoFileClip "in.mp4"))
    (events_of
       (export (sample_world 6 (Raised "no ffmpeg"%string) (Raised "no ffmpeg"%string)))
       (initial (export_processor [removal 0 6]))).
Proof.
  split; [reflexivity|]. split; vm_compute; tauto.
Qed.

(** ** The detection run *)

(** The two loops of [analyze] find what [detect] finds in the words of
    all segments, one after the other. *)
Lemma scan_loop_run w total fw tau : forall segs found last k s,
  filler_words (self s) = fw -> silence_threshold (self s) = tau ->
  exists s' out,
    for_each segs (scan_segment w total) (found, last, k) s
    = (Returned (fold_left (scan_word fw tau) (flat_map words segs) (found, last),
                 (k + List.length segs)%nat), s', out) /\
    filler_words (self s') = fw /\ silence_threshold (self s') = tau.
Proof.
  induction segs as [|seg segs IH]; intros found last k s Hfw Htau.
  - exists s, []. cbn. rewrite Nat.add_0_r. auto.
  - cbn [for_each flat_map List.length]. unfold scan_segment at 1.
    match goal with |- context [report w ?n ?l] =>
      destruct (report_run w n l s) as (eta & c & E) end.
    unfold bind at 1. unfold bind at 1. rewrite E. unfold bind at 1.
    unfold get_self at 1.
    cbn [self filler_words silence_threshold set_current_step].
    rewrite Hfw, Htau.
    destruct (fold_left (scan_word fw tau) (words seg) (found, last))
      as [found1 last1] eqn:E1.
    unfold ret at 1.
    destruct (IH found1 last1 (S k)
                {| self := set_current_step
                             (segment_progress total (S k)) (self s);
                   clock := c |} Hfw Htau) as (s' & out & Erun & H1 & H2).
    unfold segment_progress in Erun. rewrite Erun.
    exists s'. eexists. rewrite fold_left_app, E1.
    replace (k + S (List.length segs))%nat with (S k + List.length segs)%nat by lia.
    split; [reflexivity|auto].
Qed.

Lemma ends_with_one x : ends_with x [x].
Proof. exists []. reflexivity. Qed.

Lemma ends_with_cons x a l : ends_with x l -> ends_with x (a :: l).
Proof. intros [b ->]. exists (a :: b). reflexivity. Qed.

Lemma ends_with_app x l1 l2 : ends_with x l2 -> ends_with x (l1 ++ l2).
Proof. intros [b ->]. exists (l1 ++ b). now rewrite app_assoc. Qed.

Ltac run_report w :=
  unfold bind at 1;
  match goal with
  | |- context [report w ?n ?l ?s0] =>
      let eta := fresh "eta" in
      let c := fresh "c" in
      let E := fresh "E" in
      destruct (report_run w n l s0) as (eta & c & E); rewrite E; clear E
  end.

(** When every collaborator returns, the last event of a detection run
    is [finished] with the clips that [detect] finds in the words of all
    segments. *)
Lemma analyze_finishes_with_detect w s segs D :
  VideoFileClip w (video_path (self s)) = Returned D ->
  write_audiofile w "temp_audio.wav" = Returned tt ->
  get_model w = Returned tt ->
  transcribe w "temp_audio.wav" = Returned segs ->
  ends_with
    (finished (detect (filler_words (self s)) (silence_threshold (self s))
                 (flat_map words segs)))
    (events_of (analyze w) s).
Proof.
  intros Hv Ha Hm Ht. unfold events_of, analyze, try_except.
  unfold bind at 1. unfold now at 1.
  do 3 (unfold bind at 1; unfold set_self at 1; cbn [self clock]).
  run_report w.
  unfold bind at 1. unfold get_self at 1.
  cbn [self video_path set_current_step set_total_steps set_start_time].
  unfold bind at 1. unfold call at 1. rewrite Hv.
  unfold bind at 1. unfold call at 1. rewrite Ha.
  run_report w.
  unfold bind at 1. unfold call at 1. rewrite Hm.
  unfold bind at 1. unfold call at 1. rewrite Ht.
  unfold bind at 1. unfold call at 1.
  unfold bind at 1.
  match goal with |- context [for_each segs _ _ ?s0] =>
    destruct (scan_loop_run w (List.length segs) (filler_words (self s))
                (silence_threshold (self s)) segs [] 0 0%nat s0 eq_refl eq_refl)
      as (s' & out & Erun & _ & _)
  end.
  rewrite Erun.
  destruct (fold_left _ (flat_map words segs) ([], 0)) as [found last] eqn:Ef.
  run_report w. unfold emit. cbn [fst snd app].
  unfold detect. rewrite Ef. cbn [fst].
  repeat first [apply ends_with_one | apply ends_with_cons | apply ends_with_app].
Qed.

(** * Further properties of the code *)

(** ** One terminal signal, at the end *)

Lemma tidy_quiet out : Forall no_terminal out -> tidy out.
Proof. intros H. exists out, []. rewrite app_nil_r. auto. Qed.

Lemma tidy_app out1 out2 :
  Forall no_terminal out1 -> tidy out2 -> tidy (out1 ++ out2).
Proof.
  intros H1 (pre & last & -> & Hpre & Hlen).
  exists (out1 ++ pre), last. rewrite app_assoc. repeat split; auto.
  apply Forall_app. auto.
Qed.

Lemma closes_quiet {A} (m : M A) : emits_only no_terminal m -> closes m.
Proof.
  intros H s. specialize (H s). destruct (m s) as [[r s1] out]. cbn [snd] in H.
  split; [now apply tidy_quiet | auto].
Qed.

Lemma closes_emit e : closes (emit e).
Proof.
  intros s. cbn. split; [|intros e0 [=]].
  exists [], [e]. repeat split; auto.
Qed.

Lemma closes_bind {A B} (m : M A) (k : A -> M B) :
  emits_only no_terminal m -> (forall a, closes (k a)) -> closes (bind m k).
Proof.
  intros Hm Hk s. specialize (Hm s). unfold bind.
  destruct (m s) as [[[a|e] s1] out1]; cbn [snd] in Hm.
  - specialize (Hk a s1). destruct (k a s1) as [[r s2] out2].
    destruct Hk as [Ht Hr]. split; [now apply tidy_app|].
    intros e He. apply Forall_app. split; [exact Hm | exact (Hr e He)].
  - split; [now apply tidy_quiet | auto].
Qed.

Lemma closes_try_except {A} (m : M A) h :
  closes m -> (forall e, closes (h e)) -> closes (try_except m h).
Proof.
  intros Hm Hh s. specialize (Hm s). unfold try_except.
  destruct (m s) as [[[a|e] s1] out1]; destruct Hm as [Ht Hr].
  - split; [exact Ht | intros e [=]].
  - specialize (Hh e s1). destruct (h e s1) as [[r s2] out2].
    destruct Hh as [Ht2 Hr2]. specialize (Hr e eq_refl).
    split; [now apply tidy_app|]. intros e' He'. apply Forall_app.
    split; [exact Hr | exact (Hr2 e' He')].
Qed.

Ltac quiet :=
  unfold _try_ffmpeg_export, _build_ffmpeg_select_expression, choose_cmd,
    _check_hardware_acceleration, sort_clips_to_remove, export_prologue,
    scan_segment, extract_clip;
  solve [emits].

Ltac closes_step :=
  match goal with
  | |- closes (emit _) => apply closes_emit
  | |- closes (try_except _ _) => apply closes_try_except; [|intros]
  | |- closes (bind _ _) => apply closes_bind; [quiet | intros]
  | |- closes (match ?x with _ => _ end) => destruct x
  | |- closes (let '(_, _) := ?x in _) => destruct x
  | |- closes _ => apply closes_quiet; quiet
  end.

Lemma moviepy_export_closes w : closes (_moviepy_export w).
Proof. unfold _moviepy_export. repeat closes_step. Qed.

Lemma export_closes w : closes (export w).
Proof.
  unfold export, fallback, export_failed.
  apply closes_try_except; [|intros; apply closes_emit].
  do 2 closes_step. destruct a0.
  - repeat closes_step.
  - closes_step. apply moviepy_export_closes.
Qed.

Lemma analyze_closes w : closes (analyze w).
Proof. unfold analyze. repeat closes_step. Qed.

Lemma run_closes w : closes (run w).
Proof.
  unfold run. apply closes_try_except; [|intros; apply closes_emit].
  closes_step. destruct (mode a); [apply analyze_closes | apply export_closes].
Qed.


(** ** What a run leaves of the object *)

Lemma keeps_ret {A} I (a : A) : keeps I (ret a).
Proof. intros s H. exact H. Qed.

Lemma keeps_raise {A} I e : keeps I (@raise A e).
Proof. intros s H. exact H. Qed.

Lemma keeps_lift {A} I (o : outcome A) : keeps I (lift o).
Proof. intros s H. exact H. Qed.

Lemma keeps_get_self I : keeps I get_self.
Proof. intros s H. exact H. Qed.

Lemma keeps_emit I e : keeps I (emit e).
Proof. intros s H. exact H. Qed.

Lemma keeps_call {A} I c (o : outcome A) : keeps I (call c o).
Proof. intros s H. exact H. Qed.

Lemma keeps_now I w : keeps I (now w).
Proof. intros s H. exact H. Qed.

Lemma keeps_set_self (I : VideoProcessor -> Prop) f :
  (forall p, I p -> I (f p)) -> keeps I (set_self f).
Proof. intros Hf s H. cbn. auto. Qed.

Lemma keeps_bind {A B} I (m : M A) (k : A -> M B) :
  keeps I m -> (forall a, keeps I (k a)) -> keeps I (bind m k).
Proof.
  intros Hm Hk s H. specialize (Hm s H). unfold bind.
  destruct (m s) as [[[a|e] s1] out1]; cbn [fst snd] in *; [|exact Hm].
  specialize (Hk a s1 Hm). destruct (k a s1) as [[r s2] out2]. exact Hk.
Qed.

Lemma keeps_try_except {A} I (m : M A) h :
  keeps I m -> (forall e, keeps I (h e)) -> keeps I (try_except m h).
Proof.
  intros Hm Hh s H. specialize (Hm s H). unfold try_except.
  destruct (m s) as [[[a|e] s1] out1]; cbn [fst snd] in *; [exact Hm|].
  specialize (Hh e s1 Hm). destruct (h e s1) as [[r s2] out2]. exact Hh.
Qed.

Lemma keeps_for_each {A B} I (xs : list A) (body : B -> A -> M B) :
  (forall acc x, keeps I (body acc x)) ->
  forall acc, keeps I (for_each xs body acc).
Proof.
  intros Hb. induction xs as [|x xs IH]; intros acc; cbn [for_each].
  - apply keeps_ret.
  - apply keeps_bind; auto.
Qed.

Lemma keeps_calculate_eta I w n : keeps I (calculate_eta w n).
Proof.
  intros s H. destruct (calculate_eta_run w n s) as (eta & c & E).
  rewrite E. exact H.
Qed.

Lemma keeps_report I w n label :
  blind_to_progress I -> keeps I (report w n label).
Proof.
  intros HI s H. destruct (report_run w n label s) as (eta & c & E).
  rewrite E. cbn. now apply HI.
Qed.

Ltac keeps_step HI :=
  match goal with
  | |- keeps _ (ret _) => apply keeps_ret
  | |- keeps _ (raise _) => apply keeps_raise
  | |- keeps _ (lift _) => apply keeps_lift
  | |- keeps _ get_self => apply keeps_get_self
  | |- keeps _ (emit _) => apply keeps_emit
  | |- keeps _ (call _ _) => apply keeps_call
  | |- keeps _ (now _) => apply keeps_now
  | |- keeps _ (calculate_eta _ _) => apply keeps_calculate_eta
  | |- keeps _ (report _ _ _) => apply keeps_report; exact HI
  | |- keeps _ (set_self (set_current_step _)) =>
      apply keeps_set_self; intros; now apply HI
  | |- keeps _ (set_self (set_total_steps _)) =>
      apply keeps_set_self; intros; now apply HI
  | |- keeps _ (set_self (set_start_time _)) =>
      apply keeps_set_self; intros; now apply HI
  | |- keeps _ (bind _ _) => apply keeps_bind; [|intros]
  | |- keeps _ (try_except _ _) => apply keeps_try_except; [|intros]
  | |- keeps _ (for_each _ _ _) => apply keeps_for_each; intros
  | |- keeps _ (match ?x with _ => _ end) => destruct x
  | |- keeps _ (let '(_, _) := ?x in _) => destruct x
  end.

Section Keeping.

Variable w : World.
Variable I : VideoProcessor -> Prop.
Hypothesis I_blind : blind_to_progress I.
Hypothesis I_sorted :
  forall p, I p -> I (set_clips_to_remove (sort_by_start (clips_to_remove p)) p).

Lemma keeps_sort_clips : keeps I sort_clips_to_remove.
Proof. apply keeps_set_self. exact I_sorted. Qed.

Lemma keeps_try_ffmpeg_export : keeps I (_try_ffmpeg_export w).
Proof.
  pose proof keeps_sort_clips.
  unfold _try_ffmpeg_export, _build_ffmpeg_select_expression, choose_cmd,
    _check_hardware_acceleration.
  repeat first [assumption | keeps_step I_blind].
Qed.

Lemma keeps_moviepy_export : keeps I (_moviepy_export w).
Proof.
  pose proof keeps_sort_clips.
  unfold _moviepy_export, extract_clip.
  repeat first [assumption | keeps_step I_blind].
Qed.

Lemma keeps_export_prologue : keeps I (export_prologue w).
Proof. unfold export_prologue. repeat keeps_step I_blind. Qed.

Lemma keeps_export : keeps I (export w).
Proof.
  pose proof keeps_try_ffmpeg_export. pose proof keeps_moviepy_export.
  pose proof keeps_export_prologue.
  unfold export, fallback, export_failed.
  repeat first [assumption | keeps_step I_blind].
Qed.

Lemma keeps_analyze : keeps I (analyze w).
Proof.
  unfold analyze, scan_segment.
  repeat first [assumption | keeps_step I_blind].
Qed.

End Keeping.

Lemma leads_bind {A B} (P Q R : VideoProcessor -> Prop) (m : M A) (k : A -> M B) :
  leads P Q m -> (forall a, leads Q R (k a)) -> (forall p, Q p -> R p) ->
  leads P R (bind m k).
Proof.
  intros Hm Hk HQR s H. specialize (Hm s H). unfold bind.
  destruct (m s) as [[[a|e] s1] out1]; cbn [fst snd] in *; [|auto].
  specialize (Hk a s1 Hm). destruct (k a s1) as [[r s2] out2]. exact Hk.
Qed.

Lemma leads_try_except {A} (P Q R : VideoProcessor -> Prop) (m : M A) h :
  leads P Q m -> (forall e, leads Q R (h e)) -> (forall p, Q p -> R p) ->
  leads P R (try_except m h).
Proof.
  intros Hm Hh HQR s H. specialize (Hm s H). unfold try_except.
  destruct (m s) as [[[a|e] s1] out1]; cbn [fst snd] in *; [auto|].
  specialize (Hh e s1 Hm). destruct (h e s1) as [[r s2] out2]. exact Hh.
Qed.

Lemma same_but_clips_blind p0 clips : blind_to_progress (same_but_clips p0 clips).
Proof. intros p H. repeat split; intros; apply H. Qed.

Lemma same_but_clips_sorted p0 clips p :
  same_but_clips p0 (sort_by_start clips) p ->
  same_but_clips p0 (sort_by_start clips)
    (set_clips_to_remove (sort_by_start (clips_to_remove p)) p).
Proof.
  intros (? & ? & ? & ? & ? & Hc). repeat split; auto.
  cbn. rewrite Hc. apply sort_by_start_idem.
Qed.

(** The primary attempt sorts the clips and changes nothing else. *)
Lemma try_ffmpeg_export_sorts w p0 :
  leads (same_but_clips p0 (clips_to_remove p0))
    (same_but_clips p0 (sort_by_start (clips_to_remove p0)))
    (_try_ffmpeg_export w).
Proof.
  pose proof (same_but_clips_blind p0 (sort_by_start (clips_to_remove p0))) as HI.
  assert (keeps (same_but_clips p0 (sort_by_start (clips_to_remove p0)))
            sort_clips_to_remove) as Hsort.
  { apply keeps_set_self. apply same_but_clips_sorted. }
  unfold _try_ffmpeg_export.
  apply (leads_try_except _ (same_but_clips p0 (sort_by_start (clips_to_remove p0))));
    [| intros; match goal with |- leads ?I ?I ?m => change (keeps I m) end;
       repeat keeps_step HI | auto].
  apply (leads_bind _ (same_but_clips p0 (sort_by_start (clips_to_remove p0))));
    [| intros | auto].
  - intros s (? & ? & ? & ? & ? & Hc). repeat split; auto. cbn. now rewrite Hc.
  - unfold _build_ffmpeg_select_expression, choose_cmd,
      _check_hardware_acceleration.
    match goal with |- leads ?I ?I ?m => change (keeps I m) end.
    repeat first [assumption | keeps_step HI].
Qed.

Lemma leads_bind_returns {A B} (P Q R : VideoProcessor -> Prop)
    (m : M A) (k : A -> M B) :
  returns m -> leads P Q m -> (forall a, leads Q R (k a)) ->
  leads P R (bind m k).
Proof.
  intros Hr Hm Hk s H. specialize (Hm s H). destruct (Hr s) as [a Ha].
  unfold bind. destruct (m s) as [[r s1] out1]. cbn [fst snd] in *. subst r.
  specialize (Hk a s1 Hm). destruct (k a s1) as [[r s2] out2]. exact Hk.
Qed.

Lemma export_prologue_returns w : returns (export_prologue w).
Proof.
  intros s. destruct (export_prologue_run w s) as (eta & c & E).
  rewrite E. exists tt. reflexivity.
Qed.

(** X2: an export run sorts [clips_to_remove] by start, in place, and
    changes nothing else of what the caller gave: the paths, the filler
    words, the threshold and the mode are as before. *)
Theorem export_only_sorts_clips w s :
  same_but_clips (self s) (sort_by_start (clips_to_remove (self s)))
    (self (state_after (export w) s)).
Proof.
  set (p0 := self s).
  pose proof (same_but_clips_blind p0 (clips_to_remove p0)) as HI0.
  pose proof (same_but_clips_blind p0 (sort_by_start (clips_to_remove p0))) as HI1.
  assert (leads (same_but_clips p0 (clips_to_remove p0))
            (same_but_clips p0 (sort_by_start (clips_to_remove p0)))
            (export w)) as H.
  { unfold export.
    apply (leads_try_except _ (same_but_clips p0 (sort_by_start (clips_to_remove p0))));
      [| intros; unfold export_failed;
         match goal with |- leads ?I ?I ?m => change (keeps I m) end;
         repeat keeps_step HI1 | auto].
    apply (leads_bind_returns _ (same_but_clips p0 (clips_to_remove p0)));
      [apply export_prologue_returns | now apply keeps_export_prologue |].
    intros _.
    apply (leads_bind _ (same_but_clips p0 (sort_by_start (clips_to_remove p0))));
      [apply try_ffmpeg_export_sorts | | auto].
    intros ok. match goal with |- leads ?I ?I ?m => change (keeps I m) end.
    destruct ok; [repeat keeps_step HI1|].
    unfold fallback. apply keeps_bind; [apply keeps_emit|]. intros _.
    apply keeps_moviepy_export; [exact HI1|]. apply same_but_clips_sorted. }
  apply H. unfold p0. repeat split.
Qed.

(** ** The signal of a finished export *)

Lemma try_ffmpeg_export_no_finished_export w :
  emits_only no_finished_export (_try_ffmpeg_export w).
Proof. quiet. Qed.

Lemma export_prologue_no_finished_export w :
  emits_only no_finished_export (export_prologue w).
Proof. quiet. Qed.

Lemma fallback_no_finished_export w :
  emits_only no_finished_export (try_except (fallback w) export_failed).
Proof.
  unfold fallback, export_failed, _moviepy_export, extract_clip,
    sort_clips_to_remove. emits.
Qed.

Lemma try_ffmpeg_export_no_fallback_call w :
  emits_only no_fallback_call (_try_ffmpeg_export w).
Proof. quiet. Qed.

Lemma export_prologue_no_fallback_call w :
  emits_only no_fallback_call (export_prologue w).
Proof. quiet. Qed.

(** After a [True] from the primary attempt the run reports 100 and
    emits [finished_export]. *)
Lemma export_after_success w s :
  result_of (_try_ffmpeg_export w) (state_after (export_prologue w) s)
    = Returned true ->
  exists eta,
    events_of (export w) s =
    events_of (export_prologue w) s
      ++ events_of (_try_ffmpeg_export w) (state_after (export_prologue w) s)
      ++ [progress 100 "导出完成！" eta;
          finished_export
            (output_path
               (self (state_after (_try_ffmpeg_export w)
                        (state_after (export_prologue w) s))))].
Proof.
  destruct (export_prologue_run w s) as (eta & c & E).
  unfold state_after, result_of, events_of, export. rewrite E. cbn [fst snd].
  unfold try_except. unfold bind at 1. rewrite E. unfold bind at 1.
  destruct (_try_ffmpeg_export w _) as [[r s2] out2]. cbn [fst snd].
  intros ->.
  match goal with |- context [report w ?n ?l] =>
    destruct (report_run w n l s2) as (eta2 & c2 & E2) end.
  unfold bind at 1. rewrite E2. exists eta2.
  unfold bind, get_self, emit. cbn. reflexivity.
Qed.

Lemma Forall_not_in (P : Event -> Prop) (x : Event) l :
  Forall P l -> ~ P x -> ~ In x l.
Proof. intros H Hx Hin. rewrite Forall_forall in H. exact (Hx (H x Hin)). Qed.

(** X3: [finished_export] is emitted exactly when the primary attempt
    answers [True]; it is then the last event, carries the output path
    that the caller set, and neither MoviePy nor [torch] has been called.
    A run that goes through the fallback never emits it. *)
Theorem finished_export_iff_primary_success w s :
  let primary_result :=
    result_of (_try_ffmpeg_export w) (state_after (export_prologue w) s) in
  (forall path, In (finished_export path) (events_of (export w) s) ->
                primary_result = Returned true /\ path = output_path (self s)) /\
  (primary_result = Returned true ->
   ends_with (finished_export (output_path (self s))) (events_of (export w) s) /\
   Forall no_fallback_call (events_of (export w) s)).
Proof.
  cbv zeta.
  assert (output_path
            (self (state_after (_try_ffmpeg_export w)
                     (state_after (export_prologue w) s)))
          = output_path (self s)) as Hpath.
  { pose proof (keeps_export_prologue w (same_but_clips (self s)
                  (clips_to_remove (self s)))
                  (same_but_clips_blind _ _) s) as H1.
    pose proof (try_ffmpeg_export_sorts w (self s)
                  (state_after (export_prologue w) s)) as H2.
    apply H2. apply H1. repeat split. }
  destruct (try_ffmpeg_export_returns w (state_after (export_prologue w) s))
    as [ok Hok].
  fold (result_of (_try_ffmpeg_export w) (state_after (export_prologue w) s))
    in Hok.
  split.
  - intros path Hin. destruct ok.
    + split; [exact Hok|].
      destruct (export_after_success w s Hok) as [eta E]. rewrite E in Hin.
      apply in_app_or in Hin as [Hin|Hin].
      { exfalso. revert Hin. apply (Forall_not_in no_finished_export); auto.
        apply export_prologue_no_finished_export. }
      apply in_app_or in Hin as [Hin|Hin].
      { exfalso. revert Hin. apply (Forall_not_in no_finished_export); auto.
        apply try_ffmpeg_export_no_finished_export. }
      destruct Hin as [Hin|[Hin|[]]]; [discriminate Hin|].
      injection Hin as <-. exact Hpath.
    + exfalso. rewrite (export_after_failure w s Hok) in Hin.
      apply in_app_or in Hin as [Hin|Hin].
      { revert Hin. apply (Forall_not_in no_finished_export); auto.
        apply export_prologue_no_finished_export. }
      apply in_app_or in Hin as [Hin|Hin].
      { revert Hin. apply (Forall_not_in no_finished_export); auto.
        apply try_ffmpeg_export_no_finished_export. }
      revert Hin. apply (Forall_not_in no_finished_export); auto.
      apply fallback_no_finished_export.
  - intros Htrue. destruct (export_after_success w s Htrue) as [eta E].
    rewrite E, Hpath. split.
    + repeat first [apply ends_with_one | apply ends_with_cons | apply ends_with_app].
    + apply Forall_app. split; [apply export_prologue_no_fallback_call|].
      apply Forall_app. split; [apply try_ffmpeg_export_no_fallback_call|].
      repeat constructor.
Qed.

(** ** How a detection run ends *)

Lemma concludes_emit (P : Event -> Prop) e : P e -> concludes P (emit e).
Proof. intros H s. cbn. exists [], e. repeat split; auto. Qed.

Lemma concludes_bind {A B} P (m : M A) (k : A -> M B) :
  emits_only no_terminal m -> (forall a, concludes P (k a)) ->
  concludes P (bind m k).
Proof.
  intros Hm Hk s. specialize (Hm s). unfold bind.
  destruct (m s) as [[[a|e] s1] out1]; cbn [snd] in Hm; [|exact Hm].
  specialize (Hk a s1). destruct (k a s1) as [[[b|e] s2] out2].
  - destruct Hk as (pre & t & -> & Hpre & Ht).
    exists (out1 ++ pre), t. rewrite app_assoc. repeat split; auto.
    apply Forall_app. auto.
  - apply Forall_app. auto.
Qed.

Ltac concludes_step :=
  match goal with
  | |- concludes _ (emit _) => apply concludes_emit
  | |- concludes _ (bind _ _) => apply concludes_bind; [quiet | intros]
  | |- concludes _ (match ?x with _ => _ end) => destruct x
  | |- concludes _ (let '(_, _) := ?x in _) => destruct x
  end.


Lemma analyze_returns w : returns (analyze w).
Proof.
  unfold analyze. apply try_except_returns. intros e s. exists tt. reflexivity.
Qed.

Lemma export_returns w : returns (export w).
Proof.
  unfold export. apply try_except_returns. intros e s. exists tt. reflexivity.
Qed.

(** X5: [run] never raises, and its events are those of [analyze] or of
    [export], by the mode: both catch every exception themselves, so the
    handler of [run] and its text are never used. *)
Theorem run_is_its_mode w s :
  result_of (run w) s = Returned tt /\
  events_of (run w) s =
  match mode (self s) with
  | mode_analyze => events_of (analyze w) s
  | mode_export => events_of (export w) s
  end.
Proof.
  unfold result_of, events_of, run, try_except, bind, get_self. cbn [fst snd].
  destruct (mode (self s)).
  - destruct (analyze_returns w s) as [[] Ha].
    destruct (analyze w s) as [[r s1] out]. cbn [fst] in Ha. subst r.
    split; reflexivity.
  - destruct (export_returns w s) as [[] Ha].
    destruct (export w s) as [[r s1] out]. cbn [fst] in Ha. subst r.
    split; reflexivity.
Qed.

(** ** The calls of the fallback *)

Lemma externals_app a b : externals (a ++ b) = externals a ++ externals b.
Proof. apply flat_map_app. Qed.

Lemma externals_cons e l : externals (e :: l) = call_of e ++ externals l.
Proof. reflexivity. Qed.

(** Rewriting with the run of a loop, up to the conversion of its
    arguments. *)
Ltac rewrite_loop E :=
  match type of E with
  | for_each _ _ _ _ = ?rhs =>
      match goal with
      | |- context [for_each ?xs ?b ?acc ?s0] =>
          let H := fresh in
          assert (H : for_each xs b acc s0 = rhs) by exact E;
          rewrite H; clear H
      end
  end.

(** The loop of the fallback when every extraction returns. *)
Lemma extract_loop_run w total : forall keep i fc s,
  (forall iv, In iv keep -> subclip w (fst iv) (snd iv) = Returned tt) ->
  exists s' out,
    for_each keep (extract_clip w total) (i, fc) s
    = (Returned ((i + List.length keep)%nat, fc ++ keep), s', out) /\
    externals out = map subclip_call keep /\
    output_path (self s') = output_path (self s) /\
    Forall no_terminal out.
Proof.
  induction keep as [|[t_start t_end] keep IH]; intros i fc s Hok.
  - exists s, []. cbn. rewrite Nat.add_0_r, app_nil_r. auto.
  - cbn [for_each]. unfold extract_clip at 1.
    match goal with |- context [report w ?n ?l] =>
      destruct (report_run w n l s) as (eta & c & E) end.
    unfold bind at 1. unfold bind at 1. rewrite E. unfold bind at 1.
    unfold call at 1.
    pose proof (Hok (t_start, t_end) (or_introl eq_refl)) as Hhead.
    cbn [fst snd] in Hhead. rewrite Hhead. unfold ret at 1.
    destruct (IH (S i) (fc ++ [(t_start, t_end)])
                {| self := set_current_step
                             (clip_progress total i) (self s);
                   clock := c |}) as (s' & out & Erun & Hext & Hpath & Hquiet).
    { intros iv Hiv. apply Hok. now right. }
    unfold clip_progress in Erun.
    exists s'. eexists. rewrite_loop Erun. split; [|split; [|split]].
    + cbn [List.length]. rewrite <- app_assoc.
      replace (i + S (List.length keep))%nat with (S i + List.length keep)%nat
        by lia.
      reflexivity.
    + rewrite !externals_app, Hext. reflexivity.
    + rewrite Hpath. reflexivity.
    + repeat (constructor; [exact I|]). exact Hquiet.
Qed.

(** The loop of the fallback when an extraction raises: the loop stops
    there. *)
Lemma extract_loop_raises w total e bad after : forall done i fc s,
  (forall iv, In iv done -> subclip w (fst iv) (snd iv) = Returned tt) ->
  subclip w (fst bad) (snd bad) = Raised e ->
  exists s' out,
    for_each (done ++ bad :: after) (extract_clip w total) (i, fc) s
    = (Raised e, s', out) /\
    externals out = map subclip_call (done ++ [bad]).
Proof.
  induction done as [|[t_start t_end] done IH]; intros i fc s Hok Hbad.
  - cbn [app for_each]. unfold extract_clip at 1. destruct bad as [b1 b2].
    match goal with |- context [report w ?n ?l] =>
      destruct (report_run w n l s) as (eta & c & E) end.
    unfold bind at 1. unfold bind at 1. rewrite E. unfold bind at 1.
    unfold call at 1. cbn [fst snd] in Hbad. 
    eexists. eexists. rewrite Hbad. split; reflexivity.
  - cbn [app for_each]. unfold extract_clip at 1.
    match goal with |- context [report w ?n ?l] =>
      destruct (report_run w n l s) as (eta & c & E) end.
    unfold bind at 1. unfold bind at 1. rewrite E. unfold bind at 1.
    unfold call at 1.
    pose proof (Hok (t_start, t_end) (or_introl eq_refl)) as Hhead.
    cbn [fst snd] in Hhead. rewrite Hhead. unfold ret at 1.
    destruct (IH (S i) (fc ++ [(t_start, t_end)])
                {| self := set_current_step
                             (clip_progress total i) (self s);
                   clock := c |}) as (s' & out & Erun & Hext).
    { intros iv Hiv. apply Hok. now right. }
    { exact Hbad. }
    unfold clip_progress in Erun.
    exists s'. eexists. rewrite_loop Erun. split; [reflexivity|].
    rewrite !externals_app, Hext. reflexivity.
Qed.

(** The run of the fallback when every collaborator returns. *)
Lemma moviepy_export_run w s cuda D' :
  let path := video_path (self s) in
  let keep := clips_to_keep_times_of (clips_to_remove (self s)) D' in
  torch_cuda_is_available w = Returned cuda ->
  VideoFileClip w path = Returned D' ->
  keep <> [] ->
  (forall iv, In iv keep -> subclip w (fst iv) (snd iv) = Returned tt) ->
  write_videofile w keep (output_path (self s)) = Returned tt ->
  exists s' out,
    _moviepy_export w s = (Returned tt, s', out) /\
    externals out =
    [call_torch; call_VideoFileClip path]
      ++ map subclip_call keep
      ++ [call_write_videofile keep (output_path (self s))] /\
    Forall no_terminal out /\
    exists eta, ends_with (progress 100 "导出完成！" eta) out.
Proof.
  intros path keep Ht Hv Hne Hsub Hwrite.
  unfold clips_to_keep_times_of in keep.
  unfold _moviepy_export, try_except.
  unfold bind at 1. unfold call at 1. rewrite Ht.
  unfold bind at 1.
  assert ((if cuda then emit (status "检测到CUDA，使用GPU加速视频处理...")
           else ret tt) s
          = (Returned tt, s, if cuda then [status cuda_notice] else [])) as ->
    by (destruct cuda; reflexivity).
  unfold bind at 1. unfold get_self at 1.
  unfold bind at 1. unfold call at 1. fold path. rewrite Hv.
  unfold bind at 1. unfold sort_clips_to_remove, set_self at 1.
  unfold bind at 1. unfold get_self at 1.
  cbn [self clock clips_to_remove set_clips_to_remove output_path].
  fold keep. destruct keep as [|k keep'] eqn:Ek; [congruence|].
  rewrite <- Ek in *. clear Ek k keep'.
  unfold bind at 1.
  match goal with |- context [report w ?n ?l ?s0] =>
    destruct (report_run w n l s0) as (eta & c & E); rewrite E end.
  unfold bind at 1.
  match goal with |- context [for_each keep ?body ?acc ?s0] =>
    destruct (extract_loop_run w (List.length keep) keep 0 [] s0 Hsub)
      as (s' & out & Erun & Hext & Hpath & Hquiet)
  end.
  rewrite_loop Erun. cbn [app].
  unfold bind at 1.
  match goal with |- context [report w ?n ?l s'] =>
    destruct (report_run w n l s') as (eta2 & c2 & E2); rewrite E2 end.
  unfold bind at 1. unfold call at 1.
  cbn [self clock output_path set_current_step] in *.
  rewrite Hwrite.
  match goal with |- context [report w ?n ?l ?s0] =>
    destruct (report_run w n l s0) as (eta3 & c3 & E3); rewrite E3 end.
  eexists. eexists. split; [reflexivity|]. split; [|split].
  - repeat (rewrite ?externals_cons, ?externals_app). rewrite Hext.
    destruct cuda; reflexivity.
  - constructor; [exact I|]. apply Forall_app. split; [destruct cuda; repeat constructor|].
    repeat (constructor; [exact I|]). apply Forall_app. split; [exact Hquiet|].
    repeat constructor.
  - exists eta3.
    repeat first [apply ends_with_one | apply ends_with_cons | apply ends_with_app].
Qed.


(** X7: when the extraction of a kept interval raises, the fallback stops
    there: it raises the same exception, the intervals after the failing
    one are not extracted and nothing is written. *)
Theorem fallback_stops_at_failed_extraction w s cuda D' e done bad after :
  let path := video_path (self s) in
  torch_cuda_is_available w = Returned cuda ->
  VideoFileClip w path = Returned D' ->
  clips_to_keep_times_of (clips_to_remove (self s)) D' = done ++ bad :: after ->
  (forall iv, In iv done -> subclip w (fst iv) (snd iv) = Returned tt) ->
  subclip w (fst bad) (snd bad) = Raised e ->
  result_of (_moviepy_export w) s = Raised e /\
  externals (events_of (_moviepy_export w) s) =
  [call_torch; call_VideoFileClip path] ++ map subclip_call (done ++ [bad]).
Proof.
  intros path Ht Hv Hkeep Hdone Hbad.
  unfold clips_to_keep_times_of in Hkeep.
  assert (exists s' out,
    _moviepy_export w s = (Raised e, s', out) /\
    externals out =
    [call_torch; call_VideoFileClip path] ++ map subclip_call (done ++ [bad]))
    as (s' & out & E & Hext).
  { unfold _moviepy_export, try_except.
    unfold bind at 1. unfold call at 1. rewrite Ht.
    unfold bind at 1.
    assert ((if cuda then emit (status "检测到CUDA，使用GPU加速视频处理...")
             else ret tt) s
            = (Returned tt, s, if cuda then [status cuda_notice] else [])) as ->
      by (destruct cuda; reflexivity).
    unfold bind at 1. unfold get_self at 1.
    unfold bind at 1. unfold call at 1. fold path. rewrite Hv.
    unfold bind at 1. unfold sort_clips_to_remove, set_self at 1.
    unfold bind at 1. unfold get_self at 1.
    cbn [self clock clips_to_remove set_clips_to_remove output_path].
    rewrite Hkeep. clear Hkeep.
    destruct (done ++ bad :: after) as [|k keep'] eqn:Ek;
      [now destruct done|]. rewrite <- Ek. clear Ek k keep'.
    unfold bind at 1.
    match goal with |- context [report w ?n ?l ?s0] =>
      destruct (report_run w n l s0) as (eta & c & E); rewrite E end.
    unfold bind at 1.
    match goal with |- context [for_each _ ?body ?acc ?s0] =>
      destruct (extract_loop_raises w (List.length (done ++ bad :: after))
                  e bad after done 0 [] s0 Hdone Hbad)
        as (s' & out & Erun & Hext)
    end.
    rewrite_loop Erun. unfold raise.
    eexists. eexists. split; [reflexivity|].
    repeat (rewrite ?externals_cons, ?externals_app). rewrite Hext.
    destruct cuda; cbn; now rewrite ?app_nil_r. }
  unfold result_of, events_of. rewrite E. split; [reflexivity | exact Hext].
Qed.


Lemma fallback_stops_at_failed_extraction_witness :
  result_of (_moviepy_export broken_world)
    (running_state [removal 1 3; removal 4 5])
  = Raised "read error"%string /\
  externals (events_of (_moviepy_export broken_world)
               (running_state [removal 1 3; removal 4 5]))
  = [call_torch; call_VideoFileClip "in.mp4";
     call_subclip 0 1; call_subclip 3 4].
Proof.
  apply (fallback_stops_at_failed_extraction broken_world
           (running_state [removal 1 3; removal 4 5]) false 6
           "read error"%string [(0, 1)] (3, 4) [(5, 6)]).
  - reflexivity.
  - reflexivity.
  - reflexivity.
  - intros iv [<-|[]]. reflexivity.
  - reflexivity.
Defined.


(** ** Pages of the clip list *)

Lemma slice_within {A} (l : list A) (a b : Z) :
  (0 <= a)%Z -> (b <= Z.of_nat (List.length l))%Z -> (0 <= b)%Z ->
  Window.slice l a b = firstn (Z.to_nat (b - Z.min a (Z.of_nat (List.length l))))
                         (skipn (Z.to_nat a) l).
Proof.
  intros Ha Hb Hb0. unfold Window.slice, Window.slice_bound.
  destruct (Z.ltb_spec a 0); [lia|]. destruct (Z.ltb_spec b 0); [lia|].
  rewrite (Z.min_l b) by lia.
  destruct (Z.le_gt_cases a (Z.of_nat (List.length l))) as [Hle|Hgt].
  - rewrite (Z.min_l a) by lia. reflexivity.
  - rewrite (Z.min_r a) by lia.
    rewrite !skipn_all2 by lia. now rewrite !firstn_nil.
Qed.

Lemma ceil_pages n ps :
  (0 <= n)%Z -> (0 < ps)%Z ->
  ((n + ps - 1) / ps * ps >= n)%Z /\ (((n + ps - 1) / ps - 1) * ps < n \/ n = 0)%Z.
Proof.
  intros Hn Hps.
  pose proof (Z.div_mod (n + ps - 1) ps ltac:(lia)) as E.
  pose proof (Z.mod_pos_bound (n + ps - 1) ps Hps) as B.
  split; [nia|].
  destruct (Z.eq_dec n 0); [now right|left]. nia.
Qed.

Lemma populate_clip_list_run mw :
  (0 < Window.page_size_spin mw)%Z -> (1 <= Window.current_page mw)%Z ->
  exists mw',
    Window.populate_clip_list mw = Returned mw' /\
    Window.shows_page mw' /\
    Window.clips mw' = Window.clips mw /\
    Window.video_path mw' = Window.video_path mw /\
    Window.page_size_spin mw' = Window.page_size_spin mw /\
    Window.page_size mw' = Window.page_size_spin mw /\
    Window.current_page mw'
    = Z.min (Window.current_page mw) (Window.total_pages mw') /\
    Forall (fun r => Window.checked r = true) (Window.clip_table mw').
Proof.
  intros Hps Hcur. unfold Window.populate_clip_list.
  destruct (Z.eqb_spec (Window.page_size_spin mw) 0) as [E|_]; [lia|].
  eexists. split; [reflexivity|].
  unfold Window.shows_page.
  cbn [Window.clips Window.video_path Window.page_size_spin Window.page_size
       Window.current_page Window.total_pages Window.clip_table].
  repeat split; try lia.
  - rewrite map_map. cbn [Window.shown]. now rewrite map_id.
  - apply Forall_forall. intros r Hin. apply in_map_iff in Hin as (c & <- & _).
    reflexivity.
Qed.

Lemma getitem_at {A} (l : list A) (k : nat) (x : A) (i : Z) :
  nth_error l k = Some x -> i = Z.of_nat k ->
  Window.getitem l i = Returned x.
Proof.
  intros Hk ->.
  assert (k < List.length l)%nat as Hlt by (apply nth_error_Some; congruence).
  unfold Window.getitem.
  destruct (Z.ltb_spec (Z.of_nat k) 0); [lia|].
  destruct (Z.leb_spec 0 (Z.of_nat k)); [|lia].
  destruct (Z.ltb_spec (Z.of_nat k) (Z.of_nat (List.length l))); [|lia].
  cbn [andb]. now rewrite Nat2Z.id, Hk.
Qed.

(** On a shown page the row [i] shows the clip of number
    [(current_page - 1) * page_size + i]. *)
Lemma shows_page_rows mw :
  Window.shows_page mw ->
  let a := ((Window.current_page mw - 1) * Window.page_size mw)%Z in
  let n := Z.of_nat (List.length (Window.clips mw)) in
  (0 <= a)%Z /\
  (Window.clips mw <> [] -> (a < n)%Z) /\
  List.length (Window.clip_table mw)
  = Z.to_nat (Z.min (a + Window.page_size mw) n - Z.min a n) /\
  forall i r, nth_error (Window.clip_table mw) i = Some r ->
    nth_error (Window.clips mw) (Z.to_nat a + i) = Some (Window.shown r).
Proof.
  intros (Hps & Hcur & Htot & Hrows) a n. fold a n in Hrows.
  assert (0 <= a)%Z as Ha by (unfold a; nia).
  assert (0 <= n)%Z as Hn by (unfold n; lia).
  rewrite slice_within in Hrows by (fold n; lia). fold n in Hrows.
  split; [exact Ha|]. split; [|split].
  - intros Hne.
    assert (0 < n)%Z as Hpos.
    { unfold n. destruct (Window.clips mw); [congruence|cbn; lia]. }
    destruct (ceil_pages n (Window.page_size mw) Hn Hps) as [_ [Hlt|H0]]; [|lia].
    fold n in Htot. unfold a. nia.
  - rewrite <- (length_map Window.shown), Hrows, length_firstn, length_skipn.
    fold n. lia.
  - intros i r Hi.
    assert (nth_error (map Window.shown (Window.clip_table mw)) i
            = Some (Window.shown r)) as Hm
      by (rewrite nth_error_map, Hi; reflexivity).
    rewrite Hrows, nth_error_firstn in Hm.
    destruct Nat.ltb; [|discriminate Hm].
    now rewrite nth_error_skipn in Hm.
Qed.

(** X8: with a positive page size and a page number from 1 on,
    [populate_clip_list] returns, leaves the clips as they are and shows
    a page: the page number is within 1 and the number of pages, the
    table holds at most one page of rows, all ticked, and it is not
    empty when there are clips. *)
Theorem populate_shows_a_page mw :
  (0 < Window.page_size_spin mw)%Z -> (1 <= Window.current_page mw)%Z ->
  exists mw',
    Window.populate_clip_list mw = Returned mw' /\
    Window.clips mw' = Window.clips mw /\
    (1 <= Window.current_page mw' <= Window.total_pages mw')%Z /\
    (Z.of_nat (List.length (Window.clip_table mw')) <= Window.page_size_spin mw)%Z /\
    Forall (fun r => Window.checked r = true) (Window.clip_table mw') /\
    (Window.clips mw <> [] -> Window.clip_table mw' <> []).
Proof.
  intros Hps Hcur.
  destruct (populate_clip_list_run mw Hps Hcur)
    as (mw' & E & Hshow & Hclips & _ & _ & Hsize & _ & Hall).
  exists mw'. split; [exact E|]. split; [exact Hclips|].
  destruct (shows_page_rows mw' Hshow) as (Ha & Hlt & Hlen & _).
  destruct Hshow as (Hps' & Hcur' & _).
  split; [exact Hcur'|]. split; [|split; [exact Hall|]].
  - rewrite Hlen, <- Hsize. lia.
  - intros Hne Hnil. rewrite <- Hclips in Hne. specialize (Hlt Hne).
    rewrite Hnil in Hlen. cbn [List.length] in Hlen. lia.
Qed.

Lemma populate_shows_a_page_witness :
  exists mw',
    Window.populate_clip_list
      (Window.set_clips [removal 1 2; removal 3 4] Window.new_window)
    = Returned mw' /\
    Window.clip_table mw'
    = [Window.mkRow true (removal 1 2); Window.mkRow true (removal 3 4)].
Proof.
  destruct (populate_shows_a_page
              (Window.set_clips [removal 1 2; removal 3 4] Window.new_window))
    as (mw' & E & _); [cbn; lia | cbn; lia |].
  exists mw'. split; [exact E|].
  vm_compute in E. injection E as <-. reflexivity.
Defined.


(** X10: a click on a row of a shown page selects the clip that the row
    shows: it is the clip of number [(current_page - 1) * page_size + row]
    of the whole list. *)
Theorem click_selects_shown_clip mw i r :
  Window.shows_page mw ->
  nth_error (Window.clip_table mw) i = Some r ->
  Window.on_clip_selected (Z.of_nat i) mw = Returned (Some (Window.shown r)) /\
  nth_error (Window.clips mw)
    (Z.to_nat ((Window.current_page mw - 1) * Window.page_size mw) + i)
  = Some (Window.shown r).
Proof.
  intros Hshow Hi.
  destruct (shows_page_rows mw Hshow) as (Ha & _ & _ & Hnth).
  specialize (Hnth i r Hi). split; [|exact Hnth].
  assert (Z.to_nat ((Window.current_page mw - 1) * Window.page_size mw) + i
          < List.length (Window.clips mw))%nat as Hlt
    by (apply nth_error_Some; congruence).
  unfold Window.on_clip_selected.
  set (a := ((Window.current_page mw - 1) * Window.page_size mw)%Z) in *.
  destruct (Z.ltb_spec (a + Z.of_nat i)
              (Z.of_nat (List.length (Window.clips mw)))); [|lia].
  rewrite (getitem_at _ (Z.to_nat a + i) (Window.shown r)) by (exact Hnth || lia).
  reflexivity.
Qed.

(** ** The rows that an export and a preview take *)

Lemma preview_selection_run all cur ps : forall rows (j : nat),
  (0 <= (cur - 1) * ps)%Z ->
  (forall i r, nth_error rows i = Some r ->
     nth_error all (Z.to_nat ((cur - 1) * ps) + j + i) = Some (Window.shown r)) ->
  Window.preview_selection all cur ps rows (Z.of_nat j)
  = Returned (Window.ticked rows).
Proof.
  induction rows as [|r rows IH]; intros j Ha Hrows; [reflexivity|].
  cbn [Window.preview_selection].
  replace (Z.of_nat j + 1)%Z with (Z.of_nat (S j)) by lia.
  rewrite (IH (S j) Ha).
  2:{ intros i r' Hi. specialize (Hrows (S i) r' Hi).
      now replace (Z.to_nat ((cur - 1) * ps) + S j + i)%nat
        with (Z.to_nat ((cur - 1) * ps) + j + S i)%nat by lia. }
  unfold Window.ticked. cbn [filter].
  destruct (Window.checked r); [|reflexivity].
  pose proof (Hrows 0%nat r eq_refl) as H0. rewrite Nat.add_0_r in H0.
  assert (Z.to_nat ((cur - 1) * ps) + j < List.length all)%nat as Hlt
    by (apply nth_error_Some; congruence).
  destruct (Z.ltb_spec ((cur - 1) * ps + Z.of_nat j)
              (Z.of_nat (List.length all))); [|lia].
  rewrite (getitem_at _ _ _ _ H0) by lia. reflexivity.
Qed.

Lemma generate_selection_run all : forall rows (j : nat),
  (List.length rows + j <= List.length all)%nat ->
  Window.generate_selection all rows (Z.of_nat j)
  = Returned (Window.by_row_number rows (skipn j all)).
Proof.
  induction rows as [|r rows IH]; intros j Hlen; [reflexivity|].
  cbn [List.length] in Hlen. cbn [Window.generate_selection].
  replace (Z.of_nat j + 1)%Z with (Z.of_nat (S j)) by lia.
  rewrite (IH (S j)) by lia.
  destruct (nth_error all j) as [c|] eqn:Ec;
    [|apply nth_error_None in Ec; lia].
  assert (skipn j all = c :: skipn (S j) all) as ->.
  { clear -Ec. revert all Ec. induction j as [|j IHj]; intros [|x all] Ec;
      try discriminate Ec.
    - now injection Ec as ->.
    - cbn [nth_error] in Ec. change (skipn (S j) (x :: all)) with (skipn j all).
      now rewrite (IHj all Ec). }
  unfold Window.by_row_number. cbn [map combine filter fst].
  destruct (Window.checked r); [|reflexivity].
  now rewrite (getitem_at _ _ _ _ Ec eq_refl).
Qed.

Lemma by_row_number_ticked : forall rows all,
  (forall i r, nth_error rows i = Some r ->
     nth_error all i = Some (Window.shown r)) ->
  Window.by_row_number rows all = Window.ticked rows.
Proof.
  induction rows as [|r rows IH]; intros all Hrows; [reflexivity|].
  pose proof (Hrows 0%nat r eq_refl) as H0.
  destruct all as [|c all]; [discriminate H0|]. injection H0 as ->.
  unfold Window.by_row_number, Window.ticked in *. cbn [map combine filter fst].
  specialize (IH all (fun i r' Hi => Hrows (S i) r' Hi)).
  destruct (Window.checked r); cbn [map snd]; now rewrite IH.
Qed.

Lemma by_row_number_in : forall rows all c,
  In c (Window.by_row_number rows all) ->
  exists i, (i < List.length rows)%nat /\ nth_error all i = Some c.
Proof.
  induction rows as [|r rows IH]; intros all c Hin; [destruct Hin|].
  destruct all as [|x all]; [destruct Hin|].
  unfold Window.by_row_number in *. cbn [map combine filter fst] in Hin.
  assert (c = x \/ In c (map snd (filter fst (combine (map Window.checked rows) all))))
    as [->|Hrest] by (destruct (Window.checked r); [destruct Hin; auto | auto]).
  - exists 0%nat. cbn. split; [lia | reflexivity].
  - destruct (IH all c Hrest) as (i & Hi & Hn). exists (S i). cbn. split; [lia|auto].
Qed.

(** X11: a preview takes the clips of the ticked rows of the page that is
    shown. *)
Theorem preview_takes_ticked_rows mw :
  Window.shows_page mw ->
  Window.preview_selection (Window.clips mw) (Window.current_page mw)
    (Window.page_size mw) (Window.clip_table mw) 0
  = Returned (Window.ticked (Window.clip_table mw)).
Proof.
  intros Hshow. destruct (shows_page_rows mw Hshow) as (Ha & _ & _ & Hnth).
  apply (preview_selection_run _ _ _ _ 0%nat Ha).
  intros i r Hi. rewrite Nat.add_0_r. now apply Hnth.
Qed.

(** X12: [generate_video] numbers the ticked rows from the start of the
    whole list of clips, whatever page is shown, and never fails on a
    shown page.  On the first page the processor gets the clips of the
    ticked rows; on every later page of a list without repetition, none
    of the clips it gets is a clip that the page shows. *)
Theorem generate_video_counts_rows_from_the_start pf mw :
  Window.shows_page mw ->
  let rows := Window.clip_table mw in
  (exists r, Window.generate_video pf mw = Returned r) /\
  (forall p, Window.generate_video pf mw = Returned (Some p) ->
     clips_to_remove p = Window.by_row_number rows (Window.clips mw)) /\
  (Window.current_page mw = 1%Z ->
     Window.by_row_number rows (Window.clips mw) = Window.ticked rows) /\
  (1 < Window.current_page mw ->
   NoDup (Window.clips mw) ->
   forall c, In c (Window.by_row_number rows (Window.clips mw)) ->
             ~ In c (map Window.shown rows))%Z.
Proof.
  intros Hshow rows.
  destruct (shows_page_rows mw Hshow) as (Ha & _ & Hlen & Hnth).
  pose proof Hshow as (Hps & Hcur & _ & _).
  assert (Window.generate_selection (Window.clips mw) rows 0
          = Returned (Window.by_row_number rows (Window.clips mw))) as Hsel.
  { apply (generate_selection_run (Window.clips mw) rows 0%nat).
    fold rows in Hlen. rewrite Hlen. lia. }
  split; [|split; [|split]].
  - unfold Window.generate_video. fold rows. rewrite Hsel.
    destruct String.eqb; [eauto|]. destruct (Window.clips mw); [eauto|].
    destruct Window.by_row_number; [eauto|].
    destruct Window.splitext. eauto.
  - intros p. unfold Window.generate_video. fold rows. rewrite Hsel.
    destruct String.eqb; [discriminate|].
    destruct (Window.clips mw); [discriminate|].
    destruct Window.by_row_number; [discriminate|].
    destruct Window.splitext. intros E. injection E as <-. reflexivity.
  - intros H1. apply by_row_number_ticked. intros i r Hi.
    specialize (Hnth i r Hi). rewrite H1 in Hnth. exact Hnth.
  - intros Hlater Hnodup c Hin Hshown.
    apply by_row_number_in in Hin as (i & Hi & Hc).
    apply in_map_iff in Hshown as (r & <- & Hr).
    apply In_nth_error in Hr as (k & Hk).
    specialize (Hnth k r Hk).
    assert (i < List.length (Window.clips mw))%nat as Hil
      by (apply nth_error_Some; congruence).
    pose proof (proj1 (NoDup_nth_error _) Hnodup i _ Hil
                  (eq_trans Hc (eq_sym Hnth))) as Heq.
    fold rows in Hlen. rewrite Hlen in Hi. nia.
Qed.

(** ** Clips of a transcript in time order *)

Lemma StronglySorted_app_one {A} (R : A -> A -> Prop) l x :
  StronglySorted R l -> Forall (fun y => R y x) l -> StronglySorted R (l ++ [x]).
Proof.
  intros Hs Hx. induction Hs as [|y l Hs IH Hy]; cbn.
  - repeat constructor.
  - inversion Hx as [|? ? Hyx Hl]; subst. constructor; [now apply IH|].
    apply Forall_app. split; [exact Hy | now constructor].
Qed.


Lemma scan_word_in_order fw tau found last t :
  0 <= tau -> 0 <= last ->
  last <= w_start t -> w_start t <= w_end t ->
  found_before found last ->
  found_before (fst (scan_word fw tau (found, last) t)) (w_end t).
Proof.
  intros Htau Hlast Hs He (Hsort & Hfw & Hend).
  assert (forall c, 0 <= start c -> start c <= end_ c -> last <= start c ->
            end_ c <= w_end t ->
            forall l, found_before l last \/
                      (found_before l (start c)) ->
            found_before (l ++ [c]) (w_end t)) as Hadd.
  { intros c H0 H1 H2 H3 l Hl.
    assert (found_before l (start c)) as (Hs' & Hf' & He').
    { destruct Hl as [(A & B & C)|Hl]; [|exact Hl].
      repeat split; auto. eapply Forall_impl; [|exact C].
      cbn. intros; lra. }
    repeat split.
    - apply StronglySorted_app_one; auto.
    - apply Forall_app. split; [auto|]. repeat constructor; auto.
    - apply Forall_app. split.
      + eapply Forall_impl; [|exact He']. cbn. intros; lra.
      + repeat constructor. auto. }
  assert (found_before found (w_end t)) as Hkeep.
  { repeat split; auto. eapply Forall_impl; [|exact Hend]. cbn. intros; lra. }
  unfold scan_word.
  destruct fgt_dec as [Hgt|Hle]; destruct mem; cbn [fst].
  - apply Hadd; cbn [start end_]; try lra. right.
    assert (found_before (found ++ [mkClip SILENCE last (w_start t) EmptyString])
              (w_end t)) as (A & B & C)
      by (apply Hadd; cbn [start end_]; try lra; left; repeat split; auto).
    repeat split; auto.
    apply Forall_app. split.
    + eapply Forall_impl; [|exact Hend]. cbn. intros; lra.
    + repeat constructor. cbn. lra.
  - apply Hadd; cbn [start end_]; try lra. left. repeat split; auto.
  - apply Hadd; cbn [start end_]; try lra. left. repeat split; auto.
  - exact Hkeep.
Qed.

Lemma detect_in_order fw tau tokens : forall found last,
  0 <= tau -> 0 <= last ->
  in_time_order tokens last ->
  found_before found last ->
  exists last',
    found_before (fst (fold_left (scan_word fw tau) tokens (found, last))) last'.
Proof.
  induction tokens as [|t ts IH]; intros found last Htau Hlast Hord Hfound.
  - exists last. exact Hfound.
  - cbn [fold_left]. destruct Hord as (Hs & He & Hrest).
    pose proof (scan_word_in_order fw tau found last t Htau Hlast Hs He Hfound)
      as Hstep.
    pose proof (scan_word_cursor fw tau (found, last) t) as Hcur.
    destruct (scan_word fw tau (found, last) t) as [found' last'].
    cbn [fst snd] in *. subst last'.
    apply IH; auto. lra.
Qed.

(** The clips of the ticked rows are picked in the order of the list. *)
Lemma StronglySorted_by_row_number (R : Clip -> Clip -> Prop) : forall rows all,
  StronglySorted R all -> StronglySorted R (Window.by_row_number rows all).
Proof.
  unfold Window.by_row_number.
  induction rows as [|r rows IH]; intros all Hs; [constructor|].
  destruct all as [|c all]; [constructor|].
  inversion Hs as [|? ? Hs' Hc]; subst. cbn [map combine filter fst].
  specialize (IH all Hs').
  destruct (Window.checked r); [|exact IH]. cbn [map snd].
  constructor; [exact IH|].
  apply Forall_forall. intros x Hx.
  apply (by_row_number_in rows all x) in Hx as (i & _ & Hi).
  rewrite Forall_forall in Hc. apply Hc. eapply nth_error_In. exact Hi.
Qed.

Lemma Forall_by_row_number (P : Clip -> Prop) rows all :
  Forall P all -> Forall P (Window.by_row_number rows all).
Proof.
  intros H. apply Forall_forall. intros x Hx.
  apply by_row_number_in in Hx as (i & _ & Hi).
  rewrite Forall_forall in H. apply H. eapply nth_error_In. exact Hi.
Qed.

(** X13: for a transcript in time order and a threshold that is not
    negative, the clips found are in time order too: each clip ends no
    later than the next one starts, and none ends before it starts.
    Whatever rows of them are ticked, the two export paths keep the same
    intervals. *)
Theorem ordered_transcript_paths_agree fw tau tokens rows D :
  0 <= tau ->
  in_time_order tokens 0 ->
  let found := detect fw tau tokens in
  StronglySorted clip_before found /\
  Forall forward found /\
  Forall2 ieq (keep_times_of (Window.by_row_number rows found) D)
    (clips_to_keep_times_of (Window.by_row_number rows found) D).
Proof.
  intros Htau Hord found.
  destruct (detect_in_order fw tau tokens [] 0 Htau (Qle_refl 0) Hord)
    as (last' & Hsort & Hfw & _).
  { repeat split; constructor. }
  fold (detect fw tau tokens) in Hsort, Hfw. fold found in Hsort, Hfw.
  split; [exact Hsort|]. split; [exact Hfw|].
  pose proof (StronglySorted_by_row_number clip_before rows found Hsort) as Hs.
  pose proof (Forall_by_row_number forward rows found Hfw) as Hf.
  set (sel := Window.by_row_number rows found) in *.
  assert (StronglySorted start_le sel /\ StronglySorted end_le sel) as [Hst Hen].
  { clear -Hs Hf. induction Hs as [|c l Hs IH Hc]; [split; constructor|].
    inversion Hf as [|? ? Hfc Hfl]; subst. destruct (IH Hfl) as [A B].
    split; constructor; auto.
    - apply Forall_forall. intros x Hx. rewrite Forall_forall in Hc, Hfl.
      specialize (Hc x Hx). specialize (Hfl x Hx).
      unfold clip_before, start_le, forward in *. lra.
    - apply Forall_forall. intros x Hx. rewrite Forall_forall in Hc, Hfl.
      specialize (Hc x Hx). specialize (Hfl x Hx).
      unfold clip_before, end_le, forward in *. lra. }
  apply keep_paths_agree.
  - now rewrite (sort_by_start_sorted_id sel Hst).
  - eapply Forall_impl; [|exact Hf]. unfold forward. intros; lra.
Qed.

(** ** The output path *)

Lemma substring_whole : forall s n,
  (String.length s <= n)%nat -> String.substring 0 n s = s.
Proof.
  induction s as [|c s IH]; intros [|n] H; cbn in *; try reflexivity; try lia.
  rewrite IH by lia. reflexivity.
Qed.

Lemma substring_joins : forall p d,
  (String.substring 0 d p ++ String.substring d (String.length p - d) p)%string = p.
Proof.
  induction p as [|c p IH]; intros [|d]; try reflexivity.
  - change (String.substring 0 0 (String c p)) with EmptyString.
    rewrite Nat.sub_0_r. cbn [append]. now apply substring_whole.
  - cbn. f_equal. apply IH.
Qed.

Lemma splitext_joins pf p :
  (fst (Window.splitext pf p) ++ snd (Window.splitext pf p))%string = p.
Proof.
  assert (forall q, (q ++ EmptyString)%string = q) as Hnil
    by (induction q as [|c q IH]; cbn; [reflexivity | now rewrite IH]).
  unfold Window.splitext.
  destruct Z.gtb; [|apply Hnil]. destruct Window.has_stem; [|apply Hnil].
  cbn [fst snd]. apply substring_joins.
Qed.

Lemma rfind_range f : forall p i,
  Window.rfind f p i = (-1)%Z \/ (i <= Window.rfind f p i)%Z.
Proof.
  induction p as [|c p IH]; intros i; cbn [Window.rfind]; [now left|].
  destruct (Z.leb_spec 0 (Window.rfind f p (i + 1))) as [Hr|Hr].
  - destruct (IH (i + 1)%Z); lia.
  - destruct (f c); [right; lia | now left].
Qed.

Lemma rfind_none f : forall p i,
  (0 <= i)%Z -> (Window.rfind f p i < 0)%Z -> free_of f p.
Proof.
  induction p as [|c p IH]; intros i Hi Hr; cbn [free_of]; [exact I|].
  cbn [Window.rfind] in Hr.
  destruct (Z.leb_spec 0 (Window.rfind f p (i + 1))) as [H|H]; [lia|].
  destruct (f c); [lia|]. split; [reflexivity|]. apply (IH (i + 1)%Z); lia.
Qed.

Lemma rfind_found f : forall p i,
  (0 <= i)%Z -> (0 <= Window.rfind f p i)%Z ->
  exists pre c post,
    p = (pre ++ String c post)%string /\ f c = true /\ free_of f post /\
    Window.rfind f p i = (i + Z.of_nat (String.length pre))%Z.
Proof.
  induction p as [|c p IH]; intros i Hi Hr; cbn [Window.rfind] in *; [lia|].
  destruct (Z.leb_spec 0 (Window.rfind f p (i + 1))) as [H|H].
  - destruct (IH (i + 1)%Z ltac:(lia) H) as (pre & c' & post & -> & Hc & Hfree & E).
    exists (String c pre), c', post. cbn [append String.length].
    repeat split; auto. lia.
  - destruct (f c) eqn:Hc; [|lia].
    exists EmptyString, c, p. cbn. repeat split; auto; [|lia].
    apply (rfind_none f p (i + 1)%Z); lia.
Qed.

Lemma substring_prefix : forall pre rest,
  String.substring 0 (String.length pre) (pre ++ rest) = pre.
Proof.
  induction pre as [|c pre IH]; intros rest; cbn.
  - destruct rest; reflexivity.
  - now rewrite IH.
Qed.

Lemma substring_suffix : forall pre rest,
  String.substring (String.length pre)
    (String.length (pre ++ rest) - String.length pre) (pre ++ rest) = rest.
Proof.
  induction pre as [|c pre IH]; intros rest.
  - cbn [append String.length]. rewrite Nat.sub_0_r. now apply substring_whole.
  - cbn. apply IH.
Qed.

Lemma length_append : forall a b,
  String.length (a ++ b) = (String.length a + String.length b)%nat.
Proof. induction a as [|c a IH]; intros b; cbn; [reflexivity | now rewrite IH]. Qed.

(** The extension that [splitext] splits off is empty, or a dot and
    characters without a dot. *)
Lemma splitext_ext pf p :
  snd (Window.splitext pf p) = EmptyString \/
  exists e, snd (Window.splitext pf p) = String "." e /\ free_of Window.is_dot e.
Proof.
  unfold Window.splitext.
  destruct (Z.gtb_spec (Window.rfind Window.is_dot p 0)
              (Window.rfind (Window.is_sep pf) p 0)) as [Hgt|_]; [|now left].
  destruct Window.has_stem; [|now left]. right. cbn [snd].
  destruct (rfind_range (Window.is_sep pf) p 0) as [Hs|Hs];
    (destruct (rfind_found Window.is_dot p 0 ltac:(lia) ltac:(lia))
      as (pre & c & post & -> & Hc & Hfree & ->)).
  all: rewrite Z.add_0_l, Nat2Z.id, substring_suffix.
  all: exists post; split; [|exact Hfree].
  all: unfold Window.is_dot in Hc; apply Ascii.eqb_eq in Hc; now subst c.
Qed.



(** ** The filler words of the text field *)

Lemma split_commas_nonempty s : Window.split_commas s <> [].
Proof.
  destruct s as [|c s]; cbn; [discriminate|].
  destruct Ascii.eqb; [discriminate|]. destruct Window.split_commas; discriminate.
Qed.

Lemma split_commas_free : forall s, free_of is_comma s -> Window.split_commas s = [s].
Proof.
  induction s as [|c s IH]; intros Hs; [reflexivity|].
  destruct Hs as [Hc Hs]. cbn [Window.split_commas].
  unfold is_comma in Hc. rewrite Hc, (IH Hs). reflexivity.
Qed.

Lemma split_commas_at : forall a b,
  free_of is_comma a ->
  Window.split_commas (a ++ String "," b) = a :: Window.split_commas b.
Proof.
  induction a as [|c a IH]; intros b Ha; [reflexivity|].
  destruct Ha as [Hc Ha]. cbn [append Window.split_commas].
  unfold is_comma in Hc. rewrite Hc, (IH b Ha). reflexivity.
Qed.

Lemma split_commas_are_free : forall s,
  Forall (free_of is_comma) (Window.split_commas s).
Proof.
  induction s as [|c s IH]; cbn [Window.split_commas].
  - repeat constructor.
  - destruct (Ascii.eqb c ",") eqn:Hc; [constructor; [exact I | exact IH]|].
    destruct (Window.split_commas s) as [|first rest].
    + repeat constructor. exact Hc.
    + inversion IH; subst. constructor; [|assumption]. split; assumption.
Qed.

Lemma free_of_append f : forall a b,
  free_of f (a ++ b) <-> free_of f a /\ free_of f b.
Proof.
  induction a as [|c a IH]; intros b; cbn [append free_of]; [tauto|].
  rewrite IH. tauto.
Qed.

Lemma lstrip_free f : forall s, free_of f s -> free_of f (lstrip s).
Proof.
  induction s as [|c s IH]; intros Hs; [exact I|]. cbn [lstrip].
  destruct (is_space c); [apply IH; apply Hs | exact Hs].
Qed.

Lemma rstrip_free f : forall s, free_of f s -> free_of f (rstrip s).
Proof.
  induction s as [|c s IH]; intros Hs; [exact I|]. destruct Hs as [Hc Hs].
  cbn [rstrip]. specialize (IH Hs).
  destruct (rstrip s); [destruct (is_space c); cbn; auto | cbn in *; tauto].
Qed.

Lemma lstrip_trimmed : forall s, trimmed_left (lstrip s).
Proof.
  induction s as [|c s IH]; [exact I|]. cbn [lstrip].
  destruct (is_space c) eqn:E; [exact IH | exact E].
Qed.

Lemma lstrip_id s : trimmed_left s -> lstrip s = s.
Proof. destruct s as [|c s]; cbn; [reflexivity|]. now intros ->. Qed.

Lemma rstrip_trimmed s : trimmed_left s -> trimmed_left (rstrip s).
Proof.
  destruct s as [|c s]; [exact (fun H => H)|]. cbn [trimmed_left rstrip].
  intros Hc. destruct (rstrip s); [rewrite Hc|]; exact Hc.
Qed.

Lemma rstrip_idem : forall s, rstrip (rstrip s) = rstrip s.
Proof.
  induction s as [|c s IH]; [reflexivity|]. cbn [rstrip].
  destruct (rstrip s) as [|d r] eqn:E.
  - destruct (is_space c) eqn:Hc; [reflexivity|]. cbn [rstrip]. now rewrite Hc.
  - cbn [rstrip]. cbn [rstrip] in IH. rewrite IH. reflexivity.
Qed.

Lemma strip_idem s : strip (strip s) = strip s.
Proof.
  unfold strip.
  rewrite (lstrip_id (rstrip (lstrip s))) by apply rstrip_trimmed, lstrip_trimmed.
  apply rstrip_idem.
Qed.

Lemma strip_blank s : strip (String " " s) = strip s.
Proof. reflexivity. Qed.

Lemma nonempty_true s : s <> EmptyString -> Window.nonempty s = true.
Proof. destruct s; [congruence | reflexivity]. Qed.

Lemma split_join_words : forall ws pad,
  ws <> [] -> Forall clean ws -> free_of is_comma pad ->
  exists w rest,
    ws = w :: rest /\
    Window.split_commas (pad ++ Window.join_words ws)
    = (pad ++ w)%string :: map (String " ") rest.
Proof.
  induction ws as [|w ws IH]; intros pad Hne Hclean Hpad; [congruence|].
  exists w, ws. split; [reflexivity|].
  inversion Hclean as [|? ? (Hw0 & Hws & Hwf) Hrest]; subst.
  destruct ws as [|w2 ws].
  - cbn [Window.join_words map]. apply split_commas_free.
    apply free_of_append. auto.
  - change (Window.join_words (w :: w2 :: ws))
      with (w ++ String "," (String " " EmptyString ++ Window.join_words (w2 :: ws)))%string.
    assert (forall a b c, (a ++ (b ++ c))%string = ((a ++ b) ++ c)%string) as Hassoc
      by (induction a as [|x a IHa]; intros; cbn; [reflexivity | now rewrite IHa]).
    rewrite Hassoc.
    replace ((pad ++ w ++ String "," (String " " EmptyString ++ Window.join_words (w2 :: ws)))%string)
      with ((pad ++ w) ++ String "," (String " " EmptyString ++ Window.join_words (w2 :: ws)))%string
      by (now rewrite <- Hassoc).
    rewrite split_commas_at by (apply free_of_append; auto).
    destruct (IH (String " " EmptyString) ltac:(discriminate) Hrest)
      as (w' & rest' & Hw' & E); [repeat split|].
    injection Hw' as <- <-. rewrite E. reflexivity.
Qed.



(** ** Sample pages *)


Lemma click_selects_shown_clip_witness :
  Window.on_clip_selected 1 second_page
  = Returned (Some (mkClip SILENCE (inject_Z 11) (inject_Z 11 + (1 # 2)) EmptyString)).
Proof.
  exact (proj1 (click_selects_shown_clip second_page 1
                  (Window.mkRow false (mkClip SILENCE (inject_Z 11)
                                         (inject_Z 11 + (1 # 2)) EmptyString))
                  ltac:(repeat split; vm_compute; congruence) eq_refl)).
Defined.

Lemma preview_takes_ticked_rows_witness :
  Window.preview_selection (Window.clips second_page) 2 10
    (Window.clip_table second_page) 0
  = Returned (Window.ticked (Window.clip_table second_page)).
Proof.
  apply (preview_takes_ticked_rows second_page).
  repeat split; vm_compute; congruence.
Defined.

Lemma generate_video_counts_rows_from_the_start_witness :
  (exists r, Window.generate_video Window.posix second_page = Returned r) /\
  forall c,
    In c (Window.by_row_number (Window.clip_table second_page)
            (Window.clips second_page)) ->
    ~ In c (map Window.shown (Window.clip_table second_page)).
Proof.
  destruct (generate_video_counts_rows_from_the_start Window.posix second_page
              ltac:(repeat split; vm_compute; congruence))
    as (Hreturns & _ & _ & Hother).
  split; [exact Hreturns|]. apply Hother.
  - reflexivity.
  - vm_compute. repeat constructor; cbn [In]; intuition discriminate.
Defined.

Lemma ordered_transcript_paths_agree_witness :
  Forall2 ieq
    (keep_times_of
       (Window.by_row_number [Window.mkRow true (removal 0 0); Window.mkRow false (removal 0 0)]
          (detect ["嗯"%string] (1 # 2) [mkWord "a" 1 2; mkWord " 嗯" 2 3])) 6)
    (clips_to_keep_times_of
       (Window.by_row_number [Window.mkRow true (removal 0 0); Window.mkRow false (removal 0 0)]
          (detect ["嗯"%string] (1 # 2) [mkWord "a" 1 2; mkWord " 嗯" 2 3])) 6).
Proof.
  apply (ordered_transcript_paths_agree ["嗯"%string] (1 # 2)
           [mkWord "a" 1 2; mkWord " 嗯" 2 3]).
  - lra.
  - cbn [in_time_order w_start w_end]. repeat split; lra.
Defined.

(** ** The calls of the primary attempt *)

Lemma externals_quiet out : Forall no_call out -> externals out = [].
Proof.
  induction 1 as [|e out He _ IH]; [reflexivity|].
  rewrite externals_cons, IH, He. reflexivity.
Qed.

Lemma software_cmd_runs_on v e o : runs_on (software_cmd v e o) v e o.
Proof.
  exists ["-c:v"; "libx264"; "-c:a"; "aac"; "-preset"; "slower"; "-crf"; "16";
          "-pix_fmt"; "yuv420p"; "-b:v"; "20000k";
          "-x264opts"; "aq-mode=2:aq-strength=1.0"]%string.
  reflexivity.
Qed.

Lemma hardware_cmd_runs_on v e o enc : runs_on (hardware_cmd v e o enc) v e o.
Proof.
  unfold hardware_cmd. destruct String.eqb.
  - exists ["-c:v"; enc; "-c:a"; "aac"; "-preset"; "medium"; "-crf"; "16";
            "-pix_fmt"; "yuv420p"; "-b:v"; "20000k"]%string.
    reflexivity.
  - exists ["-c:v"; enc; "-c:a"; "aac"; "-preset"; "slow"; "-crf"; "16";
            "-pix_fmt"; "yuv420p"; "-b:v"; "20000k"]%string.
    reflexivity.
Qed.

Lemma choose_cmd_run w select_expr s :
  exists cmd out,
    choose_cmd w select_expr s = (Returned cmd, s, out) /\
    externals out = [call_ffmpeg_encoders] /\
    runs_on cmd (video_path (self s)) select_expr (output_path (self s)).
Proof.
  unfold choose_cmd, _check_hardware_acceleration, try_except.
  unfold bind at 1. unfold get_self at 1. unfold bind at 1. unfold bind at 1.
  unfold call at 1.
  destruct (ffmpeg_encoders w) as [encoders|e].
  - destruct (contains "h264_nvenc" encoders);
      [|destruct (contains "h264_amf" encoders);
        [|destruct (contains "h264_qsv" encoders)]];
      (eexists; eexists; split; [reflexivity|]; split; [reflexivity|];
       first [apply hardware_cmd_runs_on | apply software_cmd_runs_on]).
  - eexists. eexists. split; [reflexivity|]. split; [reflexivity|].
    apply software_cmd_runs_on.
Qed.

Lemma try_ffmpeg_export_run w s stdout D :
  let path := video_path (self s) in
  let keep := keep_times_of (clips_to_remove (self s)) D in
  ffprobe w path = Returned (0%Z, stdout) ->
  float_of_str w (strip stdout) = Returned D ->
  keep <> [] ->
  exists cmd ok st out,
    runs_on cmd path (filter_complex_of (select_condition_of w keep))
      (output_path (self s)) /\
    _try_ffmpeg_export w s = (Returned ok, st, out) /\
    externals out = [call_ffprobe path; call_ffmpeg_encoders; call_ffmpeg cmd] /\
    (ok = true <-> exists stderr, ffmpeg w cmd = Returned (0%Z, stderr)).
Proof.
  intros path keep Hprobe Hfloat Hkeep.
  unfold _try_ffmpeg_export, try_except, sort_clips_to_remove.
  unfold bind at 1. unfold set_self at 1. fold (sorted_state s).
  unfold bind at 1. rewrite build_expression_run. cbv zeta.
  change (video_path (self (sorted_state s))) with path.
  rewrite Hprobe. cbn [Z.eqb]. rewrite Hfloat.
  change (clips_to_remove (self (sorted_state s)))
    with (sort_by_start (clips_to_remove (self s))).
  rewrite keep_times_of_sorted. fold keep.
  destruct keep as [|k0 keep'] eqn:Ek; [congruence|]. rewrite <- Ek. clear Hkeep.
  change (negb (truthy (filter_complex_of (select_condition_of w keep))))
    with false. cbv iota.
  unfold bind at 1.
  match goal with |- context [report w ?n ?l ?s0] =>
    destruct (report_run w n l s0) as (eta & c & E); rewrite E; clear E end.
  unfold bind at 1.
  match goal with |- context [choose_cmd w ?e ?s0] =>
    destruct (choose_cmd_run w e s0) as (cmd & out & E & Hext & Hcmd);
      rewrite E; clear E end.
  cbn [self video_path output_path set_current_step sorted_state
       set_clips_to_remove] in Hcmd.
  unfold bind at 1. unfold call at 1.
  exists cmd.
  destruct (ffmpeg w cmd) as [[returncode stderr]|e].
  - destruct (Z.eqb_spec returncode 0) as [->|Hrc].
    + unfold bind at 1.
      match goal with |- context [report w ?n ?l ?s0] =>
        destruct (report_run w n l s0) as (eta2 & c2 & E); rewrite E; clear E end.
      unfold ret. eexists. eexists. eexists.
      split; [exact Hcmd|]. split; [reflexivity|]. split.
      * repeat (rewrite ?externals_cons, ?externals_app). rewrite Hext. reflexivity.
      * split; [eauto | reflexivity].
    + unfold bind, emit, ret. eexists. eexists. eexists.
      split; [exact Hcmd|]. split; [reflexivity|]. split.
      * repeat (rewrite ?externals_cons, ?externals_app). rewrite Hext. reflexivity.
      * split; [discriminate|]. intros (x & Hx). congruence.
  - unfold bind, emit, ret. eexists. eexists. eexists.
    split; [exact Hcmd|]. split; [reflexivity|]. split.
    * repeat (rewrite ?externals_cons, ?externals_app). rewrite Hext. reflexivity.
    * split; [discriminate|]. intros (x & Hx). discriminate Hx.
Qed.

(** X16: when [ffprobe] gives the duration and some interval is kept, the
    primary attempt calls [ffprobe], the probe of the encoders and one
    FFmpeg command, in this order, and nothing else.  The command reads
    the video of the processor, applies the filter graph built from the
    keep intervals and writes the output path over any existing file.
    The attempt answers [True] exactly when that command exits with 0. *)
Theorem primary_attempt_command w s stdout D :
  let path := video_path (self s) in
  let keep := keep_times_of (clips_to_remove (self s)) D in
  ffprobe w path = Returned (0%Z, stdout) ->
  float_of_str w (strip stdout) = Returned D ->
  keep <> [] ->
  exists cmd,
    runs_on cmd path (filter_complex_of (select_condition_of w keep))
      (output_path (self s)) /\
    externals (events_of (_try_ffmpeg_export w) s)
    = [call_ffprobe path; call_ffmpeg_encoders; call_ffmpeg cmd] /\
    (result_of (_try_ffmpeg_export w) s = Returned true
     <-> exists stderr, ffmpeg w cmd = Returned (0%Z, stderr)).
Proof.
  intros path keep Hprobe Hfloat Hkeep.
  destruct (try_ffmpeg_export_run w s stdout D Hprobe Hfloat Hkeep)
    as (cmd & ok & st & out & Hcmd & E & Hext & Hok).
  exists cmd. unfold events_of, result_of. rewrite E. cbn [fst snd].
  split; [exact Hcmd|]. split; [exact Hext|].
  rewrite <- Hok. split; [now intros [= ->] | now intros ->].
Qed.

(** X17: without a filter expression the primary attempt answers [False]
    and has called nothing but [ffprobe]: no encoder is probed and no
    FFmpeg command is run. *)
Theorem no_expression_no_encoding w s :
  no_expression w s ->
  result_of (_try_ffmpeg_export w) s = Returned false /\
  externals (events_of (_try_ffmpeg_export w) s)
  = [call_ffprobe (video_path (self s))].
Proof.
  intros Hno.
  assert (result_of (_build_ffmpeg_select_expression w) (sorted_state s)
          = Returned None /\
          externals (events_of (_build_ffmpeg_select_expression w) (sorted_state s))
          = [call_ffprobe (video_path (self s))]) as [Hnone Hext].
  { unfold result_of, events_of. rewrite build_expression_run. cbv zeta.
    change (video_path (self (sorted_state s))) with (video_path (self s)).
    change (clips_to_remove (self (sorted_state s)))
      with (sort_by_start (clips_to_remove (self s))).
    unfold no_expression in Hno.
    destruct (ffprobe w (video_path (self s))) as [[returncode stdout]|e];
      [|split; reflexivity].
    destruct (Z.eqb_spec returncode 0) as [->|Hrc]; [|split; reflexivity].
    destruct Hno as [Hno|Hno]; [congruence|].
    destruct (float_of_str w (strip stdout)) as [duration|e];
      [|split; reflexivity].
    rewrite keep_times_of_sorted, Hno. split; reflexivity. }
  unfold result_of, events_of.
  rewrite (try_ffmpeg_export_no_expression w s Hnone). cbn [fst snd].
  split; [reflexivity | exact Hext].
Qed.

Lemma no_expression_no_encoding_witness :
  result_of
    (_try_ffmpeg_export
       (sample_world 6 (Returned "h264_nvenc"%string) (Returned (0%Z, "ok"%string))))
    (running_state [removal 0 6])
  = Returned false /\
  externals
    (events_of
       (_try_ffmpeg_export
          (sample_world 6 (Returned "h264_nvenc"%string) (Returned (0%Z, "ok"%string))))
       (running_state [removal 0 6]))
  = [call_ffprobe "in.mp4"].
Proof.
  apply (no_expression_no_encoding
           (sample_world 6 (Returned "h264_nvenc"%string) (Returned (0%Z, "ok"%string)))
           (running_state [removal 0 6])).
  right. reflexivity.
Defined.

Lemma primary_attempt_command_witness :
  exists cmd,
    runs_on cmd "in.mp4"
      (filter_complex_of "between(t,0/1,1/1)+between(t,3/1,6/1)") "in_final.mp4" /\
    externals
      (events_of
         (_try_ffmpeg_export
            (sample_world 6 (Returned "h264_nvenc"%string) (Returned (0%Z, "ok"%string))))
         (running_state [removal 1 3]))
    = [call_ffprobe "in.mp4"; call_ffmpeg_encoders; call_ffmpeg cmd] /\
    (result_of
       (_try_ffmpeg_export
          (sample_world 6 (Returned "h264_nvenc"%string) (Returned (0%Z, "ok"%string))))
       (running_state [removal 1 3]) = Returned true
     <-> exists stderr,
           ffmpeg (sample_world 6 (Returned "h264_nvenc"%string)
                     (Returned (0%Z, "ok"%string))) cmd
           = Returned (0%Z, stderr)).
Proof.
  apply (primary_attempt_command
           (sample_world 6 (Returned "h264_nvenc"%string) (Returned (0%Z, "ok"%string)))
           (running_state [removal 1 3]) "6.000000" 6).
  - reflexivity.
  - reflexivity.
  - vm_compute. intros H. discriminate H.
Defined.

(** ** The calls of a detection run *)

Lemma scan_loop_quiet w total segs acc :
  emits_only no_call (for_each segs (scan_segment w total) acc).
Proof.
  apply emits_for_each. intros [[found last] k] seg. unfold scan_segment.
  apply emits_bind; [apply emits_report; reflexivity|]. intros _.
  apply emits_bind; [apply emits_get_self|]. intros p.
  destruct fold_left. apply emits_ret.
Qed.



Lemma finished_export_iff_primary_success_witness :
  ends_with (finished_export "in_final.mp4")
    (events_of
       (export (sample_world 6 (Returned "h264_nvenc"%string)
                  (Returned (0%Z, "ok"%string))))
       (running_state [removal 1 3])).
Proof.
  apply (proj2 (finished_export_iff_primary_success
                  (sample_world 6 (Returned "h264_nvenc"%string)
                     (Returned (0%Z, "ok"%string)))
                  (running_state [removal 1 3]))).
  vm_compute. reflexivity.
Defined.

(** ** An export that the fallback completes *)

Lemma try_ffmpeg_export_no_terminal w :
  emits_only no_terminal (_try_ffmpeg_export w).
Proof.
  unfold _try_ffmpeg_export, _build_ffmpeg_select_expression, choose_cmd,
    _check_hardware_acceleration, sort_clips_to_remove.
  emits.
Qed.



(** ** The statistics and the export *)

Lemma sum_lengths_from cs : forall a,
  fold_left (fun acc clip => acc + (end_ clip - start clip)) cs a
  == a + Statistics.sum_lengths cs.
Proof.
  unfold Statistics.sum_lengths.
  induction cs as [|c cs IH]; intros a; cbn [fold_left]; [lra|].
  rewrite (IH (a + (end_ c - start c))), (IH (0 + (end_ c - start c))). lra.
Qed.

Lemma sum_lengths_cons c cs :
  Statistics.sum_lengths (c :: cs)
  == (end_ c - start c) + Statistics.sum_lengths cs.
Proof.
  unfold Statistics.sum_lengths at 1. cbn [fold_left].
  rewrite sum_lengths_from. lra.
Qed.

Lemma sum_lengths_perm l l' :
  Permutation l l' -> Statistics.sum_lengths l == Statistics.sum_lengths l'.
Proof.
  induction 1 as [|x l l' _ IH|x y l|l l' l'' _ IH1 _ IH2].
  - reflexivity.
  - rewrite !sum_lengths_cons, IH. reflexivity.
  - rewrite !sum_lengths_cons. lra.
  - now rewrite IH1.
Qed.

Lemma sum_lengths_by_type cs :
  Statistics.sum_lengths (filter (Statistics.has_type FILLER) cs)
  + Statistics.sum_lengths (filter (Statistics.has_type SILENCE) cs)
  == Statistics.sum_lengths cs /\
  (List.length (filter (Statistics.has_type FILLER) cs)
   + List.length (filter (Statistics.has_type SILENCE) cs)
   = List.length cs)%nat.
Proof.
  induction cs as [|c cs [IHq IHn]]; [split; reflexivity|].
  destruct c as [[] t_start t_end text];
    cbn [filter Statistics.has_type type List.length];
    rewrite !sum_lengths_cons; split; try lra; lia.
Qed.

(** The walk of the primary path keeps at least what the lengths of the
    clips leave. *)
Lemma walk_keeps_at_least : forall cs L,
  Forall (fun c => start c <= end_ c) cs ->
  final_end cs L - L <= total_duration (gaps cs L) + Statistics.sum_lengths cs.
Proof.
  induction cs as [|c cs IH]; intros L Hcs.
  - cbn. unfold Statistics.sum_lengths, total_duration. cbn. lra.
  - inversion Hcs as [|? ? Hc Hrest]; subst. cbn [gaps final_end].
    specialize (IH (py_max L (end_ c)) Hrest).
    rewrite total_duration_app, sum_lengths_cons.
    revert IH. unfold py_max. destruct (fgt_dec (start c) L);
      destruct (fgt_dec (end_ c) L); intros IH;
      unfold total_duration at 1; cbn [fold_right]; unfold duration_of;
      cbn [fst snd]; lra.
Qed.

(** On clips that do not overlap, it keeps exactly that. *)
Lemma walk_keeps_exactly : forall cs L,
  StronglySorted clip_before cs ->
  Forall (fun c => L <= start c /\ start c <= end_ c) cs ->
  total_duration (gaps cs L) + Statistics.sum_lengths cs == final_end cs L - L.
Proof.
  induction cs as [|c cs IH]; intros L Hs Hcs.
  - cbn. unfold Statistics.sum_lengths, total_duration. cbn. lra.
  - inversion Hs as [|? ? Hs' Hb]; subst.
    inversion Hcs as [|? ? [Hc1 Hc2] Hrest]; subst. cbn [gaps final_end].
    assert (Forall (fun x => py_max L (end_ c) <= start x /\ start x <= end_ x) cs)
      as Hnext.
    { apply Forall_forall. intros x Hx. rewrite Forall_forall in Hb, Hrest.
      specialize (Hb x Hx). specialize (Hrest x Hx). unfold clip_before in Hb.
      unfold py_max. destruct fgt_dec; lra. }
    specialize (IH (py_max L (end_ c)) Hs' Hnext).
    rewrite total_duration_app, sum_lengths_cons.
    revert IH. unfold py_max. destruct (fgt_dec (start c) L);
      destruct (fgt_dec (end_ c) L); intros IH;
      unfold total_duration at 1; cbn [fold_right]; unfold duration_of;
      cbn [fst snd]; lra.
Qed.

Lemma final_end_bounds : forall cs L D,
  L <= D -> Forall (fun c => end_ c <= D) cs ->
  L <= final_end cs L /\ final_end cs L <= D.
Proof.
  induction cs as [|c cs IH]; intros L D HL Hcs; cbn [final_end]; [lra|].
  inversion Hcs as [|? ? Hc Hrest]; subst.
  destruct (IH (py_max L (end_ c)) D) as [A B]; auto.
  - unfold py_max. destruct fgt_dec; lra.
  - split; [|exact B]. revert A. unfold py_max. destruct fgt_dec; lra.
Qed.

Lemma final_end_from : forall cs L, L <= final_end cs L.
Proof.
  induction cs as [|c cs IH]; intros L; cbn [final_end]; [lra|].
  specialize (IH (py_max L (end_ c))). revert IH. unfold py_max.
  destruct fgt_dec; lra.
Qed.



(** ** The model manager *)

Lemma manager_run_invariant ld : forall calls m,
  (forall model, m = Some model -> WhisperModelManager.paired model) ->
  let '(m', out) := WhisperModelManager.run ld calls m in
  (List.length (filter WhisperModelManager.is_built out)
   + match m with Some _ => 1 | None => 0 end
   <= S (List.length (filter WhisperModelManager.is_clear calls)))%nat /\
  (forall model, m' = Some model ->
     WhisperModelManager.paired model /\
     (m = Some model \/
      In (WhisperModelManager.model_size model)
        (WhisperModelManager.sizes_asked calls))).
Proof.
  induction calls as [|[size|] calls IH]; intros m Hm.
  - cbn. split; [destruct m; lia|]. intros model ->. auto.
  - cbn [WhisperModelManager.run filter WhisperModelManager.is_clear
         WhisperModelManager.sizes_asked flat_map].
    unfold WhisperModelManager.get_model.
    destruct m as [model0|].
    + specialize (IH (Some model0) Hm).
      destruct (WhisperModelManager.run ld calls (Some model0)) as [m2 out2].
      cbn [app]. destruct IH as [Hn Hp]. split; [exact Hn|].
      intros model E. destruct (Hp model E) as [A [B|B]]; split; auto.
      right. right. exact B.
    + destruct (WhisperModelManager.cuda_is_available ld) as [cuda|e].
      * destruct (WhisperModelManager.WhisperModel ld size _ _) as [[]|e].
        -- match goal with |- context [WhisperModelManager.run ld calls (Some ?md)] =>
             specialize (IH (Some md)); set (model1 := md) in * end.
           assert (WhisperModelManager.paired model1) as Hpair
             by (unfold model1, WhisperModelManager.paired; destruct cuda; cbn; auto).
           specialize (IH ltac:(now intros ? [= <-])).
           destruct (WhisperModelManager.run ld calls (Some model1)) as [m2 out2].
           destruct IH as [Hn Hp]. cbn [app filter WhisperModelManager.is_built
                                        List.length].
           split; [lia|].
           intros model E. destruct (Hp model E) as [A [B|B]]; split; auto.
           ++ right. injection B as <-. left. reflexivity.
           ++ right. right. exact B.
        -- specialize (IH None ltac:(discriminate)).
           destruct (WhisperModelManager.run ld calls None) as [m2 out2].
           destruct IH as [Hn Hp]. cbn [app filter WhisperModelManager.is_built].
           split; [lia|].
           intros model E. destruct (Hp model E) as [A [B|B]]; [discriminate|].
           split; auto. right. right. exact B.
      * specialize (IH None ltac:(discriminate)).
        destruct (WhisperModelManager.run ld calls None) as [m2 out2].
        destruct IH as [Hn Hp]. cbn [app filter WhisperModelManager.is_built].
        split; [lia|].
        intros model E. destruct (Hp model E) as [A [B|B]]; [discriminate|].
        split; auto. right. right. exact B.
  - cbn [WhisperModelManager.run filter WhisperModelManager.is_clear
         WhisperModelManager.sizes_asked flat_map List.length app].
    unfold WhisperModelManager.clear_model.
    specialize (IH None ltac:(discriminate)).
    destruct m as [model0|];
      destruct (WhisperModelManager.run ld calls None) as [m2 out2];
      destruct IH as [Hn Hp]; cbn [app filter WhisperModelManager.is_built];
      (split; [lia|]);
      intros model E; destruct (Hp model E) as [A [B|B]]; try discriminate;
      split; auto.
Qed.

(** X21: whatever calls are made on the manager, from an empty manager, a
    model is built at most once more than the model is cleared; the one
    that the manager holds was built for a size that was asked for, on
    [cuda] with [float16] or on [cpu] with [int8].  While the manager
    holds a model, [get_model] answers it for every size, builds nothing
    and prints nothing. *)
Theorem model_is_built_once_per_clear ld calls :
  let '(m, out) := WhisperModelManager.run ld calls None in
  (List.length (filter WhisperModelManager.is_built out)
   <= S (List.length (filter WhisperModelManager.is_clear calls)))%nat /\
  (forall model, m = Some model ->
     WhisperModelManager.paired model /\
     In (WhisperModelManager.model_size model)
       (WhisperModelManager.sizes_asked calls) /\
     forall size,
       WhisperModelManager.get_model ld size m = (Returned model, m, [])).
Proof.
  pose proof (manager_run_invariant ld calls None ltac:(discriminate)) as H.
  destruct (WhisperModelManager.run ld calls None) as [m out].
  destruct H as [Hn Hp]. split; [lia|].
  intros model ->. destruct (Hp model eq_refl) as [A [B|B]]; [discriminate|].
  split; [exact A|]. split; [exact B|]. reflexivity.
Qed.

Lemma model_is_built_once_per_clear_witness :
  WhisperModelManager.paired (WhisperModelManager.mkModel "small" "cpu" "int8") /\
  forall size,
    WhisperModelManager.get_model WhisperModelManager.cpu_loader size
      (Some (WhisperModelManager.mkModel "small" "cpu" "int8"))
    = (Returned (WhisperModelManager.mkModel "small" "cpu" "int8"),
       Some (WhisperModelManager.mkModel "small" "cpu" "int8"), []).
Proof.
  pose proof (model_is_built_once_per_clear WhisperModelManager.cpu_loader
                [WhisperModelManager.call_get "small";
                 WhisperModelManager.call_get "large"]) as H.
  cbn in H. destruct H as [_ H].
  destruct (H _ eq_refl) as (Hpair & _ & Hget). split; [exact Hpair | exact Hget].
Defined.
